(** * Budget forecasting engine of [sales_prediction_system1.py]

    A shallow embedding of the forecasting core of the Streamlit application:
    the risk-adjusted revenue model, the cash-flow generator, the material
    cost allocator, the labor cost amortizer, the administrative cost
    expander, the monthly budget roll-up and the runway projection; and,
    around them, the statistics under the budget table, the roll-up behind
    the charts, the stored project frame with its form, delete and update
    buttons, and the quarterly rows of the income summary.

    Conventions of the embedding.
    - Python [float] amounts are exact rationals ([Q]); the decay factor,
      which needs [math.exp], lives in the real numbers ([R]). The one test
      whose outcome at its threshold is decided by rounding, the tolerance
      test of the payment ratios, is given on binary64 as well
      ([RatioTest]).
    - [round(x, 2)] is decimal rounding to the nearest hundredth with ties to
      even ([round2]).
    - A pandas [Timestamp] at midnight is a calendar date ([date]); a month
      key [f"{d.year}-{d.month:02d}"] (equally [to_period('M').astype(str)])
      is kept structured as the pair (year, month) it renders.
    - A [DataFrame] is the list of its rows, each row a record of the columns
      the code reads; a grouped frame (one row per key) is a finite map. *)

From Stdlib Require Import ZArith QArith Qround Qabs Reals Lra Lia List String.
From Stdlib Require PrimFloat FloatOps SpecFloat.
From stdpp Require Import base option list gmap sets sorting strings.

Local Open Scope Z_scope.

(** ** Calendar arithmetic (datetime / pandas.DateOffset) *)

Module Calendar.

Record date := mkdate { year : Z; month : Z; day : Z }.

Definition is_leap (y : Z) : bool :=
  (y mod 4 =? 0) && (negb (y mod 100 =? 0) || (y mod 400 =? 0)).

(** Number of days of month [m] of year [y]. *)
Definition days_in_month (y m : Z) : Z :=
  if m =? 2 then (if is_leap y then 29 else 28)
  else if (m =? 4) || (m =? 6) || (m =? 9) || (m =? 11) then 30
  else 31.

(** Days of the year before the first of month [m] (non-leap table plus the
    leap day), as in [datetime._days_before_month]. *)
Definition days_before_month (y m : Z) : Z :=
  (match m with
   | 1 => 0 | 2 => 31 | 3 => 59 | 4 => 90 | 5 => 120 | 6 => 151
   | 7 => 181 | 8 => 212 | 9 => 243 | 10 => 273 | 11 => 304 | _ => 334
   end) + (if (2 <? m) && is_leap y then 1 else 0).

Definition days_before_year (y : Z) : Z :=
  let p := y - 1 in p * 365 + p / 4 - p / 100 + p / 400.

(** [date.toordinal()]. *)
Definition toordinal (d : date) : Z :=
  days_before_year (year d) + days_before_month (year d) (month d) + day d.

(** [(a - b).days] for two midnight timestamps. *)
Definition days_between (a b : date) : Z := toordinal a - toordinal b.

(** Months since year 0, the position of a calendar month on the time axis. *)
Definition month_index (d : date) : Z := year d * 12 + (month d - 1).

(** [d + pd.DateOffset(months=k)]: the month moves by [k], the day of month
    is kept and clamped to the length of the target month. *)
Definition add_months (d : date) (k : Z) : date :=
  let i := month_index d + k in
  let y := i / 12 in
  let m := i mod 12 + 1 in
  mkdate y m (Z.min (day d) (days_in_month y m)).

(** [d + pd.DateOffset(years=k)]. *)
Definition add_years (d : date) (k : Z) : date :=
  let y := year d + k in
  mkdate y (month d) (Z.min (day d) (days_in_month y (month d))).

(** [d - pd.DateOffset(days=1)]. *)
Definition sub_one_day (d : date) : date :=
  if 1 <? day d then mkdate (year d) (month d) (day d - 1)
  else
    let p := add_months (mkdate (year d) (month d) 1) (-1) in
    mkdate (year p) (month p) (days_in_month (year p) (month p)).

(** [d.replace(day=1)]. *)
Definition replace_day1 (d : date) : date := mkdate (year d) (month d) 1.

(** Timestamp comparison [a <= b], [a < b], [a > b]. *)
Definition date_compare (a b : date) : comparison :=
  match year a ?= year b with
  | Eq => match month a ?= month b with
          | Eq => day a ?= day b
          | c => c
          end
  | c => c
  end.

Definition date_leb (a b : date) : bool :=
  match date_compare a b with Gt => false | _ => true end.

Definition date_ltb (a b : date) : bool :=
  match date_compare a b with Lt => true | _ => false end.

(** Python [min(a, b)]: the first argument unless the second is smaller. *)
Definition date_min (a b : date) : date := if date_ltb b a then b else a.

(** The month key of a date, [f"{d.year}-{d.month:02d}"]. *)
Definition month_key : Type := (Z * Z)%type.
Definition month_of (d : date) : month_key := (year d, month d).

(** The calendar month at a position of the time axis. *)
Definition month_at (i : Z) : month_key := (i / 12, i mod 12 + 1).

(** The first day of the calendar month at a position of the time axis. *)
Definition first_of_month (i : Z) : date := mkdate (i / 12) (i mod 12 + 1) 1.

(** A well-formed calendar date. *)
Definition valid_date (d : date) : Prop :=
  1 <= month d <= 12 /\ 1 <= day d <= days_in_month (year d) (month d).

End Calendar.
Export Calendar.

(** ** Monetary rounding *)

(** Nearest integer, ties to even. *)
Definition round_half_even (q : Q) : Z :=
  let f := Qfloor q in
  match Qcompare (q - inject_Z f) (1 # 2) with
  | Lt => f
  | Gt => f + 1
  | Eq => if Z.even f then f else f + 1
  end.

(** [round(x, 2)]. *)
Definition round2 (q : Q) : Q := inject_Z (round_half_even (q * 100)) / 100.

(** An amount with at most two decimals, which [round(x, 2)] leaves as it is. *)
Definition two_decimals (q : Q) : Prop := (round2 q == q)%Q.

(** [abs(a - b) > tol] and [a > 0] on exact amounts. *)
Definition Qgtb (a b : Q) : bool := negb (Qle_bool a b).

(** ** What a generator shows on the page besides its table (st.warning) *)

Inductive message : Type :=
  | RatioWarning (project : string) (total_percent : Q).

(** A computation that also writes messages to the page. *)
Definition Ui (A : Type) : Type := (A * list message)%type.

Definition ui_ret {A} (a : A) : Ui A := (a, []).

Definition ui_bind {A B} (m : Ui A) (k : A -> Ui B) : Ui B :=
  let (b, w) := k (fst m) in (b, snd m ++ w).

Definition st_warning (w : message) : Ui unit := (tt, [w]).

Notation "'let*' x ':=' m 'in' k" := (ui_bind m (fun x => k))
  (at level 10, x name, m at level 100, k at level 200).

(** ** RevenueModel: risk-adjusted revenue of a new project *)

Module RevenueModel.
Local Open Scope R_scope.

(** [datetime(2025, 12, 8)], the base date of the forecast. *)
Definition base_datetime : date := mkdate 2025 12 8.

(** Calendar year/month difference from [b] to [d]. *)
Definition months_between (b d : date) : Z :=
  ((year d - year b) * 12 + (month d - month b))%Z.

Definition month_diff (delivery_datetime : date) : Z :=
  let month_diff := months_between base_datetime delivery_datetime in
  if (month_diff <? 0)%Z then 0%Z else month_diff.

(** [math.exp(-lam * month_diff)]; the source writes the coefficient as the
    literal 0.0315. *)
Definition decay_factor (lam : R) (month_diff : Z) : R :=
  exp (- lam * IZR month_diff).

Definition decay_lambda : R := 315 / 10000.

Definition time_decay (month_diff : Z) : R :=
  decay_factor decay_lambda month_diff.

(** [contract_amount * (close_rate / 100) * time_decay], with the close
    rate in percent as the slider gives it. *)
Definition expected_revenue (contract_amount close_rate : R)
    (delivery_datetime : date) : R :=
  contract_amount * (close_rate / 100) * time_decay (month_diff delivery_datetime).

(** The two inputs of the page 系统配置 that are meant for this model. *)
Record configuration := {
  config_decay_lambda : R;     (* decay_lambda: 时间衰减系数 (λ) *)
  config_base_date : date      (* base_date: 预测基准日期 *)
}.

(** The values the two inputs show before anyone changes them. *)
Definition default_configuration : configuration :=
  {| config_decay_lambda := 315 / 10000;
     config_base_date := mkdate 2025 12 8 |}.

(** The expected revenue that the button "计算并添加项目" (and in the same
    way the import) computes in a session whose configuration page holds
    [cfg]. The two inputs are assigned to local variables of the
    configuration page that nothing reads: the computation has the base
    date and the coefficient as literals. *)
Definition form_expected_revenue (cfg : configuration)
    (contract_amount close_rate : R) (delivery_date : date) : R :=
  expected_revenue contract_amount close_rate delivery_date.

(** The model in the words of the specification, with its base date [b],
    its coefficient [lam] and a close rate [r] between 0 and 1:
    [monthDiff = max(0, monthsBetween(b, d))] on the calendar year and
    month, [decayFactor = e^(-lam * monthDiff)],
    [expectedRevenue = C * r * decayFactor]. *)
Definition spec_month_diff (b d : date) : Z :=
  Z.max 0 ((year d - year b) * 12 + (month d - month b))%Z.

Definition spec_expected_revenue (lam : R) (b : date) (C r : R) (d : date) : R :=
  C * r * exp (- lam * IZR (spec_month_diff b d)).

(** A configuration other than the default: coefficient 0.05, base date
    2026-06-01. *)
Definition later_base_configuration : configuration :=
  {| config_decay_lambda := 5 / 100;
     config_base_date := mkdate 2026 6 1 |}.

End RevenueModel.

(** ** IncomeManager *)

Module IncomeManager.
Local Open Scope Q_scope.

(** A row of the income frame, with the columns the generators read. The
    three payment ratios are read with [project.get(column, default)]. *)
Record Project := {
  project_name : string;               (* 项目名称 *)
  delivery_date : date;                (* 交付日期 *)
  business_line : string;              (* 业务线 *)
  contract_amount : Q;                 (* 合同金额 *)
  corrected_revenue : Q;               (* 纠偏后收入 *)
  first_payment_ratio : option Q;      (* 首付款比例 *)
  second_payment_ratio : option Q;     (* 次付款比例 *)
  final_payment_ratio : option Q       (* 质保金比例 *)
}.

(** The income frame [self.data]: its rows and the three helper columns
    that exist only once something has assigned them ([None]: the frame
    has no such column). *)
Record frame := {
  rows : list Project;
  delivery_quarter : option (list Z);          (* 交付季度 *)
  delivery_year : option (list Z);             (* 交付年份 *)
  quarter_label : option (list (Z * Z))        (* 季度, year-Qn *)
}.

Definition new_frame (l : list Project) : frame :=
  {| rows := l; delivery_quarter := None; delivery_year := None;
     quarter_label := None |}.

Definition builtin_ratios : gmap string Q :=
  <["光谱设备/服务" := 0.30]> (<["配液设备" := 0.35]> (<["自动化项目" := 0.40]> ∅)).

Record t := {
  data : frame;
  material_ratios : gmap string Q
}.

(** [__init__]: [material_ratios or {...}] falls back to the built-in
    table when no table, or an empty one, is given. *)
Definition init (df : frame) (ratios : option (gmap string Q)) : t :=
  {| data := df;
     material_ratios :=
       match ratios with
       | Some m => if decide (m = ∅) then builtin_ratios else m
       | None => builtin_ratios
       end |}.

Inductive flow_kind := FirstPayment | SecondPayment | Warranty.

Record CashFlowEvent := {
  cf_project : string;       (* 项目名称 *)
  cf_kind : flow_kind;       (* 现金流类型 *)
  cf_date : date;            (* 支付日期 *)
  cf_month : month_key;      (* 支付月份 *)
  cf_amount : Q;             (* 金额 *)
  cf_line : string;          (* 业务线 *)
  cf_ratio : Q               (* 付款比例 *)
}.

(** [project.get(column, default)]. *)
Definition get (column : option Q) (dflt : Q) : Q := default dflt column.

(** One turn of the loop of [generate_cash_flow_data]. *)
Definition project_cash_flow (project : Project) : Ui (list CashFlowEvent) :=
  let delivery_date := delivery_date project in
  let first_payment_ratio := get (first_payment_ratio project) 50 / 100 in
  let second_payment_ratio := get (second_payment_ratio project) 40 / 100 in
  let final_payment_ratio := get (final_payment_ratio project) 10 / 100 in
  let total_ratio := first_payment_ratio + second_payment_ratio + final_payment_ratio in
  let* _ := (if Qgtb (Qabs (total_ratio - 1)) (1 # 1000)
             then st_warning (RatioWarning (project_name project) (total_ratio * 100))
             else ui_ret tt) in
  let first_payment_date := delivery_date in
  let first_payment_amount := corrected_revenue project * first_payment_ratio in
  let second_payment_date := add_months delivery_date 1 in
  let second_payment_amount := corrected_revenue project * second_payment_ratio in
  let final_payment_date := add_years delivery_date 1 in
  let final_payment_amount := corrected_revenue project * final_payment_ratio in
  ui_ret
    [ {| cf_project := project_name project; cf_kind := FirstPayment;
         cf_date := first_payment_date; cf_month := month_of first_payment_date;
         cf_amount := round2 first_payment_amount;
         cf_line := business_line project;
         cf_ratio := get (IncomeManager.first_payment_ratio project) 50 |};
      {| cf_project := project_name project; cf_kind := SecondPayment;
         cf_date := second_payment_date; cf_month := month_of second_payment_date;
         cf_amount := round2 second_payment_amount;
         cf_line := business_line project;
         cf_ratio := get (IncomeManager.second_payment_ratio project) 40 |};
      {| cf_project := project_name project; cf_kind := Warranty;
         cf_date := final_payment_date; cf_month := month_of final_payment_date;
         cf_amount := round2 final_payment_amount;
         cf_line := business_line project;
         cf_ratio := get (IncomeManager.final_payment_ratio project) 10 |} ].

Fixpoint cash_flow_rows (l : list Project) : Ui (list CashFlowEvent) :=
  match l with
  | [] => ui_ret []
  | project :: rest =>
      let* evs := project_cash_flow project in
      let* more := cash_flow_rows rest in
      ui_ret (evs ++ more)
  end.

Definition generate_cash_flow_data (self : t) : Ui (list CashFlowEvent) :=
  cash_flow_rows (rows (data self)).

Record MaterialCost := {
  mc_project : string;       (* 项目名称 *)
  mc_line : string;          (* 业务线 *)
  mc_ratio_percent : Q;      (* 物料支出比例 *)
  mc_cost : Q;               (* 物料成本 *)
  mc_month : month_key;      (* 支出月份 *)
  mc_date : date             (* 支出日期 *)
}.

(** [self.material_ratios.get(line, {...}.get(line, 0.30))]. *)
Definition material_ratio_of (self : t) (line : string) : Q :=
  default (default 0.30 (builtin_ratios !! line)) (material_ratios self !! line).

Definition project_material_cost (self : t) (project : Project) : MaterialCost :=
  let business_line := business_line project in
  let material_ratio := material_ratio_of self business_line in
  let material_cost := corrected_revenue project * material_ratio in
  let delivery_date := delivery_date project in
  let material_payment_date := add_months delivery_date (-1) in
  {| mc_project := project_name project; mc_line := business_line;
     mc_ratio_percent := material_ratio * 100;
     mc_cost := round2 material_cost;
     mc_month := month_of material_payment_date;
     mc_date := material_payment_date |}.

Definition generate_material_cost_data (self : t) : list MaterialCost :=
  map (project_material_cost self) (rows (data self)).

(** [dt.quarter]. *)
Definition quarter_of (d : date) : Z := ((month d - 1) / 3 + 1)%Z.

(** What [generate_summary] leaves in [self.data]: on a frame with rows it
    assigns the columns 交付日期 (converted in place, the same dates),
    交付季度, 交付年份 and 季度 of the manager's own frame before it
    aggregates. The summary table it returns is not part of this model. *)
Definition generate_summary_data (self : t) : t :=
  match rows (data self) with
  | [] => self
  | _ =>
    let dates := map delivery_date (rows (data self)) in
    {| data :=
         {| rows := rows (data self);
            delivery_quarter := Some (map quarter_of dates);
            delivery_year := Some (map year dates);
            quarter_label := Some (map (fun d => (year d, quarter_of d)) dates) |};
       material_ratios := material_ratios self |}
  end.

End IncomeManager.

(** ** The tolerance test of the payment ratios on binary64 *)

Module RatioTest.
Import PrimFloat.
#[local] Set Warnings "-inexact-float".

(** The test [abs(total_ratio - 1.0) > 0.001] of [generate_cash_flow_data]
    as Python evaluates it: on binary64 numbers, every operation rounded to
    nearest, the literals read as the nearest binary64 numbers. The
    arguments are the three ratios in percent as the row holds them. *)
Definition warns (first second final : PrimFloat.float) : bool :=
  (let first_payment_ratio := first / 100 in
   let second_payment_ratio := second / 100 in
   let final_payment_ratio := final / 100 in
   let total_ratio :=
     first_payment_ratio + second_payment_ratio + final_payment_ratio in
   0.001 <? PrimFloat.abs (total_ratio - 1))%float.

(** The rational number that a finite binary64 number is. *)
Definition value (x : PrimFloat.float) : Q :=
  match FloatOps.Prim2SF x with
  | SpecFloat.S754_finite s m e =>
      let v := if (0 <=? e)%Z then inject_Z (Z.pos m * 2 ^ e)
               else Z.pos m # Z.to_pos (2 ^ (- e)) in
      if s then Qopp v else v
  | _ => 0%Q
  end.

(** Stored ratios of 50, 40 and 9.9 percent. *)
Definition fifty : PrimFloat.float := 50%float.
Definition forty : PrimFloat.float := 40%float.
Definition nine_point_nine : PrimFloat.float := 9.9%float.

End RatioTest.

(** ** LaborCostManager *)

Module LaborCostManager.
Local Open Scope Q_scope.

Record row := {
  cost_type : string;        (* 成本类型 *)
  person_dept : string;      (* 人员/部门 *)
  monthly_cost : Q;          (* 月度成本 *)
  start_date : date;         (* 开始日期 *)
  end_date : date            (* 结束日期 *)
}.

Record MonthlyCost := {
  lc_type : string;          (* 成本类型 *)
  lc_person : string;        (* 人员/部门 *)
  lc_amount : Q;             (* 成本金额 *)
  lc_month : month_key;      (* 支出月份 *)
  lc_start : date;           (* 开始日期 *)
  lc_end : date              (* 结束日期 *)
}.

(** The body of the loop: the entry appended for the month that starts at
    [current_date]. *)
Definition monthly_entry (r : row) (current_date : date) : MonthlyCost :=
  let month_end := sub_one_day (add_months current_date 1) in
  let month_end :=
    if date_ltb (end_date r) month_end then end_date r else month_end in
  let days_in_month := days_between (add_months current_date 1) current_date in
  let actual_end := date_min month_end (end_date r) in
  let days_for_cost := (days_between actual_end current_date + 1)%Z in
  let monthly_amount :=
    monthly_cost r * (inject_Z days_for_cost / inject_Z days_in_month) in
  {| lc_type := cost_type r; lc_person := person_dept r;
     lc_amount := round2 monthly_amount;
     lc_month := month_of current_date;
     lc_start := start_date r; lc_end := end_date r |}.

(** The [while current_date <= end_date] loop of one record; [None] when
    the fuel is used up before the loop condition fails. *)
Fixpoint while_loop (fuel : nat) (r : row) (current_date : date)
    : option (list MonthlyCost) :=
  if date_leb current_date (end_date r) then
    match fuel with
    | O => None
    | S fuel =>
      match while_loop fuel r (add_months current_date 1) with
      | Some rest => Some (monthly_entry r current_date :: rest)
      | None => None
      end
    end
  else Some [].

(** Turns of the loop a record can need: one per calendar month from the
    month of its start to the month of its end. *)
Definition loop_fuel (r : row) : nat :=
  Z.to_nat (month_index (end_date r) - month_index (start_date r) + 1).

Definition row_costs (r : row) : option (list MonthlyCost) :=
  let current_date := replace_day1 (start_date r) in
  while_loop (loop_fuel r) r current_date.

Fixpoint all_rows (l : list row) : option (list MonthlyCost) :=
  match l with
  | [] => Some []
  | r :: rest =>
      match row_costs r, all_rows rest with
      | Some a, Some b => Some (a ++ b)
      | _, _ => None
      end
  end.

Definition generate_cost_data (data : list row) : option (list MonthlyCost) :=
  match data with
  | [] => Some []
  | _ => all_rows data
  end.

(** The day count that day-weighted proration asks for, in the words of
    the specification: the number of days of the month at position [i] that
    lie inside the closed interval from [start] to [finish]. *)
Definition days_in_range_for_month (start finish : date) (i : Z) : Z :=
  Z.max 0 (Z.min (toordinal finish) (toordinal (first_of_month (i + 1)) - 1)
           - Z.max (toordinal start) (toordinal (first_of_month i)) + 1)%Z.

(** Closed form of [days_for_cost] in the loop turn of the month at position
    [i] (lemma [monthly_entry_amount]): the whole month before the month of
    the end date, the days up to the end date in its month. *)
Definition charged_days (r : row) (i : Z) : Z :=
  if (i <? month_index (end_date r))%Z
  then days_in_month (i / 12) (i mod 12 + 1)
  else day (end_date r).

End LaborCostManager.

(** ** AdminCostManager *)

Module AdminCostManager.
Local Open Scope Q_scope.

Record row := {
  expense_type : string;       (* 费用类型 *)
  expense_item : string;       (* 费用项目 *)
  monthly_cost : Q;            (* 月度成本 *)
  start_date : date;           (* 开始日期 *)
  end_date : date;             (* 结束日期 *)
  payment_frequency : string   (* 付款频率 *)
}.

Record CostEvent := {
  ac_type : string;            (* 费用类型 *)
  ac_item : string;            (* 费用项目 *)
  ac_amount : Q;               (* 月度成本 *)
  ac_month : month_key;        (* 支出月份 *)
  ac_date : date;              (* 支出日期 *)
  ac_frequency : string        (* 付款频率 *)
}.

Definition event (r : row) (amount : Q) (current_date : date) : CostEvent :=
  {| ac_type := expense_type r; ac_item := expense_item r;
     ac_amount := amount; ac_month := month_of current_date;
     ac_date := current_date; ac_frequency := payment_frequency r |}.

(** The [while current_date <= end_date] loop of the monthly ([step] 1) and
    quarterly ([step] 3) branches; [None] when the fuel is used up before
    the loop condition fails. *)
Fixpoint while_loop (fuel : nat) (step : Z) (amount : Q) (r : row)
    (current_date : date) : option (list CostEvent) :=
  if date_leb current_date (end_date r) then
    match fuel with
    | O => None
    | S fuel =>
      match while_loop fuel step amount r (add_months current_date step) with
      | Some rest => Some (event r amount current_date :: rest)
      | None => None
      end
    end
  else Some [].

Definition loop_fuel (r : row) : nat :=
  Z.to_nat (month_index (end_date r) - month_index (start_date r) + 1).

Definition row_events (r : row) : option (list CostEvent) :=
  let monthly_cost := monthly_cost r in
  if String.eqb (payment_frequency r) "月度" then
    let current_date := replace_day1 (start_date r) in
    while_loop (loop_fuel r) 1 (round2 monthly_cost) r current_date
  else if String.eqb (payment_frequency r) "季度" then
    let current_date := replace_day1 (start_date r) in
    while_loop (loop_fuel r) 3 (round2 (monthly_cost * 3)) r current_date
  else if String.eqb (payment_frequency r) "年度" then
    let current_date := replace_day1 (start_date r) in
    Some [event r (round2 (monthly_cost * 12)) current_date]
  else Some [].

Fixpoint all_rows (l : list row) : option (list CostEvent) :=
  match l with
  | [] => Some []
  | r :: rest =>
      match row_events r, all_rows rest with
      | Some a, Some b => Some (a ++ b)
      | _, _ => None
      end
  end.

Definition generate_cost_data (data : list row) : option (list CostEvent) :=
  match data with
  | [] => Some []
  | _ => all_rows data
  end.

End AdminCostManager.

(** ** Monthly series and the tables built from them *)

(** A one-off entry of the occasional income or expense frame. *)
Record OccasionalEntry := {
  oe_label : string;
  oe_amount : Q;       (* 收入金额 / 支出金额 *)
  oe_date : date       (* 收入日期 / 支出日期 *)
}.

(** Chronological order of month keys, the order of the timestamps that
    [pd.to_datetime] parses them to (and, on zero-padded keys, of the keys
    as strings). *)
Definition month_le (a b : month_key) : Prop :=
  a.1 < b.1 \/ (a.1 = b.1 /\ a.2 <= b.2).

Definition month_lt (a b : month_key) : Prop :=
  a.1 < b.1 \/ (a.1 = b.1 /\ a.2 < b.2).

#[global] Instance month_le_dec : RelDecision month_le.
Proof. intros a b. unfold month_le. apply _. Defined.

(** [frame.groupby(key)[column].sum()]: one amount per month key. *)
Definition groupby_sum {A : Type} (key : A -> month_key) (val : A -> Q)
    (l : list A) : gmap month_key Q :=
  foldl (fun m a => <[key a := (default 0 (m !! key a) + val a)%Q]> m) ∅ l.

(** [if not frame.empty: all_months.update(frame[month column])]. *)
Definition update_months (all_months : gset month_key)
    (s : gmap month_key Q) : gset month_key :=
  if decide (s = ∅) then all_months else all_months ∪ dom s.

(** The column a left merge on the month gives at month [k]: the amount of
    the series, NaN ([None]) where the series has no such month. *)
Definition merge_left (s : gmap month_key Q) (k : month_key) : option Q := s !! k.

(** [if not frame.empty: merge(..., how='left') else: column = 0]. *)
Definition merge_or_zero (s : gmap month_key Q) (k : month_key) : option Q :=
  if decide (s = ∅) then Some 0%Q else merge_left s k.

(** [fillna(0)] on one cell. *)
Definition fillna (c : option Q) : Q := default 0%Q c.

(** ** Budget roll-up (page 全面预算汇总) *)

Module Budget.
Local Open Scope Q_scope.

(** The six grouped frames the roll-up joins. *)
Record series := {
  income_summary : gmap month_key Q;              (* 纠偏后收入 by 月份 *)
  material_summary : gmap month_key Q;            (* 物料成本 by 支出月份 *)
  labor_summary : gmap month_key Q;               (* 成本金额 by 支出月份 *)
  admin_summary : gmap month_key Q;               (* 月度成本 by 支出月份 *)
  occasional_income_monthly : gmap month_key Q;   (* 偶然收入 by 月份 *)
  occasional_expense_monthly : gmap month_key Q   (* 偶然支出 by 月份 *)
}.

Record row := {
  month : month_key;         (* 月份 *)
  revenue : Q;               (* 纠偏后收入 *)
  material_cost : Q;         (* 物料成本 *)
  labor_cost : Q;            (* 成本金额 *)
  admin_cost : Q;            (* 月度成本 *)
  occasional_income : Q;     (* 偶然收入 *)
  occasional_expense : Q;    (* 偶然支出 *)
  total_revenue : Q;         (* 总收入 *)
  total_expense : Q;         (* 总支出 *)
  gross_profit : Q;          (* 毛利润 *)
  gross_margin : Q           (* 毛利率 *)
}.

Definition all_months (s : series) : gset month_key :=
  update_months
    (update_months
      (update_months
        (update_months
          (update_months
            (update_months ∅ (income_summary s))
            (material_summary s))
          (labor_summary s))
        (admin_summary s))
      (occasional_income_monthly s))
    (occasional_expense_monthly s).

(** [sorted(list(all_months))]. *)
Definition months_list (s : series) : list month_key :=
  merge_sort month_le (elements (all_months s)).

(** The row of month [k] after the six merges, [fillna(0)] and the derived
    columns. *)
Definition make_row (s : series) (k : month_key) : row :=
  let revenue := fillna (merge_or_zero (income_summary s) k) in
  let material_cost := fillna (merge_or_zero (material_summary s) k) in
  let labor_cost := fillna (merge_or_zero (labor_summary s) k) in
  let admin_cost := fillna (merge_or_zero (admin_summary s) k) in
  let occasional_income := fillna (merge_or_zero (occasional_income_monthly s) k) in
  let occasional_expense := fillna (merge_or_zero (occasional_expense_monthly s) k) in
  let total_revenue := revenue + occasional_income in
  let total_expense := material_cost + labor_cost + admin_cost + occasional_expense in
  let gross_profit := total_revenue - total_expense in
  let gross_margin :=
    if Qgtb total_revenue 0 then gross_profit / total_revenue * 100 else 0 in
  {| month := k; revenue := revenue; material_cost := material_cost;
     labor_cost := labor_cost; admin_cost := admin_cost;
     occasional_income := occasional_income;
     occasional_expense := occasional_expense;
     total_revenue := total_revenue; total_expense := total_expense;
     gross_profit := gross_profit; gross_margin := gross_margin |}.

(** Order of the rows by the timestamp of their month, 月份_dt. *)
Definition row_le (a b : row) : Prop := month_le (month a) (month b).

#[global] Instance row_le_dec : RelDecision row_le.
Proof. intros a b. unfold row_le. apply _. Defined.

(** The table [budget_summary] once sorted by 月份_dt. *)
Definition budget_summary (s : series) : list row :=
  merge_sort row_le (map (make_row s) (months_list s)).

End Budget.

(** ** Runway projection (page 现金流分析) *)

Module Runway.
Local Open Scope Q_scope.

(** The frames the page groups and joins. *)
Record series := {
  monthly_income : gmap month_key Q;      (* 金额 by 支付月份 *)
  material_monthly : gmap month_key Q;    (* 物料成本 by 支出月份 *)
  labor_monthly : gmap month_key Q;       (* 成本金额 by 支出月份 *)
  admin_monthly : gmap month_key Q;       (* 月度成本 by 支出月份 *)
  occasional_income_monthly : gmap month_key Q;
  occasional_expense_monthly : gmap month_key Q
}.

Record row := {
  month : month_key;         (* 月份 *)
  income : Q;                (* 收入 *)
  material_cost : Q;         (* 物料成本 *)
  labor_cost : Q;            (* 人工成本 *)
  admin_cost : Q;            (* 行政成本 *)
  occasional_income : Q;     (* 偶然收入 *)
  occasional_expense : Q;    (* 偶然支出 *)
  net_cash_flow : Q          (* 净现金流 *)
}.

Definition all_months (s : series) : gset month_key :=
  update_months
    (update_months
      (update_months
        (update_months
          (update_months
            (update_months ∅ (monthly_income s))
            (material_monthly s))
          (labor_monthly s))
        (admin_monthly s))
      (occasional_income_monthly s))
    (occasional_expense_monthly s).

Definition months_list (s : series) : list month_key :=
  merge_sort month_le (elements (all_months s)).

(** One row of [monthly_summary] with its 净现金流. *)
Definition make_row (s : series) (k : month_key) : row :=
  let income := fillna (merge_left (monthly_income s) k) in
  let material_cost := fillna (merge_or_zero (material_monthly s) k) in
  let labor_cost := fillna (merge_or_zero (labor_monthly s) k) in
  let admin_cost := fillna (merge_or_zero (admin_monthly s) k) in
  let occasional_income := fillna (merge_or_zero (occasional_income_monthly s) k) in
  let occasional_expense := fillna (merge_or_zero (occasional_expense_monthly s) k) in
  {| month := k; income := income; material_cost := material_cost;
     labor_cost := labor_cost; admin_cost := admin_cost;
     occasional_income := occasional_income;
     occasional_expense := occasional_expense;
     net_cash_flow :=
       income + occasional_income
       - (material_cost + labor_cost + admin_cost + occasional_expense) |}.

Definition monthly_summary (s : series) : list row :=
  map (make_row s) (months_list s).

#[global] Instance Q_inhabited : Inhabited Q := populate 0.

(** One turn of [for i in range(len(monthly_summary))] on the column
    累计现金余额. *)
Definition balance_step (current_cash_balance : Q) (net : list Q)
    (balance : list Q) (i : nat) : list Q :=
  match i with
  | O => <[i := current_cash_balance + net !!! i]> balance
  | S j => <[i := balance !!! j + net !!! i]> balance
  end.

(** The column 累计现金余额: set to the current balance in every row, then
    filled row by row. *)
Definition cumulative_balance (current_cash_balance : Q) (net : list Q) : list Q :=
  foldl (balance_step current_cash_balance net)
        (replicate (length net) current_cash_balance)
        (seq 0 (length net)).

(** The recurrence the column is meant to satisfy, as the specification
    words it: [balance[0] = B0 + net[0]], [balance[i] = balance[i-1] + net[i]]. *)
Fixpoint balance_recurrence (previous : Q) (net : list Q) : list Q :=
  match net with
  | [] => []
  | f :: rest => (previous + f) :: balance_recurrence (previous + f) rest
  end.

(** The loop that counts rows until the first balance [<= 0]. *)
Fixpoint runway_months (balance : list Q) : nat :=
  match balance with
  | [] => 0
  | b :: rest => if Qle_bool b 0 then 0%nat else S (runway_months rest)
  end.

Record projection := {
  table : list row;
  balances : list Q;       (* 累计现金余额 *)
  runway : nat             (* runway_months *)
}.

Definition project (current_cash_balance : Q) (s : series) : projection :=
  let summary := monthly_summary s in
  let balance := cumulative_balance current_cash_balance (map net_cash_flow summary) in
  {| table := summary; balances := balance; runway := runway_months balance |}.

End Runway.

(** ** The session and the two pages that join the generators *)

Record session_state := {
  income : IncomeManager.t;                       (* data_manager['income'] *)
  labor : list LaborCostManager.row;              (* data_manager['labor'].data *)
  admin : list AdminCostManager.row;              (* data_manager['admin'].data *)
  occasional_income : list OccasionalEntry;
  occasional_expense : list OccasionalEntry;
  current_cash_balance : Q
}.

(** The balance of a session that finds no saved [cash_balance.json]. *)
Definition default_cash_balance : Q := 0%Q.

(** What a page section ends up showing: its tables, or only a notice
    ([st.info]). *)
Inductive page (A : Type) : Type :=
  | Shown (a : A)
  | Notice (text : string).
Arguments Shown {A} a.
Arguments Notice {A} text.

(** The grouped frames of the runway analysis. [None] only if a cost
    generator runs out of fuel. *)
Definition runway_series (st : session_state) : option Runway.series :=
  let cash_flow_df := fst (IncomeManager.generate_cash_flow_data (income st)) in
  let material_df := IncomeManager.generate_material_cost_data (income st) in
  match LaborCostManager.generate_cost_data (labor st),
        AdminCostManager.generate_cost_data (admin st) with
  | Some labor_df, Some admin_df =>
      Some {| Runway.monthly_income :=
                groupby_sum IncomeManager.cf_month IncomeManager.cf_amount cash_flow_df;
              Runway.material_monthly :=
                groupby_sum IncomeManager.mc_month IncomeManager.mc_cost material_df;
              Runway.labor_monthly :=
                groupby_sum LaborCostManager.lc_month LaborCostManager.lc_amount labor_df;
              Runway.admin_monthly :=
                groupby_sum AdminCostManager.ac_month AdminCostManager.ac_amount admin_df;
              Runway.occasional_income_monthly :=
                groupby_sum (fun e => month_of (oe_date e)) oe_amount (occasional_income st);
              Runway.occasional_expense_monthly :=
                groupby_sum (fun e => month_of (oe_date e)) oe_amount (occasional_expense st) |}
  | _, _ => None
  end.

(** The section "Runway分析" of the cash-flow page. *)
Definition runway_analysis (st : session_state) : option (page Runway.projection) :=
  if Qgtb (current_cash_balance st) 0 then
    match runway_series st with
    | Some s => Some (Shown (Runway.project (current_cash_balance st) s))
    | None => None
    end
  else Some (Notice "请在系统配置中设置当前现金余额以进行Runway分析。").

(** The grouped frames of the budget page. *)
Definition budget_series (st : session_state) : option Budget.series :=
  let projects := IncomeManager.rows (IncomeManager.data (income st)) in
  let material_monthly := IncomeManager.generate_material_cost_data (income st) in
  match LaborCostManager.generate_cost_data (labor st),
        AdminCostManager.generate_cost_data (admin st) with
  | Some labor_monthly, Some admin_monthly =>
      Some {| Budget.income_summary :=
                groupby_sum (fun p => month_of (IncomeManager.delivery_date p))
                            IncomeManager.corrected_revenue projects;
              Budget.material_summary :=
                groupby_sum IncomeManager.mc_month IncomeManager.mc_cost material_monthly;
              Budget.labor_summary :=
                groupby_sum LaborCostManager.lc_month LaborCostManager.lc_amount labor_monthly;
              Budget.admin_summary :=
                groupby_sum AdminCostManager.ac_month AdminCostManager.ac_amount admin_monthly;
              Budget.occasional_income_monthly :=
                groupby_sum (fun e => month_of (oe_date e)) oe_amount (occasional_income st);
              Budget.occasional_expense_monthly :=
                groupby_sum (fun e => month_of (oe_date e)) oe_amount (occasional_expense st) |}
  | _, _ => None
  end.

(** The page "全面预算汇总". *)
Definition budget_page (st : session_state) : option (page (list Budget.row)) :=
  match IncomeManager.rows (IncomeManager.data (income st)) with
  | [] => Some (Notice "暂无收入数据。请先添加收入预算项目以生成全面预算汇总表。")
  | _ =>
      match budget_series st with
      | Some s => Some (Shown (Budget.budget_summary s))
      | None => None
      end
  end.

(** The page "现金流分析" down to its runway section. *)
Definition cash_flow_page (st : session_state) : option (page Runway.projection) :=
  match IncomeManager.rows (IncomeManager.data (income st)) with
  | [] => Some (Notice "暂无项目数据。请先添加收入预算项目以进行现金流分析。")
  | _ =>
      match fst (IncomeManager.generate_cash_flow_data (income st)) with
      | [] => Some (Notice "暂无现金流数据，需要先添加收入预算项目。")
      | _ => runway_analysis st
      end
  end.

(** ** Records used as concrete inputs *)

Module Examples.
Local Open Scope Q_scope.

(** A quarterly administrative cost: monthly cost 3 from 2025-01-01 to
    2025-12-31. *)
Definition quarterly_admin : AdminCostManager.row :=
  {| AdminCostManager.expense_type := "办公用品";
     AdminCostManager.expense_item := "办公用品采购";
     AdminCostManager.monthly_cost := 3;
     AdminCostManager.start_date := mkdate 2025 1 1;
     AdminCostManager.end_date := mkdate 2025 12 31;
     AdminCostManager.payment_frequency := "季度" |}.

(** An administrative cost with three decimals: monthly cost 1.234 for the
    single month 2025-01, at a given payment frequency. *)
Definition three_decimals_admin (frequency : string) : AdminCostManager.row :=
  {| AdminCostManager.expense_type := "水电费用";
     AdminCostManager.expense_item := "水电费";
     AdminCostManager.monthly_cost := 1.234;
     AdminCostManager.start_date := mkdate 2025 1 1;
     AdminCostManager.end_date := mkdate 2025 1 31;
     AdminCostManager.payment_frequency := frequency |}.

(** A labor cost that starts and ends inside a month: monthly cost 30 from
    2025-01-15 to 2025-03-10. *)
Definition partial_months_labor : LaborCostManager.row :=
  {| LaborCostManager.cost_type := "研发费用";
     LaborCostManager.person_dept := "研发团队";
     LaborCostManager.monthly_cost := 30;
     LaborCostManager.start_date := mkdate 2025 1 15;
     LaborCostManager.end_date := mkdate 2025 3 10 |}.

(** A project whose payments do not fall on whole cents: corrected revenue
    10.01 paid 33% / 33% / 34%, delivered on 2026-03-15. *)
Definition odd_cents_project : IncomeManager.Project :=
  {| IncomeManager.project_name := "示例项目1";
     IncomeManager.delivery_date := mkdate 2026 3 15;
     IncomeManager.business_line := "光谱设备/服务";
     IncomeManager.contract_amount := 100;
     IncomeManager.corrected_revenue := 10.01;
     IncomeManager.first_payment_ratio := Some 33;
     IncomeManager.second_payment_ratio := Some 33;
     IncomeManager.final_payment_ratio := Some 34 |}.

(** The manager of a session that holds this one project. *)
Definition one_project_manager : IncomeManager.t :=
  IncomeManager.init (IncomeManager.new_frame [odd_cents_project]) None.

(** A session with the project, the two cost records, no occasional entry
    and a given cash balance. *)
Definition session (balance : Q) : session_state :=
  {| income := one_project_manager;
     labor := [partial_months_labor];
     admin := [quarterly_admin];
     occasional_income := [];
     occasional_expense := [];
     current_cash_balance := balance |}.

End Examples.


(** ** Column totals and the tables of the other pages *)

(** [column.sum()] on exact amounts. *)
Definition Qsum (l : list Q) : Q := fold_right Qplus 0%Q l.

(** The total of a grouped frame's amount column. *)
Definition series_total (m : gmap month_key Q) : Q :=
  Qsum (map snd (map_to_list m)).

Module BudgetStatistics.
Local Open Scope Q_scope.

(** The figures under "预算汇总统计" of the budget page. *)
Record statistics := {
  total_income : Q;               (* 总收入 *)
  total_material : Q;             (* 物料成本 *)
  total_labor : Q;                (* 人工成本 *)
  total_admin : Q;                (* 行政费用 *)
  total_occasional_income : Q;    (* 偶然收入 *)
  total_occasional_expense : Q;   (* 偶然支出 *)
  total_expense : Q;              (* 总支出 *)
  total_profit : Q;               (* 毛利润 *)
  avg_margin : Q                  (* 平均毛利率 *)
}.

Definition summary_statistics (budget_summary : list Budget.row) : statistics :=
  let total_income := Qsum (map Budget.total_revenue budget_summary) in
  let total_material := Qsum (map Budget.material_cost budget_summary) in
  let total_labor := Qsum (map Budget.labor_cost budget_summary) in
  let total_admin := Qsum (map Budget.admin_cost budget_summary) in
  let total_occasional_income := Qsum (map Budget.occasional_income budget_summary) in
  let total_occasional_expense := Qsum (map Budget.occasional_expense budget_summary) in
  let total_expense := Qsum (map Budget.total_expense budget_summary) in
  let total_profit := Qsum (map Budget.gross_profit budget_summary) in
  let avg_margin :=
    if Qgtb total_income 0 then total_profit / total_income * 100 else 0 in
  {| total_income := total_income; total_material := total_material;
     total_labor := total_labor; total_admin := total_admin;
     total_occasional_income := total_occasional_income;
     total_occasional_expense := total_occasional_expense;
     total_expense := total_expense; total_profit := total_profit;
     avg_margin := avg_margin |}.

End BudgetStatistics.

(** The roll-up behind the charts ([create_visualization_charts] and
    [create_executive_dashboard_charts]): the budget roll-up without the two
    occasional series. *)
Module Charts.
Local Open Scope Q_scope.

Record series := {
  income_summary : gmap month_key Q;      (* 纠偏后收入 by 月份 *)
  material_summary : gmap month_key Q;    (* 物料成本 by 支出月份 *)
  labor_summary : gmap month_key Q;       (* 成本金额 by 支出月份 *)
  admin_summary : gmap month_key Q        (* 月度成本 by 支出月份 *)
}.

Record row := {
  month : month_key;         (* 月份 *)
  revenue : Q;               (* 纠偏后收入 *)
  material_cost : Q;         (* 物料成本 *)
  labor_cost : Q;            (* 成本金额 *)
  admin_cost : Q;            (* 月度成本 *)
  total_revenue : Q;         (* 总收入 *)
  total_expense : Q;         (* 总支出 *)
  gross_profit : Q;          (* 毛利润 *)
  gross_margin : Q           (* 毛利率 *)
}.

Definition all_months (s : series) : gset month_key :=
  update_months
    (update_months
      (update_months
        (update_months ∅ (income_summary s))
        (material_summary s))
      (labor_summary s))
    (admin_summary s).

Definition months_list (s : series) : list month_key :=
  merge_sort month_le (elements (all_months s)).

Definition make_row (s : series) (k : month_key) : row :=
  let revenue := fillna (merge_or_zero (income_summary s) k) in
  let material_cost := fillna (merge_or_zero (material_summary s) k) in
  let labor_cost := fillna (merge_or_zero (labor_summary s) k) in
  let admin_cost := fillna (merge_or_zero (admin_summary s) k) in
  let total_revenue := revenue in
  let total_expense := material_cost + labor_cost + admin_cost in
  let gross_profit := total_revenue - total_expense in
  let gross_margin :=
    if Qgtb total_revenue 0 then gross_profit / total_revenue * 100 else 0 in
  {| month := k; revenue := revenue; material_cost := material_cost;
     labor_cost := labor_cost; admin_cost := admin_cost;
     total_revenue := total_revenue; total_expense := total_expense;
     gross_profit := gross_profit; gross_margin := gross_margin |}.

Definition row_le (a b : row) : Prop := month_le (month a) (month b).

#[global] Instance row_le_dec : RelDecision row_le.
Proof. intros a b. unfold row_le. apply _. Defined.

Definition budget_summary (s : series) : list row :=
  merge_sort row_le (map (make_row s) (months_list s)).

(** The series the charts read of a budget series. *)
Definition of_budget (s : Budget.series) : series :=
  {| income_summary := Budget.income_summary s;
     material_summary := Budget.material_summary s;
     labor_summary := Budget.labor_summary s;
     admin_summary := Budget.admin_summary s |}.

End Charts.

(** How a row of the charts agrees with a row of the budget page. *)
Definition same_figures (c : Charts.row) (b : Budget.row) : Prop :=
  Charts.month c = Budget.month b
  /\ Charts.revenue c = Budget.revenue b
  /\ Charts.material_cost c = Budget.material_cost b
  /\ Charts.labor_cost c = Budget.labor_cost b
  /\ Charts.admin_cost c = Budget.admin_cost b
  /\ (Charts.total_revenue c == Budget.total_revenue b)%Q
  /\ (Charts.total_expense c == Budget.total_expense b)%Q
  /\ (Charts.gross_profit c == Budget.gross_profit b)%Q
  /\ (Charts.gross_margin c == Budget.gross_margin b)%Q.

(** ** The stored project frame and the page 收入预测 *)

Module ProjectStore.
Import IncomeManager.
Local Open Scope Q_scope.

(** A row of the stored income frame: its ID, the columns the generators
    read, 交付月份 and 月份数. The columns derived from [math.exp]
    (时间衰减因子, 调整后成单率, 预期收入) and the close rate are left out
    of the row. The frames of this module have the column ID.

    The stored frame of a session has the three ratio columns
    ([has_ratio_columns]): the session loads it through
    [ensure_columns_compatibility], the form writes the three ratios of the
    row it adds, and the import ensures the columns of the rows it adds. The
    buttons below are modelled on such frames; on a frame without a ratio
    column pandas would leave empty cells, which a row of this type does not
    hold. *)
Record entry := {
  ID : string;                (* ID *)
  fields : Project;
  delivery_month : month_key; (* 交付月份 *)
  month_count : Z             (* 月份数 *)
}.

Definition with_fields (e : entry) (p : Project) : entry :=
  {| ID := ID e; fields := p; delivery_month := delivery_month e;
     month_count := month_count e |}.

(** [col in df.columns]: a ratio column is in the frame when a row holds a
    value for it; a frame whose rows all read the ratio through the default
    of [project.get] has no such column. *)
Definition has_column (col : Project -> option Q) (df : list entry) : bool :=
  existsb (fun e => bool_decide (is_Some (col (fields e)))) df.

Definition set_first_payment_ratio (v : Q) (e : entry) : entry :=
  let p := fields e in
  with_fields e
    {| project_name := project_name p; delivery_date := delivery_date p;
       business_line := business_line p; contract_amount := contract_amount p;
       corrected_revenue := corrected_revenue p;
       first_payment_ratio := Some v;
       second_payment_ratio := second_payment_ratio p;
       final_payment_ratio := final_payment_ratio p |}.

Definition set_second_payment_ratio (v : Q) (e : entry) : entry :=
  let p := fields e in
  with_fields e
    {| project_name := project_name p; delivery_date := delivery_date p;
       business_line := business_line p; contract_amount := contract_amount p;
       corrected_revenue := corrected_revenue p;
       first_payment_ratio := first_payment_ratio p;
       second_payment_ratio := Some v;
       final_payment_ratio := final_payment_ratio p |}.

Definition set_final_payment_ratio (v : Q) (e : entry) : entry :=
  let p := fields e in
  with_fields e
    {| project_name := project_name p; delivery_date := delivery_date p;
       business_line := business_line p; contract_amount := contract_amount p;
       corrected_revenue := corrected_revenue p;
       first_payment_ratio := first_payment_ratio p;
       second_payment_ratio := second_payment_ratio p;
       final_payment_ratio := Some v |}.

(** A frame of pandas has a column in all of its rows or in none. *)
Definition whole_column (col : Project -> option Q) (df : list entry) : Prop :=
  Forall (fun e => is_Some (col (fields e))) df
  \/ Forall (fun e => col (fields e) = None) df.

Definition whole_columns (df : list entry) : Prop :=
  whole_column first_payment_ratio df
  /\ whole_column second_payment_ratio df
  /\ whole_column final_payment_ratio df.

(** The frame has the three ratio columns. *)
Definition has_ratio_columns (df : list entry) : Prop :=
  Forall (fun e => is_Some (first_payment_ratio (fields e))
                   /\ is_Some (second_payment_ratio (fields e))
                   /\ is_Some (final_payment_ratio (fields e))) df.

(** [DataManager.ensure_columns_compatibility]: each of the three ratio
    columns that the frame lacks is added with its default in every row. *)
Definition ensure_columns_compatibility (df : list entry) : list entry :=
  let df := if has_column first_payment_ratio df then df
            else map (set_first_payment_ratio 50) df in
  let df := if has_column second_payment_ratio df then df
            else map (set_second_payment_ratio 40) df in
  let df := if has_column final_payment_ratio df then df
            else map (set_final_payment_ratio 10) df in
  df.

(** The widgets of "新增销售项目" that end up in the stored row. *)
Record form := {
  form_project_name : string;          (* 项目名称 *)
  form_delivery_date : date;           (* 预计交付日期 *)
  form_contract_amount : Q;            (* 合同金额 *)
  form_business_line : string;         (* 业务线 *)
  manual_adjusted_income : Q;          (* 纠偏后收入 *)
  form_first_payment_ratio : Z;        (* 首付款比例 *)
  form_second_payment_ratio : Z;       (* 次付款比例 *)
  form_final_payment_ratio : Z         (* 质保金比例 *)
}.

(** What a button leaves behind: an error on the page and the stored frame
    as it was, or the new stored frame. *)
Inductive outcome : Type :=
  | Rejected (error : string)
  | Saved (data : list entry).

(** The dict [new_project]; [new_id] stands for [str(uuid.uuid4())]. *)
Definition new_project (new_id : string) (f : form) : entry :=
  let delivery_date := form_delivery_date f in
  let month_diff := RevenueModel.month_diff delivery_date in
  {| ID := new_id;
     fields :=
       {| project_name := form_project_name f;
          delivery_date := delivery_date;
          business_line := form_business_line f;
          contract_amount := round2 (form_contract_amount f);
          corrected_revenue := round2 (manual_adjusted_income f);
          first_payment_ratio := Some (inject_Z (form_first_payment_ratio f));
          second_payment_ratio := Some (inject_Z (form_second_payment_ratio f));
          final_payment_ratio := Some (inject_Z (form_final_payment_ratio f)) |};
     delivery_month := month_of delivery_date;
     month_count := month_diff |}.

(** The button "计算并添加项目". *)
Definition add_project (new_id : string) (f : form) (data : list entry) : outcome :=
  let total_ratio :=
    (form_first_payment_ratio f + form_second_payment_ratio f
     + form_final_payment_ratio f)%Z in
  if String.eqb (form_project_name f) "" then Rejected "项目名称不能为空"
  else if negb (total_ratio =? 100)%Z then Rejected "付款比例总和必须为100%"
  else
    Saved (match data with
           | [] => [new_project new_id f]
           | _ => data ++ [new_project new_id f]
           end).

(** The delete button of "项目信息编辑":
    [full_data[~full_data['ID'].isin(ids_to_delete)].reset_index(drop=True)],
    where [full_data] is the stored frame with its ratio columns ensured. *)
Definition delete_projects (ids_to_delete : list string) (data : list entry)
    : list entry :=
  let full_data := ensure_columns_compatibility data in
  filter (fun e => ID e ∉ ids_to_delete) full_data.

(** A row of the edited table, with the columns the update loop reads. *)
Record edited_row := {
  ed_ID : string;                 (* ID *)
  ed_corrected_revenue : Q;       (* 纠偏后收入 *)
  ed_first_payment_ratio : Q;     (* 首付款比例 *)
  ed_second_payment_ratio : Q;    (* 次付款比例 *)
  ed_final_payment_ratio : Q      (* 质保金比例 *)
}.

(** The four assignments [income_data.loc[idx, column] = ...]. *)
Definition assign_edited (row : edited_row) (e : entry) : entry :=
  let p := fields e in
  with_fields e
    {| project_name := project_name p; delivery_date := delivery_date p;
       business_line := business_line p; contract_amount := contract_amount p;
       corrected_revenue := round2 (ed_corrected_revenue row);
       first_payment_ratio := Some (ed_first_payment_ratio row);
       second_payment_ratio := Some (ed_second_payment_ratio row);
       final_payment_ratio := Some (ed_final_payment_ratio row) |}.

(** One turn of [for _, row in edited_no_del.iterrows()]: the first stored
    row with the ID of the edited row, if any, takes its four values. *)
Definition update_row (income_data : list entry) (row : edited_row) : list entry :=
  match list_find (fun e => ID e = ed_ID row) income_data with
  | Some (idx, e) => <[idx := assign_edited row e]> income_data
  | None => income_data
  end.

(** The update by ID of an edited table. *)
Definition update_projects (income_data : list entry)
    (edited_no_del : list edited_row) : list entry :=
  foldl update_row income_data edited_no_del.

(** The ratios of a stored row, as the generators read them, sum to 100. *)
Definition ratios_sum_to_100 (e : entry) : Prop :=
  get (first_payment_ratio (fields e)) 50
  + get (second_payment_ratio (fields e)) 40
  + get (final_payment_ratio (fields e)) 10 == 100.

(** Two rows that the generators cannot tell apart. *)
Definition same_reading (p p' : Project) : Prop :=
  project_name p = project_name p'
  /\ delivery_date p = delivery_date p'
  /\ business_line p = business_line p'
  /\ contract_amount p = contract_amount p'
  /\ corrected_revenue p = corrected_revenue p'
  /\ get (first_payment_ratio p) 50 = get (first_payment_ratio p') 50
  /\ get (second_payment_ratio p) 40 = get (second_payment_ratio p') 40
  /\ get (final_payment_ratio p) 10 = get (final_payment_ratio p') 10.

(** How two frames are related when one is the other with ratio columns
    added: row by row the same ID, month columns, and readings. *)
Definition same_rows (df df' : list entry) : Prop :=
  Forall2 (fun e e' => ID e = ID e' /\ delivery_month e = delivery_month e'
                       /\ month_count e = month_count e'
                       /\ same_reading (fields e) (fields e')) df df'.

End ProjectStore.

(** ** The quarterly rows of [IncomeManager.generate_summary] *)

Module Summary.
Import IncomeManager.
Local Open Scope Q_scope.

(** [round(x, 1)]. *)
Definition round1 (q : Q) : Q := inject_Z (round_half_even (q * 10)) / 10.

(** The label 季度 of a project, [year-Qn], as the pair of its year and
    quarter; the labels of four-digit years sort as strings the way the
    pairs sort chronologically. *)
Definition quarter_label_of (p : Project) : month_key :=
  (year (delivery_date p), quarter_of (delivery_date p)).

(** [column.cumsum()]. *)
Fixpoint cumsum_from (acc : Q) (l : list Q) : list Q :=
  match l with
  | [] => []
  | x :: rest => (acc + x) :: cumsum_from (acc + x) rest
  end.

Definition cumsum (l : list Q) : list Q := cumsum_from 0 l.

(** A row of the frame [quarterly], without the mean of the stored decay
    factors (平均衰减). *)
Record quarterly_row := {
  quarter : month_key;         (* 季度 *)
  amount : Q;                  (* 金额 *)
  project_count : nat;         (* 项目数 *)
  contract_total : Q;          (* 合同总额 *)
  cumulative_amount : Q;       (* 累计金额 *)
  cumulative_share : Q         (* 累计占比 *)
}.

(** The frame [quarterly] with its cumulative columns. *)
Definition quarterly (data : list Project) : list quarterly_row :=
  let amounts := groupby_sum quarter_label_of corrected_revenue data in
  let contracts := groupby_sum quarter_label_of contract_amount data in
  let quarters := merge_sort month_le (elements (dom amounts)) in
  let amount_column := map (fun k => default 0 (amounts !! k)) quarters in
  let total := Qsum amount_column in
  map (fun kc : month_key * Q =>
         {| quarter := kc.1;
            amount := default 0 (amounts !! kc.1);
            project_count := length (filter (fun p => quarter_label_of p = kc.1) data);
            contract_total := default 0 (contracts !! kc.1);
            cumulative_amount := kc.2;
            cumulative_share :=
              if Qgtb total 0 then kc.2 / total * 100 else 0 |})
      (zip quarters (cumsum amount_column)).

(** A row of category 季度收入 of the summary table. *)
Record summary_row := {
  item : month_key;            (* 项目 *)
  summary_amount : Q;          (* 金额 *)
  summary_count : nat;         (* 项目数 *)
  summary_share : Q;           (* 累计占比 *)
  summary_contract : Q         (* 合同总额 *)
}.

(** The rows that the loop over [quarterly] appends to [summary_data]; none
    for a frame without rows, for which [generate_summary] returns an empty
    table. *)
Definition quarterly_rows (data : list Project) : list summary_row :=
  match data with
  | [] => []
  | _ =>
    map (fun r => {| item := quarter r;
                     summary_amount := round2 (amount r);
                     summary_count := project_count r;
                     summary_share := round1 (cumulative_share r);
                     summary_contract := round2 (contract_total r) |})
        (quarterly data)
  end.

End Summary.

(** ** Further records used as concrete inputs *)

Module Samples.
Local Open Scope Q_scope.

(** Grouped frames without occasional entries: revenue of 10.01 in 2026-03,
    material cost of 3 in 2026-02, labor cost of 30 in 2025-01. *)
Definition plain_series : Budget.series :=
  {| Budget.income_summary := {[ (2026, 3)%Z := 10.01 ]};
     Budget.material_summary := {[ (2026, 2)%Z := 3 ]};
     Budget.labor_summary := {[ (2025, 1)%Z := 30 ]};
     Budget.admin_summary := ∅;
     Budget.occasional_income_monthly := ∅;
     Budget.occasional_expense_monthly := ∅ |}.

(** A stored frame of two projects. *)
Definition stored_projects : list ProjectStore.entry :=
  [ {| ProjectStore.ID := "p-1";
       ProjectStore.fields := Examples.odd_cents_project;
       ProjectStore.delivery_month := (2026, 3)%Z;
       ProjectStore.month_count := 3 |};
    {| ProjectStore.ID := "p-2";
       ProjectStore.fields :=
         {| IncomeManager.project_name := "示例项目2";
            IncomeManager.delivery_date := mkdate 2026 6 30;
            IncomeManager.business_line := "配液设备";
            IncomeManager.contract_amount := 200;
            IncomeManager.corrected_revenue := 80;
            IncomeManager.first_payment_ratio := Some 50;
            IncomeManager.second_payment_ratio := Some 40;
            IncomeManager.final_payment_ratio := Some 10 |};
       ProjectStore.delivery_month := (2026, 6)%Z;
       ProjectStore.month_count := 6 |} ].

(** An edited table that changes the second project. *)
Definition edited_table : list ProjectStore.edited_row :=
  [ {| ProjectStore.ed_ID := "p-2";
       ProjectStore.ed_corrected_revenue := 75.126;
       ProjectStore.ed_first_payment_ratio := 30;
       ProjectStore.ed_second_payment_ratio := 30;
       ProjectStore.ed_final_payment_ratio := 30 |} ].

(** The form filled in for a third project. *)
Definition filled_form : ProjectStore.form :=
  {| ProjectStore.form_project_name := "示例项目3";
     ProjectStore.form_delivery_date := mkdate 2026 9 1;
     ProjectStore.form_contract_amount := 100;
     ProjectStore.form_business_line := "自动化项目";
     ProjectStore.manual_adjusted_income := 37.655;
     ProjectStore.form_first_payment_ratio := 60;
     ProjectStore.form_second_payment_ratio := 30;
     ProjectStore.form_final_payment_ratio := 10 |}.

(** A project whose stored ratios sum to 90: corrected revenue 100 paid
    30% / 30% / 30%. *)
Definition short_ratios_project : IncomeManager.Project :=
  {| IncomeManager.project_name := "示例项目4";
     IncomeManager.delivery_date := mkdate 2026 4 10;
     IncomeManager.business_line := "其他";
     IncomeManager.contract_amount := 250;
     IncomeManager.corrected_revenue := 100;
     IncomeManager.first_payment_ratio := Some 30;
     IncomeManager.second_payment_ratio := Some 30;
     IncomeManager.final_payment_ratio := Some 30 |}.

(** Net cash flows of three months that dip below the opening balance, and
    of three months that never do. *)
Definition dipping_flows : list Q := [5; -20; 3].
Definition steady_flows : list Q := [1; 0; 2].

End Samples.
(** * Properties *)

(** ** Rounding *)

Section Rounding.
Local Open Scope Q_scope.

Lemma Qgtb_lt (a b : Q) : Qgtb a b = true <-> b < a.
Proof.
  unfold Qgtb. rewrite negb_true_iff. split.
  - intros H. apply Qnot_le_lt. intros Hle.
    apply Qle_bool_iff in Hle. congruence.
  - intros H. destruct (Qle_bool a b) eqn:E; [|reflexivity].
    apply Qle_bool_iff in E. exfalso. exact (Qlt_not_le _ _ H E).
Qed.

Lemma round_half_even_comp (q q' : Q) :
  q == q' -> round_half_even q = round_half_even q'.
Proof.
  intros H. unfold round_half_even.
  rewrite (Qfloor_comp _ _ H).
  assert (Hc : (q - inject_Z (Qfloor q') ?= 1 # 2) = (q' - inject_Z (Qfloor q') ?= 1 # 2)).
  { apply Qcompare_comp; [rewrite H; reflexivity | reflexivity]. }
  rewrite Hc. reflexivity.
Qed.

Lemma round_half_even_inject (z : Z) : round_half_even (inject_Z z) = z.
Proof.
  unfold round_half_even. rewrite Qfloor_Z.
  assert (H : (inject_Z z - inject_Z z ?= 1 # 2) = Lt).
  { apply (proj1 (Qlt_alt _ _)). Lqa.lra. }
  rewrite H. reflexivity.
Qed.

Lemma round_half_even_error (q : Q) :
  Qabs (inject_Z (round_half_even q) - q) <= 1 # 2.
Proof.
  pose proof (Qfloor_le q) as Hlo.
  pose proof (Qlt_floor q) as Hhi.
  rewrite inject_Z_plus in Hhi. change (inject_Z 1) with 1 in Hhi.
  apply Qabs_Qle_condition.
  unfold round_half_even.
  destruct (q - inject_Z (Qfloor q) ?= 1 # 2) eqn:E.
  - apply (proj2 (Qeq_alt _ _)) in E.
    destruct (Z.even (Qfloor q)); rewrite ?inject_Z_plus;
      change (inject_Z 1) with 1; split; Lqa.lra.
  - apply (proj2 (Qlt_alt _ _)) in E. split; Lqa.lra.
  - apply (proj2 (Qgt_alt _ _)) in E. rewrite inject_Z_plus. change (inject_Z 1) with 1.
    split; Lqa.lra.
Qed.

Lemma round2_comp (q q' : Q) : q == q' -> round2 q == round2 q'.
Proof.
  intros H. unfold round2.
  rewrite (round_half_even_comp (q * 100) (q' * 100)); [reflexivity|].
  rewrite H. reflexivity.
Qed.

#[global] Instance round2_proper : Proper (Qeq ==> Qeq) round2.
Proof. intros q q' H. exact (round2_comp q q' H). Qed.

(** Rounding moves an amount by at most half a cent. *)
Lemma round2_error (q : Q) : Qabs (round2 q - q) <= 1 # 200.
Proof.
  pose proof (round_half_even_error (q * 100)) as H.
  apply Qabs_Qle_condition in H. apply Qabs_Qle_condition.
  unfold round2. generalize dependent (inject_Z (round_half_even (q * 100))).
  intros z [H1 H2]. unfold Qdiv. change (/ 100) with (1 # 100).
  split; Lqa.lra.
Qed.

(** An amount of whole cents is left as it is. *)
Lemma round2_cents (z : Z) : round2 (inject_Z z / 100) == inject_Z z / 100.
Proof.
  unfold round2.
  rewrite (round_half_even_comp (inject_Z z / 100 * 100) (inject_Z z)).
  - rewrite round_half_even_inject. reflexivity.
  - field.
Qed.

Lemma two_decimals_cents (q : Q) :
  two_decimals q <-> exists z : Z, q == inject_Z z / 100.
Proof.
  split.
  - intros H. exists (round_half_even (q * 100)). symmetry. exact H.
  - intros [z Hz]. unfold two_decimals. rewrite Hz. apply round2_cents.
Qed.

(** A whole multiple of a two-decimal amount has two decimals. *)
Lemma two_decimals_scale (q : Q) (k : Z) :
  two_decimals q -> two_decimals (q * inject_Z k).
Proof.
  intros H. apply two_decimals_cents in H as [z Hz].
  apply two_decimals_cents. exists (z * k)%Z.
  rewrite Hz, inject_Z_mult. field.
Qed.

End Rounding.

(** ** Calendar *)

Section CalendarFacts.
Local Open Scope Z_scope.

Lemma days_in_month_bounds (y m : Z) : 28 <= days_in_month y m <= 31.
Proof.
  unfold days_in_month.
  destruct (m =? 2); [destruct (is_leap y); lia|].
  destruct ((m =? 4) || (m =? 6) || (m =? 9) || (m =? 11)); lia.
Qed.

Lemma month_index_add_months (d : date) (k : Z) :
  month_index (add_months d k) = month_index d + k.
Proof.
  unfold add_months, month_index at 1. cbn [year month].
  generalize (month_index d + k). intros i.
  pose proof (Z.div_mod i 12). lia.
Qed.

Lemma month_of_add_months (d : date) (k : Z) :
  month_of (add_months d k) = month_at (month_index d + k).
Proof. reflexivity. Qed.

Lemma month_index_first (i : Z) : month_index (first_of_month i) = i.
Proof.
  unfold month_index, first_of_month. cbn [year month].
  pose proof (Z.div_mod i 12). lia.
Qed.

Lemma month_of_first (i : Z) : month_of (first_of_month i) = month_at i.
Proof. reflexivity. Qed.

Lemma replace_day1_first (d : date) :
  1 <= month d <= 12 -> replace_day1 d = first_of_month (month_index d).
Proof.
  intros Hm. unfold replace_day1, first_of_month, month_index.
  f_equal; [ | ]; Z.div_mod_to_equations; lia.
Qed.

Lemma add_months_first (i k : Z) :
  add_months (first_of_month i) k = first_of_month (i + k).
Proof.
  unfold add_months. rewrite month_index_first.
  unfold first_of_month. cbn [day]. f_equal.
  pose proof (days_in_month_bounds ((i + k) / 12) ((i + k) mod 12 + 1)). lia.
Qed.

Lemma month_at_index (d : date) :
  1 <= month d <= 12 -> month_at (month_index d) = month_of d.
Proof.
  intros Hm. unfold month_at, month_of, month_index.
  f_equal; Z.div_mod_to_equations; lia.
Qed.

(** The loop test [current_date <= end_date] on a first of month. *)
Lemma date_leb_first (i : Z) (e : date) :
  valid_date e -> date_leb (first_of_month i) e = (i <=? month_index e).
Proof.
  intros [Hm Hd]. unfold date_leb, date_compare, first_of_month, month_index.
  cbn [year month day].
  destruct (Z.compare_spec (i / 12) (year e)) as [Hy|Hy|Hy].
  - destruct (Z.compare_spec (i mod 12 + 1) (month e)) as [Hmm|Hmm|Hmm].
    + destruct (Z.compare_spec 1 (day e)); symmetry;
        [apply Z.leb_le | apply Z.leb_le | lia];
        Z.div_mod_to_equations; lia.
    + symmetry. apply Z.leb_le. Z.div_mod_to_equations; lia.
    + symmetry. apply Z.leb_gt. Z.div_mod_to_equations; lia.
  - symmetry. apply Z.leb_le. Z.div_mod_to_equations; lia.
  - symmetry. apply Z.leb_gt. Z.div_mod_to_equations; lia.
Qed.

(** One year later is twelve calendar months later. *)
Lemma add_years_12 (d : date) :
  1 <= month d <= 12 -> add_years d 1 = add_months d 12.
Proof.
  intros Hm. unfold add_years, add_months, month_index.
  assert (Hy : (year d * 12 + (month d - 1) + 12) / 12 = year d + 1)
    by (Z.div_mod_to_equations; lia).
  assert (Hmo : (year d * 12 + (month d - 1) + 12) mod 12 + 1 = month d)
    by (Z.div_mod_to_equations; lia).
  cbn zeta. rewrite Hy, Hmo. reflexivity.
Qed.

(** A month offset lands on a well-formed date. *)
Lemma valid_add_months (d : date) (k : Z) :
  valid_date d -> valid_date (add_months d k).
Proof.
  intros [Hm Hd]. unfold valid_date, add_months. cbn [year month day].
  pose proof (days_in_month_bounds ((month_index d + k) / 12)
                ((month_index d + k) mod 12 + 1)).
  pose proof (Z.mod_pos_bound (month_index d + k) 12). lia.
Qed.

End CalendarFacts.

(** ** Administrative cost expansion *)

Section AdminLoop.
Import AdminCostManager.
Local Open Scope Z_scope.

Variable r : row.
Variable step : Z.
Variable amount : Q.
Hypothesis step_pos : 0 < step.
Hypothesis end_valid : valid_date (end_date r).

(** Number of turns of the loop entered at month position [i]. *)
Let turns (i : Z) : Z := (month_index (end_date r) - i) / step + 1.

Lemma turns_nonpos (i : Z) : turns i <= 0 <-> month_index (end_date r) < i.
Proof.
  unfold turns. split; intros H.
  - destruct (Z.lt_ge_cases (month_index (end_date r)) i) as [|Hge]; [assumption|].
    pose proof (Z.div_pos (month_index (end_date r) - i) step). lia.
  - assert ((month_index (end_date r) - i) / step < 0); [|lia].
    apply Z.div_lt_upper_bound; lia.
Qed.

Lemma turns_step (i : Z) : turns (i + step) = turns i - 1.
Proof.
  unfold turns.
  replace (month_index (end_date r) - (i + step))
    with (month_index (end_date r) - i + (-1) * step) by lia.
  rewrite Z.div_add by lia. lia.
Qed.

(** With fuel for every turn the loop ends on its own test, and yields one
    event every [step] months from position [i]. *)
Lemma while_loop_first (fuel : nat) (i : Z) :
  turns i <= Z.of_nat fuel ->
  while_loop fuel step amount r (first_of_month i)
  = Some (map (fun j => event r amount (first_of_month (i + step * j)))
              (seqZ 0 (turns i))).
Proof.
  revert i. induction fuel as [|fuel IH]; intros i Hfuel.
  - cbn [while_loop]. rewrite date_leb_first by assumption.
    assert (Hlt : month_index (end_date r) < i) by (apply turns_nonpos; lia).
    apply Z.leb_gt in Hlt. rewrite Hlt.
    rewrite seqZ_nil by (apply turns_nonpos, Z.leb_gt; assumption).
    reflexivity.
  - cbn [while_loop]. rewrite date_leb_first by assumption.
    destruct (i <=? month_index (end_date r)) eqn:Hle.
    + apply Z.leb_le in Hle.
      assert (Hpos : 0 < turns i).
      { destruct (Z.lt_ge_cases 0 (turns i)) as [|Hn]; [assumption|].
        apply turns_nonpos in Hn. lia. }
      rewrite add_months_first, IH by (rewrite turns_step; lia).
      rewrite (seqZ_cons 0 (turns i)) by assumption.
      cbn [map]. rewrite Z.mul_0_r, Z.add_0_r. do 2 f_equal.
      rewrite turns_step.
      change (Z.succ 0) with (1 + 0). rewrite <- fmap_add_seqZ.
      change (Z.pred (turns i)) with (turns i - 1).
      change (@fmap list _ Z Z (Z.add 1) (seqZ 0 (turns i - 1)))
        with (map (Z.add 1) (seqZ 0 (turns i - 1))).
      rewrite map_map. apply map_ext. intros j.
      do 2 f_equal. lia.
    + apply Z.leb_gt in Hle.
      rewrite seqZ_nil by (apply turns_nonpos; assumption).
      reflexivity.
Qed.

End AdminLoop.

Section AdminExpansion.
Import AdminCostManager.

Lemma loop_fuel_enough (r : row) (step : Z) :
  (0 < step)%Z ->
  ((month_index (end_date r) - month_index (start_date r)) / step + 1
   <= Z.of_nat (loop_fuel r))%Z.
Proof.
  intros Hs. unfold loop_fuel.
  set (d := (month_index (end_date r) - month_index (start_date r))%Z).
  destruct (Z.lt_ge_cases d 0) as [Hneg|Hpos].
  - assert (d / step < 0)%Z by (apply Z.div_lt_upper_bound; lia). lia.
  - assert (d / step <= d)%Z.
    { apply Z.div_le_upper_bound; [lia|]. nia. }
    lia.
Qed.

Lemma months_of_loop (r : row) (amount : Q) (s step : Z) (l : list Z) :
  map ac_month (map (fun j => event r amount (first_of_month (s + step * j))) l)
  = map (fun j => month_at (s + step * j)%Z) l.
Proof. rewrite map_map. reflexivity. Qed.

Lemma Forall_amount (r : row) (amount : Q) (f : Z -> date) (l : list Z) :
  Forall (fun ev => ac_amount ev = amount)
         (map (fun j => event r amount (f j)) l).
Proof. induction l as [|j l IH]; cbn [map]; constructor; [reflexivity|assumption]. Qed.

Lemma Forall_amount_eq (amount target : Q) (evs : list CostEvent) :
  (amount == target)%Q ->
  Forall (fun ev => ac_amount ev = amount) evs ->
  Forall (fun ev => (ac_amount ev == target)%Q) evs.
Proof.
  intros Heq H. eapply Forall_impl; [exact H|].
  intros ev Hev. cbn beta in Hev. rewrite Hev. exact Heq.
Qed.

Lemma two_decimals_times (q : Q) (k : Z) :
  two_decimals q -> (round2 (q * inject_Z k) == inject_Z k * q)%Q.
Proof.
  intros H. pose proof (two_decimals_scale q k H) as Hk.
  unfold two_decimals in Hk. rewrite Hk. ring.
Qed.

(** C4, as the code has it. Expansion of an administrative cost record of
    monthly cost [M] by payment frequency. With frequency 月度 and
    well-formed dates it yields one event for each calendar month from the
    month of the start through the month of the end, of amount [M] rounded
    to two decimals; with frequency 季度 one event every third month from
    the month of the start while that month is not after the end, of
    amount [3 M] rounded to two decimals; with frequency 年度 exactly one
    event at the month of the start, of amount [12 M] rounded to two
    decimals, whatever the end date is. When [M] has at most two decimals
    the amounts are [M], [3 M] and [12 M] themselves. *)
Theorem admin_expansion_by_frequency (r : row) :
  let M := monthly_cost r in
  let s := month_index (start_date r) in
  let e := month_index (end_date r) in
  (payment_frequency r = "月度" ->
   valid_date (start_date r) -> valid_date (end_date r) ->
   exists evs,
     row_events r = Some evs
     /\ map ac_month evs = map month_at (seqZ s (e - s + 1))
     /\ Forall (fun ev => ac_amount ev = round2 M) evs
     /\ (two_decimals M -> Forall (fun ev => (ac_amount ev == M)%Q) evs))
  /\ (payment_frequency r = "季度" ->
      valid_date (start_date r) -> valid_date (end_date r) ->
      exists evs,
        row_events r = Some evs
        /\ map ac_month evs
           = map (fun j => month_at (s + 3 * j)%Z) (seqZ 0 ((e - s) / 3 + 1))
        /\ Forall (fun ev => ac_amount ev = round2 (M * 3)) evs
        /\ (two_decimals M -> Forall (fun ev => (ac_amount ev == 3 * M)%Q) evs))
  /\ (payment_frequency r = "年度" ->
      exists ev,
        row_events r = Some [ev]
        /\ ac_month ev = month_of (start_date r)
        /\ ac_amount ev = round2 (M * 12)
        /\ (two_decimals M -> (ac_amount ev == 12 * M)%Q)).
Proof.
  intros M s e. repeat split.
  - intros Hf [Hsm _] Hev. unfold row_events. rewrite Hf.
    change ("月度" =? "月度")%string with true. cbn iota.
    rewrite replace_day1_first by assumption. fold s M.
    rewrite while_loop_first;
      [ | lia | assumption | apply loop_fuel_enough; lia ].
    fold s e. rewrite Z.div_1_r.
    eexists. split; [reflexivity|]. split; [|split].
    + rewrite months_of_loop.
      replace (seqZ s (e - s + 1)) with (seqZ (s + 0) (e - s + 1)) by (f_equal; lia).
      rewrite <- fmap_add_seqZ.
      change (@fmap list _ Z Z (Z.add s) (seqZ 0 (e - s + 1)))
        with (map (Z.add s) (seqZ 0 (e - s + 1))).
      rewrite map_map. apply map_ext. intros j. f_equal. lia.
    + apply Forall_amount.
    + intros Htwo. eapply Forall_amount_eq; [exact Htwo | apply Forall_amount].
  - intros Hf [Hsm _] Hev. unfold row_events. rewrite Hf.
    change ("季度" =? "月度")%string with false.
    change ("季度" =? "季度")%string with true. cbn iota.
    rewrite replace_day1_first by assumption. fold s M.
    rewrite while_loop_first;
      [ | lia | assumption | apply loop_fuel_enough; lia ].
    fold s e.
    eexists. split; [reflexivity|]. split; [|split].
    + apply months_of_loop.
    + apply Forall_amount.
    + intros Htwo. eapply Forall_amount_eq; [|apply Forall_amount].
      exact (two_decimals_times M 3 Htwo).
  - intros Hf. unfold row_events. rewrite Hf.
    change ("年度" =? "月度")%string with false.
    change ("年度" =? "季度")%string with false.
    change ("年度" =? "年度")%string with true. cbn iota.
    eexists. split; [reflexivity|]. split; [reflexivity|].
    split; [reflexivity|].
    intros Htwo. exact (two_decimals_times M 12 Htwo).
Qed.

(** The expansion at the quarterly record of monthly cost 3 over 2025: four
    events, at 2025-01, 2025-04, 2025-07 and 2025-10, of 9.00 each. *)
Lemma admin_expansion_quarterly_example :
  two_decimals (monthly_cost Examples.quarterly_admin)
  /\ exists evs,
       row_events Examples.quarterly_admin = Some evs
       /\ map ac_month evs = [(2025, 1); (2025, 4); (2025, 7); (2025, 10)]%Z
       /\ Forall (fun ev => (ac_amount ev == 9)%Q) evs.
Proof.
  assert (Htwo : two_decimals (monthly_cost Examples.quarterly_admin))
    by (vm_compute; reflexivity).
  split; [exact Htwo|].
  destruct (admin_expansion_by_frequency Examples.quarterly_admin) as (_ & Hq & _).
  destruct (Hq eq_refl) as (evs & Hrun & Hmonths & _ & Hamounts).
  - unfold valid_date; vm_compute; repeat split; discriminate.
  - unfold valid_date; vm_compute; repeat split; discriminate.
  - exists evs. split; [exact Hrun|]. split.
    + rewrite Hmonths. vm_compute. reflexivity.
    + eapply Forall_impl; [exact (Hamounts Htwo)|].
      intros ev Hev. cbn beta in Hev. rewrite Hev. vm_compute. reflexivity.
Defined.

(** C4, counterexample to amounts [M], [3 M] and [12 M] as such. A monthly
    cost of 1.234 is charged 1.23 per month, 3.70 per quarter (not 3.702)
    and 14.81 per year (not 14.808). *)
Lemma admin_amounts_rounded_at_generation :
  exists monthly quarterly yearly,
    row_events (Examples.three_decimals_admin "月度") = Some [monthly]
    /\ row_events (Examples.three_decimals_admin "季度") = Some [quarterly]
    /\ row_events (Examples.three_decimals_admin "年度") = Some [yearly]
    /\ ((ac_amount monthly == 1.23)%Q /\ ~ (ac_amount monthly == 1.234)%Q)
    /\ ((ac_amount quarterly == 3.70)%Q /\ ~ (ac_amount quarterly == 3 * 1.234)%Q)
    /\ ((ac_amount yearly == 14.81)%Q /\ ~ (ac_amount yearly == 12 * 1.234)%Q).
Proof.
  do 3 eexists.
  split; [vm_compute; reflexivity|].
  split; [vm_compute; reflexivity|].
  split; [vm_compute; reflexivity|].
  cbn [ac_amount event].
  repeat split; try (vm_compute; reflexivity); vm_compute; discriminate.
Qed.

End AdminExpansion.

(** ** Labor cost amortization *)

Section LaborLoop.
Import LaborCostManager.
Local Open Scope Z_scope.

Variable r : row.
Hypothesis end_valid : valid_date (end_date r).

(** With fuel for every month up to the end date the loop ends on its own
    test, with one entry per calendar month from position [i]. *)
Lemma labor_while_loop_first (fuel : nat) (i : Z) :
  month_index (end_date r) - i + 1 <= Z.of_nat fuel ->
  while_loop fuel r (first_of_month i)
  = Some (map (fun j => monthly_entry r (first_of_month (i + j)))
              (seqZ 0 (month_index (end_date r) - i + 1))).
Proof.
  revert i. induction fuel as [|fuel IH]; intros i Hfuel.
  - cbn [while_loop]. rewrite date_leb_first by assumption.
    assert (Hlt : (i <=? month_index (end_date r)) = false) by (apply Z.leb_gt; lia).
    rewrite Hlt, seqZ_nil by lia. reflexivity.
  - cbn [while_loop]. rewrite date_leb_first by assumption.
    destruct (i <=? month_index (end_date r)) eqn:Hle.
    + apply Z.leb_le in Hle.
      rewrite add_months_first, IH by lia.
      rewrite (seqZ_cons 0 (month_index (end_date r) - i + 1)) by lia.
      cbn [map]. rewrite Z.add_0_r. do 2 f_equal.
      change (Z.succ 0) with (1 + 0). rewrite <- fmap_add_seqZ.
      replace (Z.pred (month_index (end_date r) - i + 1))
        with (month_index (end_date r) - (i + 1) + 1) by lia.
      change (@fmap list _ Z Z (Z.add 1) ?l) with (map (Z.add 1) l).
      rewrite map_map. apply map_ext. intros j. do 2 f_equal. lia.
    + apply Z.leb_gt in Hle. rewrite seqZ_nil by lia. reflexivity.
Qed.

(** A record with well-formed dates is amortized into one entry per
    calendar month from the month of its start to the month of its end. *)
Lemma row_costs_total :
  1 <= month (start_date r) <= 12 ->
  row_costs r
  = Some (map (fun j => monthly_entry r (first_of_month (month_index (start_date r) + j)))
              (seqZ 0 (month_index (end_date r) - month_index (start_date r) + 1))).
Proof.
  intros Hm. unfold row_costs. rewrite replace_day1_first by assumption.
  apply labor_while_loop_first. unfold loop_fuel. lia.
Qed.

End LaborLoop.

Section MonthLength.
Local Open Scope Z_scope.

(** Evaluates the sums of two literals in the goal. *)
Ltac eval_literal_sums :=
  repeat match goal with
  | |- context [Z.add (Zpos ?a) (Zpos ?b)] =>
      let v := eval vm_compute in (Z.add (Zpos a) (Zpos b)) in
      change (Z.add (Zpos a) (Zpos b)) with v
  | |- context [Z.add Z0 (Zpos ?b)] => change (Z.add Z0 (Zpos b)) with (Zpos b)
  end.

Lemma days_before_year_succ (y : Z) :
  days_before_year (y + 1) - days_before_year y
  = 365 + (if is_leap y then 1 else 0).
Proof.
  unfold days_before_year, is_leap. cbn zeta.
  replace (y + 1 - 1) with y by lia.
  destruct (y mod 4 =? 0) eqn:H4; destruct (y mod 100 =? 0) eqn:H100;
    destruct (y mod 400 =? 0) eqn:H400; cbn [negb orb andb];
    rewrite ?Z.eqb_eq, ?Z.eqb_neq in *;
    Z.div_mod_to_equations; lia.
Qed.

(** The ordinals of two consecutive firsts of month differ by the length of
    the month between them. *)
Lemma toordinal_first_succ (i : Z) :
  toordinal (first_of_month (i + 1)) - toordinal (first_of_month i)
  = days_in_month (i / 12) (i mod 12 + 1).
Proof.
  unfold toordinal, first_of_month. cbn [year month day].
  pose proof (Z.mod_pos_bound i 12 ltac:(lia)) as Hb.
  pose proof (Z.div_mod i 12 ltac:(lia)) as Hi.
  set (y := i / 12) in *. set (m := i mod 12) in *.
  destruct (Z.eq_dec m 11) as [Hdec|Hdec].
  - assert (Hy : (i + 1) / 12 = y + 1) by (Z.div_mod_to_equations; lia).
    assert (Hm : (i + 1) mod 12 = 0) by (Z.div_mod_to_equations; lia).
    rewrite Hy, Hm, Hdec.
    pose proof (days_before_year_succ y) as Hs.
    unfold days_before_month, days_in_month.
    generalize dependent (days_before_year (y + 1)).
    generalize dependent (days_before_year y).
    generalize (is_leap (y + 1)). generalize (is_leap y).
    intros [] [] d d'; eval_literal_sums; cbn; lia.
  - assert (Hy : (i + 1) / 12 = y) by (Z.div_mod_to_equations; lia).
    assert (Hm : (i + 1) mod 12 = m + 1) by (Z.div_mod_to_equations; lia).
    rewrite Hy, Hm.
    assert (Hcases : m = 0 \/ m = 1 \/ m = 2 \/ m = 3 \/ m = 4 \/ m = 5 \/
                     m = 6 \/ m = 7 \/ m = 8 \/ m = 9 \/ m = 10) by lia.
    clearbody m y. clear Hi Hy Hm Hb Hdec.
    unfold days_before_month, days_in_month.
    generalize (days_before_year y). generalize (is_leap y).
    intros b d.
    repeat (destruct Hcases as [->|Hcases]); try subst m;
      destruct b; eval_literal_sums; cbn; lia.
Qed.

End MonthLength.

Section LaborEntry.
Import LaborCostManager.
Local Open Scope Z_scope.

Lemma sub_one_day_first (i : Z) :
  sub_one_day (first_of_month (i + 1))
  = mkdate (i / 12) (i mod 12 + 1) (days_in_month (i / 12) (i mod 12 + 1)).
Proof.
  unfold sub_one_day. cbn [day first_of_month Z.ltb Z.compare Pos.compare Pos.compare_cont].
  change (mkdate (year (first_of_month (i + 1))) (month (first_of_month (i + 1))) 1)
    with (first_of_month (i + 1)).
  rewrite add_months_first. replace (i + 1 + -1) with i by lia. reflexivity.
Qed.

(** Days charged for the month at position [i]: counted from the first of
    the month, up to the end of the month or to the end date. *)
Lemma days_for_cost_first (e : date) (i : Z) :
  valid_date e -> i <= month_index e ->
  let dim := days_in_month (i / 12) (i mod 12 + 1) in
  let last := mkdate (i / 12) (i mod 12 + 1) dim in
  days_between (date_min (if date_ltb e last then e else last) e) (first_of_month i) + 1
  = if i <? month_index e then dim else day e.
Proof.
  intros [Hm Hd] Hi dim last.
  destruct (Z.ltb_spec i (month_index e)) as [Hlt|Hge].
  - assert (Hcmp : date_ltb e last = false).
    { unfold date_ltb, date_compare, last. cbn [year month day].
      unfold month_index in Hlt.
      destruct (Z.compare_spec (year e) (i / 12));
        [destruct (Z.compare_spec (month e) (i mod 12 + 1));
           [destruct (Z.compare_spec (day e) dim)| |] | |];
        try reflexivity; exfalso; Z.div_mod_to_equations; lia. }
    unfold date_min. rewrite !Hcmp.
    unfold days_between, toordinal, last, first_of_month. cbn [year month day]. lia.
  - assert (Hy : year e = i / 12) by (unfold month_index in *; Z.div_mod_to_equations; lia).
    assert (Hmo : month e = i mod 12 + 1) by (unfold month_index in *; Z.div_mod_to_equations; lia).
    destruct e as [ey em ed]. cbn [year month day] in *. subst ey em.
    fold dim in Hd.
    unfold date_min, date_ltb, date_compare, last. cbn [year month day].
    rewrite !Z.compare_refl.
    destruct (Z.compare_spec ed dim) as [Heq|Hlt|Hgt].
    + rewrite !Z.compare_refl, Heq, Z.compare_refl.
      unfold days_between, toordinal, first_of_month. cbn [year month day]. lia.
    + cbn iota. rewrite !Z.compare_refl.
      unfold days_between, toordinal, first_of_month. cbn [year month day]. lia.
    + lia.
Qed.

(** What the amortizer charges for the month at position [i]: the monthly
    cost times the days from the FIRST of that month to the end of the
    month, or to the end date when it falls in that month, over the length
    of the month. The start date plays no part. *)
Lemma monthly_entry_amount (r : row) (i : Z) :
  valid_date (end_date r) -> i <= month_index (end_date r) ->
  let dim := days_in_month (i / 12) (i mod 12 + 1) in
  lc_amount (monthly_entry r (first_of_month i))
  = round2 (monthly_cost r *
            (inject_Z (if i <? month_index (end_date r) then dim else day (end_date r))
             / inject_Z dim))%Q.
Proof.
  intros Hv Hi dim. unfold monthly_entry. cbn [lc_amount].
  rewrite add_months_first, sub_one_day_first.
  change (days_between (first_of_month (i + 1)) (first_of_month i))
    with (toordinal (first_of_month (i + 1)) - toordinal (first_of_month i)).
  rewrite toordinal_first_succ. fold dim.
  rewrite days_for_cost_first by assumption. reflexivity.
Qed.

End LaborEntry.

Section LaborAmortization.
Import LaborCostManager.
Local Open Scope Z_scope.

(** The amortizer on a record with well-formed dates: one entry per calendar
    month from the month of the start to the month of the end; the month of
    the end is charged for the days up to the end date, every month before
    it in full, the month of the start included. *)
Lemma labor_amortization_from_first_day (r : row) :
  valid_date (start_date r) -> valid_date (end_date r) ->
  let s := month_index (start_date r) in
  let e := month_index (end_date r) in
  exists entries,
    row_costs r = Some entries
    /\ map lc_month entries = map month_at (seqZ s (e - s + 1))
    /\ map lc_amount entries
       = map (fun i =>
                let dim := days_in_month (i / 12) (i mod 12 + 1) in
                round2 (monthly_cost r *
                        (inject_Z (if i <? e then dim else day (end_date r))
                         / inject_Z dim))%Q)
             (seqZ s (e - s + 1)).
Proof.
  intros [Hs _] He s e.
  rewrite (row_costs_total r He Hs). fold s e.
  eexists. split; [reflexivity|].
  replace (seqZ s (e - s + 1)) with (seqZ (s + 0) (e - s + 1)) by (f_equal; lia).
  rewrite <- fmap_add_seqZ.
  change (@fmap list _ Z Z (Z.add s) ?l) with (map (Z.add s) l).
  rewrite !map_map. split.
  - apply map_ext. intros j. reflexivity.
  - apply map_ext_in. intros j Hj.
    apply list_elem_of_In, elem_of_seqZ in Hj.
    apply monthly_entry_amount; [assumption | fold e; lia].
Qed.

End LaborAmortization.

Section DayWeighting.
Import LaborCostManager.
Local Open Scope Z_scope.

Lemma toordinal_first_mono (i j : Z) :
  i <= j -> toordinal (first_of_month i) + 28 * (j - i) <= toordinal (first_of_month j).
Proof.
  intros Hij. replace j with (i + Z.of_nat (Z.to_nat (j - i))) by lia.
  generalize (Z.to_nat (j - i)). intros n. induction n as [|n IH].
  - replace (i + Z.of_nat 0) with i by lia. lia.
  - replace (i + Z.of_nat (S n)) with (i + Z.of_nat n + 1) by lia.
    pose proof (toordinal_first_succ (i + Z.of_nat n)) as Hs.
    pose proof (days_in_month_bounds ((i + Z.of_nat n) / 12)
                  ((i + Z.of_nat n) mod 12 + 1)) as Hb.
    lia.
Qed.

(** A well-formed date lies between the first of its month and the day
    before the first of the next month. *)
Lemma toordinal_in_month (d : date) :
  valid_date d ->
  toordinal d = toordinal (first_of_month (month_index d)) + day d - 1
  /\ toordinal d < toordinal (first_of_month (month_index d + 1)).
Proof.
  intros [Hm Hd].
  pose proof (toordinal_first_succ (month_index d)) as Hs.
  assert (Hy : month_index d / 12 = year d)
    by (unfold month_index; Z.div_mod_to_equations; lia).
  assert (Hmo : month_index d mod 12 + 1 = month d)
    by (unfold month_index; Z.div_mod_to_equations; lia).
  rewrite Hy, Hmo in Hs.
  assert (Hf : toordinal d = toordinal (first_of_month (month_index d)) + day d - 1).
  { unfold toordinal, first_of_month. cbn [year month day]. rewrite Hy, Hmo. lia. }
  split; [exact Hf | lia].
Qed.

(** Past the month of the start, and in the month of a start that falls on
    the first, the charged days are the days of the month that lie inside
    the interval of the record. *)
Lemma charged_days_day_weighted (r : row) (i : Z) :
  valid_date (start_date r) -> valid_date (end_date r) ->
  i <= month_index (end_date r) ->
  month_index (start_date r) < i
  \/ (month_index (start_date r) = i /\ day (start_date r) = 1) ->
  charged_days r i = days_in_range_for_month (start_date r) (end_date r) i.
Proof.
  intros Hs He Hie Hcase.
  destruct (toordinal_in_month _ Hs) as [Hs1 Hs2].
  destruct (toordinal_in_month _ He) as [He1 He2].
  pose proof (toordinal_first_succ i) as Hdim.
  pose proof (days_in_month_bounds (i / 12) (i mod 12 + 1)) as Hb.
  destruct He as [_ Hed].
  unfold charged_days, days_in_range_for_month.
  assert (Hstart : toordinal (start_date r) <= toordinal (first_of_month i)).
  { destruct Hcase as [Hlt|[Heq H1]].
    - pose proof (toordinal_first_mono (month_index (start_date r) + 1) i ltac:(lia)). lia.
    - subst i. lia. }
  destruct (Z.ltb_spec i (month_index (end_date r))) as [Hlt|Hge].
  - pose proof (toordinal_first_mono (i + 1) (month_index (end_date r)) ltac:(lia)).
    lia.
  - assert (i = month_index (end_date r)) by lia. subst i. lia.
Qed.

(** In the month of a start that falls after the first, the amortizer
    charges the days before the start as well. *)
Lemma charged_days_first_month (r : row) :
  valid_date (start_date r) -> valid_date (end_date r) ->
  toordinal (start_date r) <= toordinal (end_date r) ->
  month_index (start_date r) <= month_index (end_date r) ->
  charged_days r (month_index (start_date r))
  = days_in_range_for_month (start_date r) (end_date r) (month_index (start_date r))
    + (day (start_date r) - 1).
Proof.
  intros Hs He Hord Hse.
  destruct (toordinal_in_month _ Hs) as [Hs1 Hs2].
  destruct (toordinal_in_month _ He) as [He1 He2].
  pose proof (toordinal_first_succ (month_index (start_date r))) as Hdim.
  destruct Hs as [Hsm Hsd]. destruct He as [_ Hed].
  assert (Hy : month_index (start_date r) / 12 = year (start_date r))
    by (unfold month_index; Z.div_mod_to_equations; lia).
  assert (Hmo : month_index (start_date r) mod 12 + 1 = month (start_date r))
    by (unfold month_index; Z.div_mod_to_equations; lia).
  unfold charged_days, days_in_range_for_month.
  rewrite Hy, Hmo in *.
  destruct (Z.ltb_spec (month_index (start_date r)) (month_index (end_date r)))
    as [Hlt|Hge].
  - pose proof (toordinal_first_mono (month_index (start_date r) + 1)
                  (month_index (end_date r)) ltac:(lia)).
    lia.
  - assert (Heq : month_index (start_date r) = month_index (end_date r)) by lia.
    rewrite Heq in *. lia.
Qed.

(** The amortizer against day-weighting. A record with well-formed dates
    and a start not after its end is amortized into one entry per calendar
    month from the month of its start to the month of its end; the amount of
    each month is the monthly cost times the days of that month inside the
    interval over the length of the month, rounded to two decimals, except
    that the month of the start is charged for its days before the start
    too. *)
Lemma labor_amortization_day_weighted_but_start (r : row) :
  valid_date (start_date r) -> valid_date (end_date r) ->
  toordinal (start_date r) <= toordinal (end_date r) ->
  let s := month_index (start_date r) in
  let e := month_index (end_date r) in
  exists entries,
    row_costs r = Some entries
    /\ map lc_month entries = map month_at (seqZ s (e - s + 1))
    /\ map lc_amount entries
       = map (fun i =>
                let dim := days_in_month (i / 12) (i mod 12 + 1) in
                let inside := days_in_range_for_month (start_date r) (end_date r) i in
                let before := if i =? s then day (start_date r) - 1 else 0 in
                round2 (monthly_cost r * (inject_Z (inside + before) / inject_Z dim))%Q)
             (seqZ s (e - s + 1)).
Proof.
  intros Hs He Hord s e.
  destruct (labor_amortization_from_first_day r Hs He)
    as (entries & Hrun & Hmonths & Hamounts).
  fold s e in Hmonths, Hamounts.
  exists entries. split; [exact Hrun|]. split; [exact Hmonths|].
  rewrite Hamounts. apply map_ext_in. intros i Hi.
  apply list_elem_of_In, elem_of_seqZ in Hi. cbv zeta.
  change (if i <? e then days_in_month (i / 12) (i mod 12 + 1) else day (end_date r))
    with (charged_days r i).
  destruct (Z.eqb_spec i s) as [->|Hne].
  - unfold s. rewrite (charged_days_first_month r Hs He Hord) by (fold s e; lia).
    reflexivity.
  - rewrite (charged_days_day_weighted r i Hs He) by (fold s e; lia).
    rewrite Z.add_0_r. reflexivity.
Qed.

End DayWeighting.

(** ** Cash flow and material cost of a project *)

Section IncomeFacts.
Import IncomeManager.
Local Open Scope Q_scope.

Lemma cash_flow_rows_split (l : list Project) :
  fst (cash_flow_rows l) = flat_map (fun p => fst (project_cash_flow p)) l
  /\ snd (cash_flow_rows l) = flat_map (fun p => snd (project_cash_flow p)) l.
Proof.
  induction l as [|p l [IHe IHw]]; [split; reflexivity|].
  cbn [cash_flow_rows flat_map]. unfold ui_bind, ui_ret.
  destruct (cash_flow_rows l) as [evs ws]. cbn [fst snd] in *. subst.
  destruct (project_cash_flow p) as [e w]. cbn [fst snd].
  split; [reflexivity|]. rewrite app_nil_r. reflexivity.
Qed.

(** The test [abs(total_ratio - 1.0) > 0.001] on ratios in percent. *)
Lemma ratio_deviation (p1 p2 p3 : Q) :
  1 # 1000 < Qabs (p1 / 100 + p2 / 100 + p3 / 100 - 1)
  <-> 1 # 10 < Qabs (p1 + p2 + p3 - 100).
Proof.
  assert (H : p1 / 100 + p2 / 100 + p3 / 100 - 1 == (p1 + p2 + p3 - 100) * (1 # 100))
    by field.
  rewrite H, Qabs_Qmult. change (Qabs (1 # 100)) with (1 # 100).
  generalize (Qabs (p1 + p2 + p3 - 100)). intros a. split; intros Ha; Lqa.lra.
Qed.

(** C8, as the code has it. The payment-ratio warning is advisory and
    its tolerance is not sharp. The generator returns the events of every
    project of the frame, in order, whatever warnings were raised on the
    way. For a project whose row holds the ratios [p1], [p2] and [p3] (a
    ratio the frame has no column for counts as 50, 40 and 10), the three
    events carry those ratios and the amounts computed from them, warning
    or not; one warning is raised when the sum of the ratios is away from
    100 by 0.100000001 or more, and none when it is away by 0.099999999 or
    less. Nothing is said of a deviation of 0.1 itself, which rounding
    decides. *)
Theorem ratio_warning_advisory (self : t) (project : Project) :
  let p1 := match first_payment_ratio project with Some v => v | None => 50 end in
  let p2 := match second_payment_ratio project with Some v => v | None => 40 end in
  let p3 := match final_payment_ratio project with Some v => v | None => 10 end in
  let R := corrected_revenue project in
  fst (generate_cash_flow_data self)
  = flat_map (fun p => fst (project_cash_flow p)) (rows (data self))
  /\ snd (generate_cash_flow_data self)
     = flat_map (fun p => snd (project_cash_flow p)) (rows (data self))
  /\ map cf_kind (fst (project_cash_flow project))
     = [FirstPayment; SecondPayment; Warranty]
  /\ map cf_amount (fst (project_cash_flow project))
     = [round2 (R * (p1 / 100)); round2 (R * (p2 / 100)); round2 (R * (p3 / 100))]
  /\ map cf_ratio (fst (project_cash_flow project)) = [p1; p2; p3]
  /\ ((1 # 10) + (1 # 1000000000) <= Qabs (p1 + p2 + p3 - 100) ->
      snd (project_cash_flow project)
      = [RatioWarning (project_name project) ((p1 / 100 + p2 / 100 + p3 / 100) * 100)])
  /\ (Qabs (p1 + p2 + p3 - 100) <= (1 # 10) - (1 # 1000000000) ->
      snd (project_cash_flow project) = []).
Proof.
  intros p1 p2 p3 R.
  destruct (cash_flow_rows_split (rows (data self))) as [He Hw].
  split; [exact He|]. split; [exact Hw|].
  assert (H1 : get (first_payment_ratio project) 50 = p1)
    by (subst p1; destruct (first_payment_ratio project); reflexivity).
  assert (H2 : get (second_payment_ratio project) 40 = p2)
    by (subst p2; destruct (second_payment_ratio project); reflexivity).
  assert (H3 : get (final_payment_ratio project) 10 = p3)
    by (subst p3; destruct (final_payment_ratio project); reflexivity).
  unfold project_cash_flow, ui_bind. rewrite H1, H2, H3. fold R.
  clearbody p1 p2 p3. clear H1 H2 H3.
  destruct (Qgtb (Qabs (p1 / 100 + p2 / 100 + p3 / 100 - 1)) (1 # 1000)) eqn:E.
  - split; [reflexivity|]. split; [reflexivity|]. split; [reflexivity|].
    split; [intros _; reflexivity|].
    intros Hle. exfalso.
    apply (proj1 (Qgtb_lt _ _)) in E.
    apply (proj1 (ratio_deviation p1 p2 p3)) in E.
    revert E Hle. generalize (Qabs (p1 + p2 + p3 - 100)). intros a E Hle. Lqa.lra.
  - split; [reflexivity|]. split; [reflexivity|]. split; [reflexivity|].
    split; [|intros _; reflexivity].
    intros Hge. exfalso.
    assert (Hlt : 1 # 10 < Qabs (p1 + p2 + p3 - 100)).
    { revert Hge. generalize (Qabs (p1 + p2 + p3 - 100)). intros a Hge. Lqa.lra. }
    apply (proj2 (ratio_deviation p1 p2 p3)) in Hlt.
    apply (proj2 (Qgtb_lt _ _)) in Hlt. congruence.
Qed.

(** The generator on a project stored with ratios of 30, 30 and 30: the
    warning is raised with a total of 90, and the three events are there,
    with 30 each of a corrected revenue of 100. *)
Lemma ratio_warning_advisory_example :
  (exists total,
     snd (project_cash_flow Samples.short_ratios_project)
     = [RatioWarning "示例项目4" total]
     /\ total == 90)
  /\ map cf_ratio (fst (project_cash_flow Samples.short_ratios_project))
     = [30; 30; 30]
  /\ Forall2 Qeq (map cf_amount (fst (project_cash_flow Samples.short_ratios_project)))
                 [30; 30; 30].
Proof.
  destruct (ratio_warning_advisory Examples.one_project_manager
              Samples.short_ratios_project)
    as (_ & _ & _ & Hamounts & Hratios & Hwarn & _).
  split; [|split].
  - eexists. split; [apply Hwarn; vm_compute; discriminate|].
    vm_compute. reflexivity.
  - exact Hratios.
  - rewrite Hamounts. repeat constructor; vm_compute; reflexivity.
Defined.

(** C8, counterexample to a sharp tolerance. The stored ratios 50, 40 and
    9.9 are away from 100 by 0.1, not by more (as decimals exactly 0.1, as
    the binary64 numbers they are stored as a little less), and the test of
    the generator, evaluated on binary64 as Python does, raises the
    warning. *)
Lemma ratio_warning_at_the_tolerance :
  RatioTest.warns RatioTest.fifty RatioTest.forty RatioTest.nine_point_nine = true
  /\ ~ (1 # 10 < Qabs (50 + 40 + 9.9 - 100))
  /\ ~ (1 # 10 < Qabs (RatioTest.value RatioTest.fifty + RatioTest.value RatioTest.forty
                       + RatioTest.value RatioTest.nine_point_nine - 100)).
Proof.
  split; [vm_compute; reflexivity|].
  split; vm_compute; discriminate.
Qed.

(** C3, as the code has it. A project with a well-formed delivery date
    yields exactly three events: a first payment dated at delivery, a
    second payment one calendar month later and a warranty payment twelve
    calendar months later (the day of month kept, clamped to the length of
    the target month). Each amount is [R p / 100] rounded to two decimals
    when the event is generated, so the three amounts sum to
    [R (p1 + p2 + p3) / 100] only within 0.015, and to [R] within 0.015
    when the ratios sum to 100. *)
Theorem cash_flow_three_rounded_payments (project : Project) :
  valid_date (delivery_date project) ->
  let d := delivery_date project in
  let p1 := get (first_payment_ratio project) 50 in
  let p2 := get (second_payment_ratio project) 40 in
  let p3 := get (final_payment_ratio project) 10 in
  let R := corrected_revenue project in
  exists e1 e2 e3,
    fst (project_cash_flow project) = [e1; e2; e3]
    /\ (cf_kind e1 = FirstPayment /\ cf_kind e2 = SecondPayment /\ cf_kind e3 = Warranty)
    /\ (cf_date e1 = d /\ cf_date e2 = add_months d 1 /\ cf_date e3 = add_months d 12)
    /\ (valid_date (cf_date e2) /\ valid_date (cf_date e3))
    /\ (month_index (cf_date e2) = month_index d + 1
        /\ month_index (cf_date e3) = month_index d + 12)%Z
    /\ (day (cf_date e2)
          = Z.min (day d) (days_in_month (year (cf_date e2)) (month (cf_date e2)))
        /\ day (cf_date e3)
          = Z.min (day d) (days_in_month (year (cf_date e3)) (month (cf_date e3))))
    /\ (cf_month e1 = month_of (cf_date e1) /\ cf_month e2 = month_of (cf_date e2)
        /\ cf_month e3 = month_of (cf_date e3))
    /\ (cf_amount e1 == round2 (R * p1 / 100)
        /\ cf_amount e2 == round2 (R * p2 / 100)
        /\ cf_amount e3 == round2 (R * p3 / 100))
    /\ Qabs (cf_amount e1 + cf_amount e2 + cf_amount e3 - R * (p1 + p2 + p3) / 100)
       <= 3 # 200
    /\ (p1 + p2 + p3 == 100 ->
        Qabs (cf_amount e1 + cf_amount e2 + cf_amount e3 - R) <= 3 # 200).
Proof.
  intros Hv d p1 p2 p3 R.
  assert (Hm : (1 <= month d <= 12)%Z) by (destruct Hv; assumption).
  unfold project_cash_flow, ui_bind. fold d p1 p2 p3 R.
  destruct (if Qgtb _ _ then _ else _) as [u w]. cbn [fst snd ui_ret].
  do 3 eexists. split; [reflexivity|]. cbn [cf_kind cf_date cf_month cf_amount].
  rewrite (add_years_12 d Hm).
  split; [repeat split|]. split; [repeat split|].
  split; [split; apply valid_add_months; exact Hv|].
  split; [split; apply month_index_add_months|].
  split; [split; reflexivity|]. split; [repeat split|].
  assert (H1 : R * (p1 / 100) == R * p1 / 100) by field.
  assert (H2 : R * (p2 / 100) == R * p2 / 100) by field.
  assert (H3 : R * (p3 / 100) == R * p3 / 100) by field.
  split; [repeat split; apply round2_comp; assumption|].
  set (x1 := R * (p1 / 100)). set (x2 := R * (p2 / 100)). set (x3 := R * (p3 / 100)).
  pose proof (round2_error x1) as E1.
  pose proof (round2_error x2) as E2.
  pose proof (round2_error x3) as E3.
  apply Qabs_Qle_condition in E1, E2, E3.
  assert (Hsum : R * (p1 + p2 + p3) / 100 == x1 + x2 + x3)
    by (unfold x1, x2, x3; field).
  assert (HR : p1 + p2 + p3 == 100 -> R == x1 + x2 + x3).
  { intros H100. rewrite <- Hsum, H100. field. }
  clearbody x1 x2 x3. revert E1 E2 E3.
  generalize (round2 x1) (round2 x2) (round2 x3).
  intros a1 a2 a3 [L1 U1] [L2 U2] [L3 U3].
  split.
  - apply Qabs_Qle_condition. rewrite Hsum. split; Lqa.lra.
  - intros H100. specialize (HR H100). apply Qabs_Qle_condition.
    split; Lqa.lra.
Qed.

End IncomeFacts.

Section IncomeExamples.
Import IncomeManager.
Local Open Scope Q_scope.

(** C3, counterexample to exact amounts and exact sums. For corrected
    revenue 10.01 paid 33/33/34 the events carry 3.30, 3.30 and 3.40: the
    first amount is not [R p1 / 100] = 3.3033, and the three amounts sum to
    10.00, not to [R (p1 + p2 + p3) / 100] = 10.01. *)
Lemma cash_flow_amounts_rounded_at_generation :
  exists e1 e2 e3,
    fst (project_cash_flow Examples.odd_cents_project) = [e1; e2; e3]
    /\ (cf_amount e1 == 3.30 /\ cf_amount e2 == 3.30 /\ cf_amount e3 == 3.40)
    /\ ~ (cf_amount e1 == 10.01 * 33 / 100)
    /\ ~ (cf_amount e1 + cf_amount e2 + cf_amount e3 == 10.01 * (33 + 33 + 34) / 100).
Proof.
  do 3 eexists. split; [vm_compute; reflexivity|].
  cbn [cf_amount]. repeat split; try (vm_compute; reflexivity);
    vm_compute; discriminate.
Qed.

(** The three payments of the project delivered on 2026-03-15: the second
    on 2026-04-15, the warranty on 2027-03-15, and a total within 0.015 of
    the corrected revenue 10.01. *)
Lemma cash_flow_three_rounded_payments_example :
  valid_date (delivery_date Examples.odd_cents_project)
  /\ exists e1 e2 e3,
       fst (project_cash_flow Examples.odd_cents_project) = [e1; e2; e3]
       /\ cf_date e2 = mkdate 2026 4 15
       /\ cf_date e3 = mkdate 2027 3 15
       /\ Qabs (cf_amount e1 + cf_amount e2 + cf_amount e3 - 10.01) <= 3 # 200.
Proof.
  assert (Hv : valid_date (delivery_date Examples.odd_cents_project))
    by (unfold valid_date; vm_compute; repeat split; discriminate).
  split; [exact Hv|].
  destruct (cash_flow_three_rounded_payments Examples.odd_cents_project Hv)
    as (e1 & e2 & e3 & Hevs & _ & (_ & Hd2 & Hd3) & _ & _ & _ & _ & _ & _ & Hsum).
  exists e1, e2, e3. split; [exact Hevs|].
  split; [rewrite Hd2; vm_compute; reflexivity|].
  split; [rewrite Hd3; vm_compute; reflexivity|].
  apply Hsum. vm_compute. reflexivity.
Defined.

Lemma month_index_sub_month (d : date) :
  (month_index (add_months d (-1)) = month_index d - 1)%Z.
Proof. rewrite month_index_add_months. lia. Qed.

(** C7, as the code has it. The allocator yields one entry per project of
    the frame, in order. Its amount is the corrected revenue times the
    ratio of the project's business line, rounded to two decimals (so
    within half a cent of the product); the ratio is the one of the
    manager's table, else the built-in one of that line, else 0.30; the
    entry is keyed to the calendar month one month before delivery. *)
Theorem material_cost_rounded (self : t) (project : Project) :
  let line := business_line project in
  let ratio := material_ratio_of self line in
  let R := corrected_revenue project in
  let mc := project_material_cost self project in
  map mc_cost (generate_material_cost_data self)
  = map (fun p => round2 (corrected_revenue p * material_ratio_of self (business_line p)))
        (rows (data self))
  /\ map mc_month (generate_material_cost_data self)
     = map (fun p => month_at (month_index (delivery_date p) - 1)) (rows (data self))
  /\ length (generate_material_cost_data self) = length (rows (data self))
  /\ ratio = match material_ratios self !! line with
             | Some x => x
             | None => match builtin_ratios !! line with
                       | Some y => y
                       | None => 0.30
                       end
             end
  /\ mc_cost mc = round2 (R * ratio)
  /\ Qabs (mc_cost mc - R * ratio) <= 1 # 200
  /\ mc_date mc = add_months (delivery_date project) (-1)
  /\ mc_month mc = month_of (mc_date mc)
  /\ (month_index (mc_date mc) = month_index (delivery_date project) - 1)%Z.
Proof.
  intros line ratio R mc. unfold generate_material_cost_data.
  rewrite !map_map, length_map.
  split; [reflexivity|]. split; [reflexivity|]. split; [reflexivity|].
  split.
  { unfold ratio, material_ratio_of.
    destruct (material_ratios self !! line); [reflexivity|].
    destruct (builtin_ratios !! line); reflexivity. }
  split; [reflexivity|].
  split; [apply round2_error|].
  split; [reflexivity|]. split; [reflexivity|].
  apply month_index_sub_month.
Qed.

(** C7, counterexample to an exact product. For corrected revenue 10.01 on
    the line 光谱设备/服务 (ratio 0.30) the entry carries 3.00, not 3.003,
    keyed to 2026-02 for a delivery on 2026-03-15. *)
Lemma material_cost_not_exact_product :
  exists mc,
    generate_material_cost_data Examples.one_project_manager = [mc]
    /\ material_ratio_of Examples.one_project_manager "光谱设备/服务" == 0.30
    /\ mc_month mc = (2026, 2)%Z
    /\ mc_cost mc == 3.00
    /\ ~ (mc_cost mc == 10.01 * 0.30).
Proof.
  eexists. split; [vm_compute; reflexivity|].
  cbn [mc_month mc_cost].
  repeat split; try (vm_compute; reflexivity); vm_compute; discriminate.
Qed.

End IncomeExamples.

(** ** Time decay of the revenue model *)

Section Decay.
Import RevenueModel.
Local Open Scope R_scope.

Lemma decay_factor_0 (lam : R) : decay_factor lam 0 = 1.
Proof. unfold decay_factor. rewrite Rmult_0_r. apply exp_0. Qed.

Lemma decay_factor_pos (lam : R) (t : Z) : 0 < decay_factor lam t.
Proof. apply exp_pos. Qed.

Lemma decay_factor_le_1 (lam : R) (t : Z) :
  0 <= lam -> (0 <= t)%Z -> decay_factor lam t <= 1.
Proof.
  intros Hl Ht. unfold decay_factor. rewrite <- exp_0.
  apply IZR_le in Ht.
  destruct (Req_dec (- lam * IZR t) 0) as [E|E].
  - rewrite E. apply Rle_refl.
  - left. apply exp_increasing.
    assert (0 <= lam * IZR t) by (apply Rmult_le_pos; assumption). Lra.lra.
Qed.

Lemma decay_factor_decreasing (lam : R) (t t' : Z) :
  0 < lam -> (t < t')%Z -> decay_factor lam t' < decay_factor lam t.
Proof.
  intros Hl Ht. unfold decay_factor. apply exp_increasing.
  apply IZR_lt in Ht.
  assert (lam * IZR t < lam * IZR t') by (apply Rmult_lt_compat_l; assumption).
  Lra.lra.
Qed.

Lemma month_diff_calendar (d : date) :
  month_diff d = Z.max 0 ((year d - 2025) * 12 + (month d - 12))%Z.
Proof.
  unfold month_diff, months_between, base_datetime. cbn [year month].
  destruct (Z.ltb_spec ((year d - 2025) * 12 + (month d - 12)) 0); lia.
Qed.

(** C2. The revenue model against its configuration. Whatever the
    configuration page holds, the expected revenue of a new project is
    contract amount times close rate times [exp (- 0.0315 t)], where [t] is
    the calendar year/month difference from December 2025 to the delivery
    date (the day of the month plays no part), clamped below at 0. With the
    default configuration (coefficient 0.0315, base date 2025-12-08) that
    is the model of the specification; for every coefficient [lam > 0] and
    month differences [0 <= t < t'] the decay factor at [t] lies in (0, 1],
    equals 1 at 0 and is strictly above the factor at [t']. With the
    coefficient set to 0.05 and the base date to 2026-06-01, a project of
    contract amount 100 and close rate 50% delivered on 2026-06-15 is
    given [50 exp (- 0.0315 * 6)], below the 50 that the model of the
    specification gives at that base date: the configured base date and
    coefficient are not used. *)
Theorem revenue_model_ignores_configuration :
  (forall cfg contract_amount close_rate delivery,
     form_expected_revenue cfg contract_amount close_rate delivery
     = contract_amount * (close_rate / 100)
       * exp (- (315 / 10000)
              * IZR (Z.max 0 ((year delivery - 2025) * 12 + (month delivery - 12)))))
  /\ (forall contract_amount close_rate delivery,
        form_expected_revenue default_configuration contract_amount close_rate delivery
        = spec_expected_revenue (config_decay_lambda default_configuration)
            (config_base_date default_configuration)
            contract_amount (close_rate / 100) delivery)
  /\ (forall lam t t', 0 < lam -> (0 <= t)%Z -> (t < t')%Z ->
        0 < decay_factor lam t <= 1
        /\ decay_factor lam 0 = 1
        /\ decay_factor lam t' < decay_factor lam t)
  /\ form_expected_revenue later_base_configuration 100 50 (mkdate 2026 6 15)
     = 50 * exp (- (315 / 10000) * 6)
  /\ spec_expected_revenue (config_decay_lambda later_base_configuration)
       (config_base_date later_base_configuration) 100 (50 / 100) (mkdate 2026 6 15)
     = 50
  /\ form_expected_revenue later_base_configuration 100 50 (mkdate 2026 6 15)
     < spec_expected_revenue (config_decay_lambda later_base_configuration)
         (config_base_date later_base_configuration) 100 (50 / 100) (mkdate 2026 6 15).
Proof.
  assert (Hcode : forall cfg C r d,
            form_expected_revenue cfg C r d
            = C * (r / 100)
              * exp (- (315 / 10000)
                     * IZR (Z.max 0 ((year d - 2025) * 12 + (month d - 12))))).
  { intros cfg C r d.
    unfold form_expected_revenue, expected_revenue, time_decay, decay_factor,
      decay_lambda.
    rewrite month_diff_calendar. reflexivity. }
  assert (Hform : form_expected_revenue later_base_configuration 100 50 (mkdate 2026 6 15)
                  = 50 * exp (- (315 / 10000) * 6)).
  { rewrite Hcode. cbn [year month].
    replace (Z.max 0 ((2026 - 2025) * 12 + (6 - 12)))%Z with 6%Z by reflexivity.
    generalize (exp (- (315 / 10000) * 6)). intros x. Lra.lra. }
  assert (Hspec : spec_expected_revenue (config_decay_lambda later_base_configuration)
                    (config_base_date later_base_configuration) 100 (50 / 100)
                    (mkdate 2026 6 15) = 50).
  { unfold spec_expected_revenue, spec_month_diff, later_base_configuration.
    cbn [config_decay_lambda config_base_date year month].
    replace (Z.max 0 ((2026 - 2026) * 12 + (6 - 6)))%Z with 0%Z by reflexivity.
    rewrite Rmult_0_r, exp_0. Lra.lra. }
  split; [exact Hcode|]. split.
  { intros C r d. rewrite Hcode.
    unfold spec_expected_revenue, spec_month_diff, default_configuration.
    cbn [config_decay_lambda config_base_date year month]. reflexivity. }
  split.
  { intros lam t t' Hl Ht Htt. split.
    - split; [apply decay_factor_pos | apply decay_factor_le_1; [left|]; assumption].
    - split; [apply decay_factor_0 | apply decay_factor_decreasing; assumption]. }
  split; [exact Hform|]. split; [exact Hspec|].
  rewrite Hform, Hspec.
  assert (Hlt : exp (- (315 / 10000) * 6) < 1).
  { rewrite <- exp_0. apply exp_increasing. Lra.lra. }
  revert Hlt. generalize (exp (- (315 / 10000) * 6)). intros x Hx. Lra.lra.
Qed.

End Decay.

(** ** Runway projection *)

Section RunwayFacts.
Import Runway.
Local Open Scope Q_scope.

Lemma length_balance_recurrence (b : Q) (net : list Q) :
  length (balance_recurrence b net) = length net.
Proof.
  revert b. induction net as [|f net IH]; intros b; cbn; [reflexivity|].
  rewrite IH. reflexivity.
Qed.

Lemma balance_recurrence_head (b f : Q) (net : list Q) :
  balance_recurrence b (f :: net) !! 0%nat = Some (b + f).
Proof. reflexivity. Qed.

Lemma balance_recurrence_next (b0 : Q) (net : list Q) (i : nat) (b f : Q) :
  balance_recurrence b0 net !! i = Some b ->
  net !! S i = Some f ->
  balance_recurrence b0 net !! S i = Some (b + f).
Proof.
  revert b0 i. induction net as [|f0 net IH]; intros b0 i Hb Hf; [discriminate|].
  destruct i as [|i].
  - cbn in Hb. injection Hb as <-.
    destruct net as [|f1 net]; [discriminate|].
    cbn in Hf. injection Hf as <-. reflexivity.
  - cbn in Hb, Hf |- *. apply (IH _ i); assumption.
Qed.

(** The column after the first [k] turns of the loop: the recurrence on
    the first [k] rows, the initial balance below. *)
Lemma balance_loop_prefix (B0 : Q) (net : list Q) (k : nat) :
  (k <= length net)%nat ->
  foldl (balance_step B0 net) (replicate (length net) B0) (seq 0 k)
  = take k (balance_recurrence B0 net) ++ replicate (length net - k) B0.
Proof.
  intros Hk. induction k as [|k IH].
  - cbn [seq foldl take app]. rewrite Nat.sub_0_r. reflexivity.
  - rewrite seq_S, foldl_app, IH by lia. cbn [foldl Nat.add].
    assert (Hlen : length (take k (balance_recurrence B0 net)) = k).
    { rewrite length_take, length_balance_recurrence. lia. }
    destruct (lookup_lt_is_Some_2 net k ltac:(lia)) as [f Hf].
    destruct (lookup_lt_is_Some_2 (balance_recurrence B0 net) k
                ltac:(rewrite length_balance_recurrence; lia)) as [x Hx].
    rewrite (take_S_r _ _ _ Hx).
    replace (length net - k)%nat with (S (length net - S k)) by lia.
    cbn [replicate]. rewrite <- app_assoc. cbn [app].
    assert (Hstep :
      balance_step B0 net
        (take k (balance_recurrence B0 net) ++ B0 :: replicate (length net - S k) B0) k
      = <[k := x]> (take k (balance_recurrence B0 net)
                      ++ B0 :: replicate (length net - S k) B0)).
    { unfold balance_step. destruct k as [|j].
      - destruct net as [|f0 net']; [discriminate|].
        cbn in Hf, Hx. injection Hf as <-. injection Hx as <-. reflexivity.
      - f_equal.
        destruct (lookup_lt_is_Some_2 (balance_recurrence B0 net) j
                    ltac:(rewrite length_balance_recurrence; lia)) as [b Hb].
        pose proof (balance_recurrence_next _ _ _ _ _ Hb Hf) as Hn.
        rewrite Hx in Hn. injection Hn as ->.
        rewrite (list_lookup_total_correct _ _ _ Hf).
        rewrite lookup_total_app_l by lia.
        rewrite (list_lookup_total_correct (take (S j) _) j b); [reflexivity|].
        rewrite lookup_take_lt by lia. exact Hb. }
    rewrite Hstep, insert_app_r_alt by lia.
    rewrite Hlen, Nat.sub_diag. reflexivity.
Qed.

(** The loop computes the recurrence. *)
Lemma cumulative_balance_recurrence (B0 : Q) (net : list Q) :
  cumulative_balance B0 net = balance_recurrence B0 net.
Proof.
  unfold cumulative_balance. rewrite balance_loop_prefix by lia.
  rewrite Nat.sub_diag, app_nil_r.
  apply take_ge. rewrite length_balance_recurrence. lia.
Qed.

Lemma runway_months_le (balance : list Q) :
  (runway_months balance <= length balance)%nat.
Proof.
  induction balance as [|b l IH]; cbn; [lia|].
  destruct (Qle_bool b 0); cbn; lia.
Qed.

Lemma runway_months_positive (balance : list Q) (i : nat) (b : Q) :
  (i < runway_months balance)%nat -> balance !! i = Some b -> 0 < b.
Proof.
  revert i. induction balance as [|x l IH]; intros i Hi Hb; cbn in Hi; [lia|].
  destruct (Qle_bool x 0) eqn:E; [lia|].
  destruct i as [|i].
  - cbn in Hb. injection Hb as <-.
    apply Qnot_le_lt. intros Hle. apply Qle_bool_iff in Hle. congruence.
  - cbn in Hb. apply (IH i); [lia | assumption].
Qed.

Lemma runway_months_stop (balance : list Q) (b : Q) :
  balance !! runway_months balance = Some b -> b <= 0.
Proof.
  induction balance as [|x l IH]; cbn; [discriminate|].
  destruct (Qle_bool x 0) eqn:E.
  - cbn. intros [= <-]. apply Qle_bool_iff. exact E.
  - cbn. exact IH.
Qed.

Lemma runway_months_all (balance : list Q) :
  Forall (fun b => 0 < b) balance -> runway_months balance = length balance.
Proof.
  induction 1 as [|x l Hx _ IH]; cbn; [reflexivity|].
  destruct (Qle_bool x 0) eqn:E.
  - apply Qle_bool_iff in E. exfalso. exact (Qlt_not_le _ _ Hx E).
  - rewrite IH. reflexivity.
Qed.

(** C6. The runway projection. The balance column has one entry per
    month; its first entry is the starting balance plus the first net
    flow and every later entry is the entry before plus the net flow of
    its month. The runway is the number of leading months with a
    strictly positive balance: every month before it has a balance above
    0, the month at it (if any) has a balance at most 0, and it is the
    whole length when no balance is at most 0. For a starting balance 10
    and flows [-5, -5, -5] the balances are [5, 0, -5] and the runway is
    1. *)
Theorem runway_projection_balances (B0 : Q) (net : list Q) :
  let balance := cumulative_balance B0 net in
  let months := runway_months balance in
  length balance = length net
  /\ (forall f, net !! 0%nat = Some f -> balance !! 0%nat = Some (B0 + f))
  /\ (forall i b f, balance !! i = Some b -> net !! S i = Some f ->
                    balance !! S i = Some (b + f))
  /\ (months <= length balance)%nat
  /\ (forall i b, (i < months)%nat -> balance !! i = Some b -> 0 < b)
  /\ (forall b, balance !! months = Some b -> b <= 0)
  /\ (Forall (fun b => 0 < b) balance -> months = length balance)
  /\ cumulative_balance 10 [-5; -5; -5] = [5; 0; -5]
  /\ runway_months (cumulative_balance 10 [-5; -5; -5]) = 1%nat.
Proof.
  intros balance months. unfold months, balance.
  rewrite cumulative_balance_recurrence.
  split; [apply length_balance_recurrence|].
  split.
  { intros f Hf. destruct net as [|f0 net']; [discriminate|].
    cbn in Hf. injection Hf as <-. reflexivity. }
  split; [intros i b f; apply balance_recurrence_next|].
  split; [apply runway_months_le|].
  split; [apply runway_months_positive|].
  split; [apply runway_months_stop|].
  split; [apply runway_months_all|].
  split; vm_compute; reflexivity.
Qed.

(** The first two balances for a starting balance 10 and flows of -5: the
    first is above 0, the second is not, so the runway stops at 1. *)
Lemma runway_projection_example :
  let balance := cumulative_balance 10 [-5; -5; -5] in
  balance !! 0%nat = Some (10 + -5)
  /\ balance !! 1%nat = Some (10 + -5 + -5)
  /\ 0 < 10 + -5
  /\ 10 + -5 + -5 <= 0.
Proof.
  destruct (runway_projection_balances 10 [-5; -5; -5])
    as (_ & H0 & Hnext & _ & Hpos & Hstop & _ & _ & Hrun).
  pose proof (H0 (-5) eq_refl) as Hb0.
  pose proof (Hnext 0%nat _ (-5) Hb0 eq_refl) as Hb1.
  cbv zeta. split; [exact Hb0|]. split; [exact Hb1|]. split.
  - apply (Hpos 0%nat); [rewrite Hrun; lia | exact Hb0].
  - apply Hstop. rewrite Hrun. exact Hb1.
Defined.

End RunwayFacts.

(** ** Budget roll-up *)

Section MonthOrder.

#[global] Instance month_le_total : Total month_le.
Proof. intros [y1 m1] [y2 m2]. unfold month_le. cbn. lia. Qed.

#[global] Instance month_le_trans : Transitive month_le.
Proof. intros [y1 m1] [y2 m2] [y3 m3]. unfold month_le. cbn. lia. Qed.

Lemma month_le_lt (a b : month_key) : month_le a b -> a <> b -> month_lt a b.
Proof.
  destruct a as [y1 m1], b as [y2 m2]. unfold month_le, month_lt. cbn.
  intros H Hne.
  destruct H as [H|[H1 H2]]; [left; exact H|].
  right. split; [exact H1|].
  destruct (Z.eq_dec m1 m2) as [->|]; [subst; contradiction|lia].
Qed.

Lemma StronglySorted_strict (l : list month_key) :
  StronglySorted month_le l -> NoDup l -> StronglySorted month_lt l.
Proof.
  induction 1 as [|a l Hs IH Ha]; intros Hnd; constructor.
  - apply IH. apply NoDup_cons in Hnd. tauto.
  - apply NoDup_cons in Hnd as [Hnotin _].
    rewrite Forall_forall in Ha |- *. intros b Hb.
    apply month_le_lt; [apply Ha; exact Hb|].
    intros ->. contradiction.
Qed.

Lemma update_months_union (acc : gset month_key) (m : gmap month_key Q) :
  update_months acc m = acc ∪ dom m.
Proof.
  unfold update_months. destruct (decide (m = ∅)) as [->|]; [|reflexivity].
  rewrite dom_empty_L, union_empty_r_L. reflexivity.
Qed.

Lemma fillna_merge_or_zero (m : gmap month_key Q) (k : month_key) :
  fillna (merge_or_zero m k) = default 0%Q (m !! k).
Proof.
  unfold fillna, merge_or_zero, merge_left.
  destruct (decide (m = ∅)) as [->|]; [|reflexivity].
  rewrite lookup_empty. reflexivity.
Qed.

End MonthOrder.

Section BudgetFacts.
Import Budget.
Local Open Scope Q_scope.

#[global] Instance row_le_total : Total row_le.
Proof. intros a b. unfold row_le. apply month_le_total. Qed.

#[global] Instance row_le_trans : Transitive row_le.
Proof. intros a b c. unfold row_le. apply month_le_trans. Qed.

Lemma all_months_union (s : series) :
  all_months s
  = dom (income_summary s) ∪ dom (material_summary s) ∪ dom (labor_summary s)
    ∪ dom (admin_summary s) ∪ dom (occasional_income_monthly s)
    ∪ dom (occasional_expense_monthly s).
Proof.
  unfold all_months. rewrite !update_months_union, union_empty_l_L. reflexivity.
Qed.

Lemma budget_months_perm (s : series) :
  map month (budget_summary s) ≡ₚ elements (all_months s).
Proof.
  unfold budget_summary, months_list.
  rewrite (merge_sort_Permutation row_le), map_map. cbn [month make_row].
  rewrite map_id. apply merge_sort_Permutation.
Qed.

(** C5. The budget roll-up. The months of the ledger are exactly the
    months present in any of the six series, each once; every row carries
    for each category the amount of the series at its month, 0 where the
    series has none; totals and gross profit are the sums and the
    difference of the row's own columns; the rows are in strictly
    increasing chronological order. *)
Theorem budget_rollup (s : series) :
  let ledger := budget_summary s in
  (list_to_set (map month ledger) : gset month_key)
  = dom (income_summary s) ∪ dom (material_summary s) ∪ dom (labor_summary s)
    ∪ dom (admin_summary s) ∪ dom (occasional_income_monthly s)
    ∪ dom (occasional_expense_monthly s)
  /\ NoDup (map month ledger)
  /\ Forall (fun row =>
       revenue row = default 0 (income_summary s !! month row)
       /\ material_cost row = default 0 (material_summary s !! month row)
       /\ labor_cost row = default 0 (labor_summary s !! month row)
       /\ admin_cost row = default 0 (admin_summary s !! month row)
       /\ occasional_income row = default 0 (occasional_income_monthly s !! month row)
       /\ occasional_expense row = default 0 (occasional_expense_monthly s !! month row)
       /\ total_revenue row = revenue row + occasional_income row
       /\ total_expense row
          = material_cost row + labor_cost row + admin_cost row + occasional_expense row
       /\ gross_profit row = total_revenue row - total_expense row) ledger
  /\ StronglySorted month_lt (map month ledger).
Proof.
  intros ledger. pose proof (budget_months_perm s) as Hperm. fold ledger in Hperm.
  assert (Hnd : NoDup (map month ledger)).
  { rewrite Hperm. apply NoDup_elements. }
  split.
  { rewrite Hperm, list_to_set_elements_L. apply all_months_union. }
  split; [exact Hnd|]. split.
  - unfold ledger, budget_summary.
    rewrite (merge_sort_Permutation row_le).
    apply Forall_forall. intros row Hrow.
    apply list_elem_of_In in Hrow. apply in_map_iff in Hrow.
    destruct Hrow as (k & <- & _).
    cbn [make_row revenue material_cost labor_cost admin_cost occasional_income
         occasional_expense total_revenue total_expense gross_profit month].
    rewrite !fillna_merge_or_zero. repeat split.
  - apply StronglySorted_strict; [|exact Hnd].
    unfold ledger, budget_summary.
    change (StronglySorted month_le
              (month <$> merge_sort row_le (map (make_row s) (months_list s)))).
    apply (StronglySorted_fmap month row_le month_le);
      [intros a b Hab; exact Hab|].
    apply (StronglySorted_merge_sort row_le).
Qed.

End BudgetFacts.

Section LaborExample.
Import LaborCostManager.
Local Open Scope Q_scope.

(** C1, evaluated on a record that starts and ends inside a month (monthly
    cost 30 from 2025-01-15 to 2025-03-10). The amortizer yields January,
    February and March with 30.00, 30.00 and 9.68: March is prorated to
    its 10 days, January is charged in full although only its days from
    the 15th on lie in the interval, where day-weighting gives
    30 * 17 / 31, about 16.45. *)
Theorem labor_first_month_charged_in_full :
  exists jan feb mar,
    row_costs Examples.partial_months_labor = Some [jan; feb; mar]
    /\ map lc_month [jan; feb; mar] = [(2025, 1); (2025, 2); (2025, 3)]%Z
    /\ lc_amount jan == 30
    /\ lc_amount feb == 30
    /\ lc_amount mar == round2 (30 * 10 / 31)
    /\ lc_amount mar == 9.68
    /\ round2 (30 * 17 / 31) == 16.45
    /\ ~ (lc_amount jan == round2 (30 * 17 / 31)).
Proof.
  do 3 eexists. split; [vm_compute; reflexivity|].
  cbn [lc_amount].
  repeat split; try (vm_compute; reflexivity); vm_compute; discriminate.
Qed.

End LaborExample.

(** ** Stored data and the summary *)

Section SummaryEffect.
Import IncomeManager.

Lemma generate_summary_data_rows (self : t) :
  rows (data (generate_summary_data self)) = rows (data self).
Proof.
  unfold generate_summary_data.
  destruct (rows (data self)) eqn:E; cbn [rows data]; congruence.
Qed.

(** On any frame with rows that does not have the column 交付季度 yet, the
    summary changes the frame. *)
Lemma generate_summary_data_adds_columns (self : t) :
  rows (data self) <> [] ->
  delivery_quarter (data self) = None ->
  data (generate_summary_data self) <> data self.
Proof.
  intros Hrows Hnone Heq. apply (f_equal delivery_quarter) in Heq.
  rewrite Hnone in Heq. unfold generate_summary_data in Heq.
  destruct (rows (data self)); [contradiction|]. discriminate Heq.
Qed.

(** C9, evaluated on a manager that holds one project. Producing the
    income summary leaves the manager's frame different from what it was:
    the rows are the same, but the frame has gained the columns 交付季度,
    交付年份 and 季度. *)
Theorem generate_summary_changes_stored_frame :
  let self := Examples.one_project_manager in
  let after := generate_summary_data self in
  data after <> data self
  /\ rows (data after) = rows (data self)
  /\ delivery_quarter (data self) = None
  /\ delivery_quarter (data after) = Some [1%Z]
  /\ delivery_year (data after) = Some [2026%Z]
  /\ quarter_label (data after) = Some [(2026, 1)%Z].
Proof.
  cbv zeta. split; [|repeat split].
  intros H. apply (f_equal delivery_quarter) in H. discriminate H.
Qed.

End SummaryEffect.

(** ** The runway section and the cash balance *)

Section RunwayGate.
Local Open Scope Q_scope.

Lemma labor_generate_total (data : list LaborCostManager.row) :
  Forall (fun r => valid_date (LaborCostManager.start_date r)
                   /\ valid_date (LaborCostManager.end_date r)) data ->
  is_Some (LaborCostManager.generate_cost_data data).
Proof.
  intros Hv.
  assert (Hall : is_Some (LaborCostManager.all_rows data)).
  { induction Hv as [|r l [[Hs _] He] _ IH]; cbn [LaborCostManager.all_rows]; [eauto|].
    rewrite (row_costs_total r He Hs). destruct IH as [rest ->]. eauto. }
  destruct data; [cbn; eauto | exact Hall].
Qed.

Lemma admin_row_events_total (r : AdminCostManager.row) :
  valid_date (AdminCostManager.start_date r) ->
  valid_date (AdminCostManager.end_date r) ->
  is_Some (AdminCostManager.row_events r).
Proof.
  intros [Hs _] He. unfold AdminCostManager.row_events.
  destruct (String.eqb _ "月度").
  { rewrite replace_day1_first by assumption.
    rewrite while_loop_first;
      [eauto | lia | assumption | apply loop_fuel_enough; lia]. }
  destruct (String.eqb _ "季度").
  { rewrite replace_day1_first by assumption.
    rewrite while_loop_first;
      [eauto | lia | assumption | apply loop_fuel_enough; lia]. }
  destruct (String.eqb _ "年度"); eauto.
Qed.

Lemma admin_generate_total (data : list AdminCostManager.row) :
  Forall (fun r => valid_date (AdminCostManager.start_date r)
                   /\ valid_date (AdminCostManager.end_date r)) data ->
  is_Some (AdminCostManager.generate_cost_data data).
Proof.
  intros Hv.
  assert (Hall : is_Some (AdminCostManager.all_rows data)).
  { induction Hv as [|r l [Hs He] _ IH]; cbn [AdminCostManager.all_rows]; [eauto|].
    destruct (admin_row_events_total r Hs He) as [evs ->].
    destruct IH as [rest ->]. eauto. }
  destruct data; [cbn; eauto | exact Hall].
Qed.

(** C10. The runway section and the cash balance. A projection (balance
    column and runway) is shown only for a cash balance above 0; for a
    balance of 0, the balance of a session without a saved one, or below,
    the section shows a notice and no projection; and for a balance above
    0 and cost records with well-formed dates the projection is shown,
    its balances being the cumulative balances from that cash balance. *)
Theorem runway_needs_positive_balance (st : session_state) :
  (forall p, runway_analysis st = Some (Shown p) -> 0 < current_cash_balance st)
  /\ (forall p, cash_flow_page st = Some (Shown p) -> 0 < current_cash_balance st)
  /\ (current_cash_balance st <= 0 ->
      exists text, runway_analysis st = Some (Notice text))
  /\ (current_cash_balance st == default_cash_balance ->
      exists text, runway_analysis st = Some (Notice text))
  /\ default_cash_balance == 0
  /\ (0 < current_cash_balance st ->
      Forall (fun r => valid_date (LaborCostManager.start_date r)
                       /\ valid_date (LaborCostManager.end_date r)) (labor st) ->
      Forall (fun r => valid_date (AdminCostManager.start_date r)
                       /\ valid_date (AdminCostManager.end_date r)) (admin st) ->
      exists p,
        runway_analysis st = Some (Shown p)
        /\ Runway.balances p
           = Runway.cumulative_balance (current_cash_balance st)
               (map Runway.net_cash_flow (Runway.table p))
        /\ Runway.runway p = Runway.runway_months (Runway.balances p)).
Proof.
  assert (Hgate : forall p, runway_analysis st = Some (Shown p) ->
                            0 < current_cash_balance st).
  { intros p. unfold runway_analysis.
    destruct (Qgtb (current_cash_balance st) 0) eqn:E; [|discriminate].
    intros _. apply Qgtb_lt. exact E. }
  assert (Hclosed : current_cash_balance st <= 0 ->
                    exists text, runway_analysis st = Some (Notice text)).
  { intros Hle. unfold runway_analysis.
    destruct (Qgtb (current_cash_balance st) 0) eqn:E; [|eauto].
    apply Qgtb_lt in E. exfalso. exact (Qlt_not_le _ _ E Hle). }
  split; [exact Hgate|]. split.
  { intros p. unfold cash_flow_page.
    destruct (IncomeManager.rows _); [discriminate|].
    destruct (fst _); [discriminate|]. apply Hgate. }
  split; [exact Hclosed|]. split.
  { intros H0. apply Hclosed. rewrite H0. apply Qle_refl. }
  split; [reflexivity|].
  intros Hpos Hl Ha. unfold runway_analysis.
  apply Qgtb_lt in Hpos. rewrite Hpos.
  unfold runway_series.
  destruct (labor_generate_total _ Hl) as [ldf ->].
  destruct (admin_generate_total _ Ha) as [adf ->].
  eexists. split; [reflexivity|]. split; reflexivity.
Qed.

(** The runway section on the example session: a notice for a balance of
    0, a projection for a balance of 100. *)
Lemma runway_needs_positive_balance_example :
  (exists text, runway_analysis (Examples.session 0) = Some (Notice text))
  /\ (exists p, runway_analysis (Examples.session 100) = Some (Shown p)
                /\ Runway.runway p = Runway.runway_months (Runway.balances p)).
Proof.
  split.
  - destruct (runway_needs_positive_balance (Examples.session 0))
      as (_ & _ & _ & Hdefault & _).
    apply Hdefault. reflexivity.
  - destruct (runway_needs_positive_balance (Examples.session 100))
      as (_ & _ & _ & _ & _ & Hopen).
    destruct Hopen as (p & Hp & Hbal & Hrun).
    + reflexivity.
    + repeat constructor; unfold valid_date; vm_compute; repeat split; discriminate.
    + repeat constructor; unfold valid_date; vm_compute; repeat split; discriminate.
    + exists p. split; [exact Hp | exact Hrun].
Defined.

End RunwayGate.

Section BudgetGate.

(** The budget page shows its ledger exactly when the project frame has
    rows (and the cost generators return). *)
Lemma budget_page_gate (st : session_state) (ledger : list Budget.row) :
  budget_page st = Some (Shown ledger) ->
  IncomeManager.rows (IncomeManager.data (income st)) <> []
  /\ exists s, budget_series st = Some s /\ ledger = Budget.budget_summary s.
Proof.
  unfold budget_page.
  destruct (IncomeManager.rows (IncomeManager.data (income st))); [discriminate|].
  destruct (budget_series st) as [s|]; [|discriminate].
  intros [= <-]. split; [discriminate|]. exists s. split; reflexivity.
Qed.

End BudgetGate.

(** * Further properties *)

(** ** Sums of exact amounts *)

Section Sums.
Local Open Scope Q_scope.

Lemma Qsum_cons (x : Q) (l : list Q) : Qsum (x :: l) = x + Qsum l.
Proof. reflexivity. Qed.

Lemma Qsum_nil : Qsum [] = 0.
Proof. reflexivity. Qed.

Lemma Qsum_app (l1 l2 : list Q) : Qsum (l1 ++ l2) == Qsum l1 + Qsum l2.
Proof.
  induction l1 as [|x l1 IH]; cbn [app].
  - rewrite Qsum_nil. ring.
  - rewrite !Qsum_cons, IH. ring.
Qed.

Lemma Qsum_perm (l1 l2 : list Q) : l1 ≡ₚ l2 -> Qsum l1 == Qsum l2.
Proof.
  induction 1 as [|x l1 l2 _ IH|x y l|l1 l2 l3 _ IH1 _ IH2].
  - reflexivity.
  - rewrite !Qsum_cons, IH. reflexivity.
  - rewrite !Qsum_cons. ring.
  - rewrite IH1. exact IH2.
Qed.

Lemma Qsum_const {A} (f : A -> Q) (c : Q) (l : list A) :
  Forall (fun a => f a == c) l -> Qsum (map f l) == inject_Z (Z.of_nat (length l)) * c.
Proof.
  induction 1 as [|a l Ha _ IH].
  - cbn [map length]. rewrite Qsum_nil. change (inject_Z (Z.of_nat 0)) with 0. ring.
  - cbn [map length]. rewrite Qsum_cons, Ha, IH, Nat2Z.inj_succ.
    unfold Z.succ. rewrite inject_Z_plus. ring.
Qed.

Lemma Qsum_map_plus {A} (f g : A -> Q) (l : list A) :
  Qsum (map (fun a => f a + g a) l) == Qsum (map f l) + Qsum (map g l).
Proof.
  induction l as [|a l IH]; cbn [map]; [rewrite !Qsum_nil; ring|].
  rewrite !Qsum_cons, IH. ring.
Qed.

Lemma Qsum_map_minus {A} (f g : A -> Q) (l : list A) :
  Qsum (map (fun a => f a - g a) l) == Qsum (map f l) - Qsum (map g l).
Proof.
  induction l as [|a l IH]; cbn [map]; [rewrite !Qsum_nil; ring|].
  rewrite !Qsum_cons, IH. ring.
Qed.

Lemma Qsum_nonneg (l : list Q) : Forall (fun x => 0 <= x) l -> 0 <= Qsum l.
Proof.
  induction 1 as [|x l Hx _ IH]; [apply Qle_refl|].
  rewrite Qsum_cons. Lqa.lra.
Qed.

(** Total of a series after one more key. *)
Lemma series_total_insert (m : gmap month_key Q) (k : month_key) (x : Q) :
  m !! k = None -> series_total (<[k := x]> m) == x + series_total m.
Proof.
  intros Hk. unfold series_total.
  rewrite (Qsum_perm _ (map snd ((k, x) :: map_to_list m))).
  - reflexivity.
  - apply Permutation_map. apply map_to_list_insert. exact Hk.
Qed.

Lemma series_total_empty : series_total ∅ == 0.
Proof. unfold series_total. rewrite map_to_list_empty. reflexivity. Qed.

(** Total of a series after adding an amount at a key. *)
Lemma series_total_add (m : gmap month_key Q) (k : month_key) (v : Q) :
  series_total (<[k := default 0 (m !! k) + v]> m) == series_total m + v.
Proof.
  destruct (m !! k) as [x|] eqn:Hk; cbn [default].
  - rewrite <- (insert_delete_eq m k (x + v)).
    rewrite series_total_insert by apply lookup_delete_eq.
    rewrite <- (insert_id m k x Hk) at 2.
    rewrite <- (insert_delete_eq m k x).
    rewrite series_total_insert by apply lookup_delete_eq.
    ring.
  - rewrite series_total_insert by exact Hk. ring.
Qed.

Lemma groupby_sum_total_from {A} (key : A -> month_key) (val : A -> Q)
    (l : list A) (m : gmap month_key Q) :
  series_total
    (foldl (fun m a => <[key a := default 0 (m !! key a) + val a]> m) m l)
  == series_total m + Qsum (map val l).
Proof.
  revert m. induction l as [|a l IH]; intros m; cbn [foldl map].
  - rewrite Qsum_nil. ring.
  - rewrite IH, series_total_add, Qsum_cons. ring.
Qed.

Lemma groupby_sum_dom_from {A} (key : A -> month_key) (val : A -> Q)
    (l : list A) (m : gmap month_key Q) :
  dom (foldl (fun m a => <[key a := default 0 (m !! key a) + val a]> m) m l)
  = dom m ∪ list_to_set (map key l).
Proof.
  revert m. induction l as [|a l IH]; intros m; cbn [foldl map list_to_set].
  - rewrite union_empty_r_L. reflexivity.
  - rewrite IH, dom_insert_L.
    rewrite (union_comm_L {[key a]} (dom m)), <- union_assoc_L. reflexivity.
Qed.

Lemma groupby_sum_lookup_from {A} (key : A -> month_key) (val : A -> Q)
    (l : list A) (m : gmap month_key Q) (k : month_key) :
  default 0
    (foldl (fun m a => <[key a := default 0 (m !! key a) + val a]> m) m l !! k)
  == default 0 (m !! k) + Qsum (map val (filter (fun a => key a = k) l)).
Proof.
  revert m. induction l as [|a l IH]; intros m; cbn [foldl].
  - rewrite filter_nil. cbn [map]. rewrite Qsum_nil. ring.
  - rewrite IH. destruct (decide (key a = k)) as [E|E].
    + rewrite filter_cons_True by exact E. cbn [map]. rewrite Qsum_cons.
      subst k. rewrite lookup_insert_eq.
      change (default 0 (Some ?x)) with x.
      generalize (default 0 (m !! key a)). intros x. ring.
    + rewrite filter_cons_False by exact E.
      rewrite lookup_insert_ne by exact E. reflexivity.
Qed.

Lemma groupby_sum_total {A} (key : A -> month_key) (val : A -> Q) (l : list A) :
  series_total (groupby_sum key val l) == Qsum (map val l).
Proof.
  unfold groupby_sum. rewrite groupby_sum_total_from, series_total_empty. ring.
Qed.

(** X1. Grouping by month loses nothing: the grouped frame has exactly the
    months that occur in the rows, the amount of a month is the sum of the
    amounts of the rows of that month, and the amounts of the grouped frame
    add up to the amounts of all rows. *)
Theorem groupby_sum_conserves {A} (key : A -> month_key) (val : A -> Q) (l : list A) :
  dom (groupby_sum key val l) = list_to_set (map key l)
  /\ (forall k, default 0 (groupby_sum key val l !! k)
                == Qsum (map val (filter (fun a => key a = k) l)))
  /\ series_total (groupby_sum key val l) == Qsum (map val l).
Proof.
  split; [|split].
  - unfold groupby_sum.
    rewrite groupby_sum_dom_from, dom_empty_L, union_empty_l_L. reflexivity.
  - intros k. unfold groupby_sum.
    rewrite groupby_sum_lookup_from, lookup_empty. cbn [default]. ring.
  - apply groupby_sum_total.
Qed.

(** A column read off a series over any duplicate-free list of months that
    covers the series adds up to the total of the series. *)
Lemma Qsum_lookup_cover (m : gmap month_key Q) :
  forall l : list month_key,
    NoDup l -> (forall k, k ∈ dom m -> k ∈ l) ->
    Qsum (map (fun k => default 0 (m !! k)) l) == series_total m.
Proof.
  induction m as [|k x m Hk _ IH] using map_first_key_ind; intros l Hnd Hcover.
  - rewrite series_total_empty.
    rewrite (Qsum_const (fun k => default 0 ((∅ : gmap month_key Q) !! k)) 0).
    + ring.
    + apply Forall_forall. intros a _. rewrite lookup_empty. reflexivity.
  - assert (Hin : k ∈ l).
    { apply Hcover. rewrite dom_insert_L. apply elem_of_union_l, elem_of_singleton. reflexivity. }
    apply list_elem_of_split in Hin as (l1 & l2 & ->).
    rewrite series_total_insert by exact Hk.
    assert (Hperm : l1 ++ k :: l2 ≡ₚ k :: (l1 ++ l2))
      by (symmetry; apply Permutation_middle).
    rewrite (Qsum_perm _ (map (fun k0 => default 0 (<[k:=x]> m !! k0)) (k :: l1 ++ l2)))
      by (apply Permutation_map; exact Hperm).
    rewrite Hperm in Hnd. apply NoDup_cons in Hnd as [Hnotin Hnd].
    cbn [map]. rewrite Qsum_cons, lookup_insert_eq. cbn [default].
    assert (Hmap : map (fun k0 => default 0 (<[k:=x]> m !! k0)) (l1 ++ l2)
                   = map (fun k0 => default 0 (m !! k0)) (l1 ++ l2)).
    { apply map_ext_in. intros a Ha.
      rewrite lookup_insert_ne; [reflexivity|].
      intros ->. apply Hnotin. apply list_elem_of_In. exact Ha. }
    rewrite Hmap. apply Qplus_comp; [reflexivity|].
    apply (IH (l1 ++ l2) Hnd).
    intros k0 Hk0.
    assert (Hk0l : k0 ∈ l1 ++ k :: l2).
    { apply Hcover. rewrite dom_insert_L. apply elem_of_union_r. exact Hk0. }
    rewrite Hperm in Hk0l. apply elem_of_cons in Hk0l as [->|H]; [|exact H].
    apply elem_of_dom in Hk0 as [y Hy]. congruence.
Qed.

End Sums.

(** ** Totals of the budget ledger *)

Section LedgerTotals.
Import Budget.
Local Open Scope Q_scope.

Lemma dom_subseteq_all_months (s : series) :
  dom (income_summary s) ⊆ all_months s
  /\ dom (material_summary s) ⊆ all_months s
  /\ dom (labor_summary s) ⊆ all_months s
  /\ dom (admin_summary s) ⊆ all_months s
  /\ dom (occasional_income_monthly s) ⊆ all_months s
  /\ dom (occasional_expense_monthly s) ⊆ all_months s.
Proof.
  rewrite all_months_union.
  repeat split; intros k Hk; rewrite !elem_of_union; tauto.
Qed.

(** A column of the ledger that reads a series adds up to the series. *)
Lemma budget_column_total (s : series) (col : row -> Q) (m : gmap month_key Q) :
  (forall k, col (make_row s k) = default 0 (m !! k)) ->
  dom m ⊆ all_months s ->
  Qsum (map col (budget_summary s)) == series_total m.
Proof.
  intros Hcol Hdom. unfold budget_summary.
  rewrite (Qsum_perm _ (map col (map (make_row s) (months_list s))))
    by (apply Permutation_map, (merge_sort_Permutation row_le)).
  rewrite map_map.
  rewrite (map_ext _ (fun k => default 0 (m !! k)) Hcol).
  unfold months_list.
  rewrite (Qsum_perm _ (map (fun k => default 0 (m !! k)) (elements (all_months s))))
    by (apply Permutation_map, (merge_sort_Permutation month_le)).
  apply Qsum_lookup_cover; [apply NoDup_elements|].
  intros k Hk. apply elem_of_elements. apply Hdom. exact Hk.
Qed.

Lemma Qsum_rows_ext (f g : row -> Q) (l : list row) :
  Forall (fun r => f r = g r) l -> Qsum (map f l) == Qsum (map g l).
Proof.
  induction 1 as [|r l Hr _ IH]; cbn [map]; [reflexivity|].
  rewrite !Qsum_cons, Hr, IH. reflexivity.
Qed.

Lemma budget_rows_derived (s : series) :
  Forall (fun r =>
    total_revenue r = revenue r + occasional_income r
    /\ total_expense r
       = material_cost r + labor_cost r + admin_cost r + occasional_expense r
    /\ gross_profit r = total_revenue r - total_expense r
    /\ gross_margin r
       = if Qgtb (total_revenue r) 0
         then gross_profit r / total_revenue r * 100 else 0)
    (budget_summary s).
Proof.
  unfold budget_summary. rewrite (merge_sort_Permutation row_le).
  apply Forall_forall. intros r Hr.
  apply list_elem_of_In in Hr. apply in_map_iff in Hr.
  destruct Hr as (k & <- & _). repeat split.
Qed.

(** The columns of the ledger add up to the series they read, and the
    derived columns to the sums of the columns they are computed from. *)
Lemma budget_columns_add_up (s : series) :
  let l := budget_summary s in
  Qsum (map revenue l) == series_total (income_summary s)
  /\ Qsum (map material_cost l) == series_total (material_summary s)
  /\ Qsum (map labor_cost l) == series_total (labor_summary s)
  /\ Qsum (map admin_cost l) == series_total (admin_summary s)
  /\ Qsum (map occasional_income l) == series_total (occasional_income_monthly s)
  /\ Qsum (map occasional_expense l) == series_total (occasional_expense_monthly s)
  /\ Qsum (map total_revenue l)
     == Qsum (map revenue l) + Qsum (map occasional_income l)
  /\ Qsum (map total_expense l)
     == Qsum (map material_cost l) + Qsum (map labor_cost l)
        + Qsum (map admin_cost l) + Qsum (map occasional_expense l)
  /\ Qsum (map gross_profit l)
     == Qsum (map total_revenue l) - Qsum (map total_expense l).
Proof.
  cbv zeta.
  destruct (dom_subseteq_all_months s) as (D1 & D2 & D3 & D4 & D5 & D6).
  pose proof (budget_rows_derived s) as Hder.
  split; [apply budget_column_total; [|exact D1]; intros k; apply fillna_merge_or_zero|].
  split; [apply budget_column_total; [|exact D2]; intros k; apply fillna_merge_or_zero|].
  split; [apply budget_column_total; [|exact D3]; intros k; apply fillna_merge_or_zero|].
  split; [apply budget_column_total; [|exact D4]; intros k; apply fillna_merge_or_zero|].
  split; [apply budget_column_total; [|exact D5]; intros k; apply fillna_merge_or_zero|].
  split; [apply budget_column_total; [|exact D6]; intros k; apply fillna_merge_or_zero|].
  split; [|split].
  - rewrite <- Qsum_map_plus. apply Qsum_rows_ext.
    eapply Forall_impl; [exact Hder|]. intros r (H & _). exact H.
  - rewrite <- !Qsum_map_plus. apply Qsum_rows_ext.
    eapply Forall_impl; [exact Hder|]. intros r (_ & H & _). exact H.
  - rewrite <- Qsum_map_minus. apply Qsum_rows_ext.
    eapply Forall_impl; [exact Hder|]. intros r (_ & _ & H & _). exact H.
Qed.

(** X2. The outer join of the budget page loses nothing and counts nothing
    twice. Over the whole ledger every category column adds up to the total
    of its series, total revenue to revenue plus occasional income, total
    expense to the four cost columns, and the gross profit of the statistics
    is their total revenue minus their total expense. *)
Theorem budget_ledger_conserves (s : series) :
  let stats := BudgetStatistics.summary_statistics (budget_summary s) in
  Qsum (map revenue (budget_summary s)) == series_total (income_summary s)
  /\ BudgetStatistics.total_material stats == series_total (material_summary s)
  /\ BudgetStatistics.total_labor stats == series_total (labor_summary s)
  /\ BudgetStatistics.total_admin stats == series_total (admin_summary s)
  /\ BudgetStatistics.total_occasional_income stats
     == series_total (occasional_income_monthly s)
  /\ BudgetStatistics.total_occasional_expense stats
     == series_total (occasional_expense_monthly s)
  /\ BudgetStatistics.total_income stats
     == series_total (income_summary s) + series_total (occasional_income_monthly s)
  /\ BudgetStatistics.total_expense stats
     == series_total (material_summary s) + series_total (labor_summary s)
        + series_total (admin_summary s) + series_total (occasional_expense_monthly s)
  /\ BudgetStatistics.total_profit stats
     == BudgetStatistics.total_income stats - BudgetStatistics.total_expense stats.
Proof.
  destruct (budget_columns_add_up s) as (C1 & C2 & C3 & C4 & C5 & C6 & T1 & T2 & T3).
  cbv zeta. unfold BudgetStatistics.summary_statistics.
  cbn [BudgetStatistics.total_material BudgetStatistics.total_labor
       BudgetStatistics.total_admin BudgetStatistics.total_occasional_income
       BudgetStatistics.total_occasional_expense BudgetStatistics.total_income
       BudgetStatistics.total_expense BudgetStatistics.total_profit].
  split; [exact C1|]. split; [exact C2|]. split; [exact C3|]. split; [exact C4|].
  split; [exact C5|]. split; [exact C6|].
  split; [rewrite T1, C1, C5; reflexivity|].
  split; [rewrite T2, C2, C3, C4, C6; reflexivity|].
  exact T3.
Qed.

End LedgerTotals.

(** ** Order of the ledgers, margins, and the roll-up of the charts *)

Section LedgerOrder.
Local Open Scope Q_scope.

#[global] Instance month_le_antisym : AntiSymm (=) month_le.
Proof.
  intros [y1 m1] [y2 m2]. unfold month_le. cbn. intros H1 H2.
  f_equal; lia.
Qed.

(** Sorting by the month again leaves rows that are built month by month
    from a sorted list of months as they are. *)
Lemma sort_by_month_id {A : Type} (key : A -> month_key) (mk : month_key -> A)
    (R : relation A) `{!RelDecision R} (l : list month_key) :
  (forall a b, R a b <-> month_le (key a) (key b)) ->
  (forall k, key (mk k) = k) ->
  StronglySorted month_le l ->
  merge_sort R (map mk l) = map mk l.
Proof.
  intros HR Hkey Hsorted.
  assert (Htotal : Total R).
  { intros a b. destruct (month_le_total (key a) (key b)); [left|right]; apply HR; assumption. }
  assert (Htrans : Transitive R).
  { intros a b c Hab Hbc. apply HR. etransitivity; apply HR; eassumption. }
  apply (StronglySorted_unique_strong R).
  - intros x1 x2 Hx1 Hx2 H12 H21.
    rewrite (merge_sort_Permutation R) in Hx1.
    apply list_elem_of_In, in_map_iff in Hx1 as (k1 & <- & _).
    apply list_elem_of_In, in_map_iff in Hx2 as (k2 & <- & _).
    apply HR in H12, H21. rewrite !Hkey in H12, H21.
    f_equal. apply (anti_symm month_le); assumption.
  - apply (StronglySorted_merge_sort R).
  - change (map mk l) with (mk <$> l).
    apply (StronglySorted_fmap mk month_le R); [|exact Hsorted].
    intros a b Hab. apply HR. rewrite !Hkey. exact Hab.
  - apply (merge_sort_Permutation R).
Qed.

Lemma budget_summary_by_month (s : Budget.series) :
  Budget.budget_summary s = map (Budget.make_row s) (Budget.months_list s).
Proof.
  unfold Budget.budget_summary.
  apply (sort_by_month_id Budget.month (Budget.make_row s) Budget.row_le).
  - intros a b. reflexivity.
  - intros k. reflexivity.
  - apply (StronglySorted_merge_sort month_le).
Qed.

Lemma charts_summary_by_month (s : Charts.series) :
  Charts.budget_summary s = map (Charts.make_row s) (Charts.months_list s).
Proof.
  unfold Charts.budget_summary.
  apply (sort_by_month_id Charts.month (Charts.make_row s) Charts.row_le).
  - intros a b. reflexivity.
  - intros k. reflexivity.
  - apply (StronglySorted_merge_sort month_le).
Qed.

Lemma charts_all_months_union (s : Charts.series) :
  Charts.all_months s
  = dom (Charts.income_summary s) ∪ dom (Charts.material_summary s)
    ∪ dom (Charts.labor_summary s) ∪ dom (Charts.admin_summary s).
Proof.
  unfold Charts.all_months. rewrite !update_months_union, union_empty_l_L. reflexivity.
Qed.

Lemma Qgtb_comp (a a' b b' : Q) : a == a' -> b == b' -> Qgtb a b = Qgtb a' b'.
Proof.
  intros Ha Hb. unfold Qgtb. f_equal.
  destruct (Qle_bool a b) eqn:E, (Qle_bool a' b') eqn:E'; try reflexivity.
  - apply Qle_bool_iff in E. rewrite Ha, Hb in E. apply Qle_bool_iff in E. congruence.
  - apply Qle_bool_iff in E'. rewrite <- Ha, <- Hb in E'. apply Qle_bool_iff in E'. congruence.
Qed.

Lemma budget_months_union (s : Budget.series) :
  (list_to_set (map Budget.month (Budget.budget_summary s)) : gset month_key)
  = dom (Budget.income_summary s) ∪ dom (Budget.material_summary s)
    ∪ dom (Budget.labor_summary s) ∪ dom (Budget.admin_summary s)
    ∪ dom (Budget.occasional_income_monthly s)
    ∪ dom (Budget.occasional_expense_monthly s).
Proof.
  rewrite budget_summary_by_month, map_map. cbn [Budget.month Budget.make_row].
  rewrite map_id. unfold Budget.months_list.
  rewrite (merge_sort_Permutation month_le), list_to_set_elements_L.
  apply all_months_union.
Qed.

Lemma charts_months_union (s : Budget.series) :
  (list_to_set (map Charts.month (Charts.budget_summary (Charts.of_budget s)))
     : gset month_key)
  = dom (Budget.income_summary s) ∪ dom (Budget.material_summary s)
    ∪ dom (Budget.labor_summary s) ∪ dom (Budget.admin_summary s).
Proof.
  rewrite charts_summary_by_month, map_map. cbn [Charts.month Charts.make_row].
  rewrite map_id. unfold Charts.months_list.
  rewrite (merge_sort_Permutation month_le), list_to_set_elements_L.
  apply charts_all_months_union.
Qed.

(** X3. The roll-up behind the charts against the ledger of the budget
    page. The charts have a row for exactly the months of the revenue,
    material, labor and administrative series, so the months of the page
    that the charts leave out are the months that only an occasional income
    or expense falls in; and when there is no occasional income and no
    occasional expense the rows of the charts are the rows of the page,
    month by month, with the same revenue, costs, totals, gross profit and
    gross margin. *)
Theorem charts_rollup_against_page (s : Budget.series) :
  let chart_months : gset month_key :=
    list_to_set (map Charts.month (Charts.budget_summary (Charts.of_budget s))) in
  let page_months : gset month_key :=
    list_to_set (map Budget.month (Budget.budget_summary s)) in
  let core_months :=
    dom (Budget.income_summary s) ∪ dom (Budget.material_summary s)
    ∪ dom (Budget.labor_summary s) ∪ dom (Budget.admin_summary s) in
  chart_months = core_months
  /\ (forall k, k ∈ page_months /\ k ∉ chart_months
                <-> (k ∈ dom (Budget.occasional_income_monthly s)
                     \/ k ∈ dom (Budget.occasional_expense_monthly s))
                    /\ k ∉ core_months)
  /\ (Budget.occasional_income_monthly s = ∅ ->
      Budget.occasional_expense_monthly s = ∅ ->
      map Charts.month (Charts.budget_summary (Charts.of_budget s))
      = map Budget.month (Budget.budget_summary s)
      /\ Forall2 same_figures (Charts.budget_summary (Charts.of_budget s))
                              (Budget.budget_summary s)).
Proof.
  cbv zeta. split; [apply charts_months_union|]. split.
  { intros k. rewrite charts_months_union, budget_months_union, !elem_of_union.
    tauto. }
  intros Hoi Hoe.
  assert (Hall : Charts.all_months (Charts.of_budget s) = Budget.all_months s).
  { rewrite charts_all_months_union, all_months_union, Hoi, Hoe, dom_empty_L.
    rewrite !union_empty_r_L. reflexivity. }
  assert (Hmonths : Charts.months_list (Charts.of_budget s) = Budget.months_list s).
  { unfold Charts.months_list, Budget.months_list. rewrite Hall. reflexivity. }
  rewrite charts_summary_by_month, budget_summary_by_month, Hmonths, !map_map.
  split.
  - reflexivity.
  - apply Forall2_fmap. apply Forall_Forall2_diag, Forall_forall. intros k _.
    unfold same_figures.
    cbn [Charts.make_row Budget.make_row Charts.month Budget.month Charts.revenue
         Budget.revenue Charts.material_cost Budget.material_cost Charts.labor_cost
         Budget.labor_cost Charts.admin_cost Budget.admin_cost Charts.total_revenue
         Budget.total_revenue Charts.total_expense Budget.total_expense
         Charts.gross_profit Budget.gross_profit Charts.gross_margin
         Budget.gross_margin Charts.of_budget Charts.income_summary
         Charts.material_summary Charts.labor_summary Charts.admin_summary].
    rewrite Hoi, Hoe.
    assert (H0 : fillna (merge_or_zero (∅ : gmap month_key Q) k) = 0).
    { rewrite fillna_merge_or_zero, lookup_empty. reflexivity. }
    rewrite H0.
    set (r := fillna (merge_or_zero (Budget.income_summary s) k)).
    set (m := fillna (merge_or_zero (Budget.material_summary s) k)).
    set (l := fillna (merge_or_zero (Budget.labor_summary s) k)).
    set (a := fillna (merge_or_zero (Budget.admin_summary s) k)).
    assert (Hr : r == r + 0) by ring.
    assert (He : m + l + a == m + l + a + 0) by ring.
    repeat split; try reflexivity; try assumption.
    + rewrite <- Hr, <- He. reflexivity.
    + rewrite (Qgtb_comp r (r + 0) 0 0 Hr (Qeq_refl 0)).
      destruct (Qgtb (r + 0) 0); [|reflexivity].
      rewrite <- Hr, <- He. reflexivity.
Qed.

End LedgerOrder.

(** ** Gross margin *)

Section Margin.
Local Open Scope Q_scope.

Lemma Qsum_le {A} (f g : A -> Q) (l : list A) :
  Forall (fun a => f a <= g a) l -> Qsum (map f l) <= Qsum (map g l).
Proof.
  induction 1 as [|a l Ha _ IH]; cbn [map]; [apply Qle_refl|].
  rewrite !Qsum_cons. Lqa.lra.
Qed.

Lemma margin_le_100 (r e : Q) :
  0 <= e -> (if Qgtb r 0 then (r - e) / r * 100 else 0) <= 100.
Proof.
  intros He. destruct (Qgtb r 0) eqn:E; [|discriminate].
  apply (proj1 (Qgtb_lt _ _)) in E.
  assert (H : (r - e) / r <= 1).
  { apply Qle_shift_div_r; [exact E|]. Lqa.lra. }
  generalize dependent ((r - e) / r). intros q Hq. Lqa.lra.
Qed.

Lemma lookup_nonneg (m : gmap month_key Q) (k : month_key) :
  map_Forall (fun _ v => 0 <= v) m -> 0 <= default 0 (m !! k).
Proof.
  intros Hm. destruct (m !! k) as [v|] eqn:Hk; cbn [default].
  - exact (Hm k v Hk).
  - apply Qle_refl.
Qed.

(** X4. Gross margin on the budget page. When no cost amount is negative,
    the gross margin of every month is at most 100, it is 0 (not a negative
    figure) in a month whose total revenue is not positive, whatever that
    month costs, and the overall margin under the table is at most 100 as
    well. *)
Theorem gross_margin_at_most_100 (s : Budget.series) :
  map_Forall (fun _ v => 0 <= v) (Budget.material_summary s) ->
  map_Forall (fun _ v => 0 <= v) (Budget.labor_summary s) ->
  map_Forall (fun _ v => 0 <= v) (Budget.admin_summary s) ->
  map_Forall (fun _ v => 0 <= v) (Budget.occasional_expense_monthly s) ->
  Forall (fun r =>
    Budget.gross_margin r <= 100
    /\ (Budget.total_revenue r <= 0 -> Budget.gross_margin r = 0)
    /\ (0 < Budget.total_revenue r ->
        Budget.gross_margin r * Budget.total_revenue r == 100 * Budget.gross_profit r))
    (Budget.budget_summary s)
  /\ BudgetStatistics.avg_margin
       (BudgetStatistics.summary_statistics (Budget.budget_summary s)) <= 100.
Proof.
  intros Hm Hl Ha He.
  assert (Hexp : forall k, 0 <= Budget.total_expense (Budget.make_row s k)).
  { intros k. cbn [Budget.make_row Budget.total_expense].
    rewrite !fillna_merge_or_zero.
    pose proof (lookup_nonneg _ k Hm). pose proof (lookup_nonneg _ k Hl).
    pose proof (lookup_nonneg _ k Ha). pose proof (lookup_nonneg _ k He).
    Lqa.lra. }
  split.
  - rewrite budget_summary_by_month. apply Forall_map, Forall_forall. intros k _.
    specialize (Hexp k). revert Hexp.
    cbn [Budget.make_row Budget.total_expense Budget.total_revenue
         Budget.gross_margin Budget.gross_profit].
    set (r := fillna (merge_or_zero (Budget.income_summary s) k)
              + fillna (merge_or_zero (Budget.occasional_income_monthly s) k)).
    set (e := fillna (merge_or_zero (Budget.material_summary s) k)
              + fillna (merge_or_zero (Budget.labor_summary s) k)
              + fillna (merge_or_zero (Budget.admin_summary s) k)
              + fillna (merge_or_zero (Budget.occasional_expense_monthly s) k)).
    intros Hexp. clearbody r e. split; [|split].
    + apply margin_le_100, Hexp.
    + intros Hr. destruct (Qgtb r 0) eqn:E; [|reflexivity].
      apply (proj1 (Qgtb_lt _ _)) in E. exfalso. Lqa.lra.
    + intros Hr. rewrite (proj2 (Qgtb_lt r 0) Hr). field.
      intros H0. rewrite H0 in Hr. exact (Qlt_irrefl 0 Hr).
  - cbn [BudgetStatistics.summary_statistics BudgetStatistics.avg_margin].
    set (ti := Qsum (map Budget.total_revenue _)).
    set (tp := Qsum (map Budget.gross_profit _)).
    assert (Hp : tp <= ti).
    { subst tp ti. apply Qsum_le. rewrite budget_summary_by_month.
      apply Forall_map, Forall_forall. intros k _.
      specialize (Hexp k). revert Hexp.
      cbn [Budget.make_row Budget.total_expense Budget.total_revenue Budget.gross_profit].
      intros Hexp. Lqa.lra. }
    clearbody ti tp.
    destruct (Qgtb ti 0) eqn:E; [|discriminate].
    apply (proj1 (Qgtb_lt _ _)) in E.
    assert (H : tp / ti <= 1).
    { apply Qle_shift_div_r; [exact E|]. Lqa.lra. }
    generalize dependent (tp / ti). intros q Hq. Lqa.lra.
Qed.

End Margin.

(** ** The runway table: totals, closing balance, and the opening balance *)

Section RunwayTotals.
Import Runway.
Local Open Scope Q_scope.

Lemma runway_all_months_union (s : series) :
  all_months s
  = dom (monthly_income s) ∪ dom (material_monthly s) ∪ dom (labor_monthly s)
    ∪ dom (admin_monthly s) ∪ dom (occasional_income_monthly s)
    ∪ dom (occasional_expense_monthly s).
Proof.
  unfold all_months. rewrite !update_months_union, union_empty_l_L. reflexivity.
Qed.

(** A column of the runway table that reads a series adds up to the series. *)
Lemma runway_column_total (s : series) (col : row -> Q) (m : gmap month_key Q) :
  (forall k, col (make_row s k) = default 0 (m !! k)) ->
  dom m ⊆ all_months s ->
  Qsum (map col (monthly_summary s)) == series_total m.
Proof.
  intros Hcol Hdom. unfold monthly_summary.
  rewrite map_map.
  rewrite (map_ext _ (fun k => default 0 (m !! k)) Hcol).
  unfold months_list.
  rewrite (Qsum_perm _ (map (fun k => default 0 (m !! k)) (elements (all_months s))))
    by (apply Permutation_map, (merge_sort_Permutation month_le)).
  apply Qsum_lookup_cover; [apply NoDup_elements|].
  intros k Hk. apply elem_of_elements. apply Hdom. exact Hk.
Qed.

Lemma balance_recurrence_running (B0 : Q) (net : list Q) (i : nat) (b : Q) :
  balance_recurrence B0 net !! i = Some b -> b == B0 + Qsum (take (S i) net).
Proof.
  revert B0 i. induction net as [|f net IH]; intros B0 i Hb; [discriminate|].
  destruct i as [|i].
  - cbn in Hb. injection Hb as <-. change (take 1 (f :: net)) with [f].
    rewrite Qsum_cons, Qsum_nil. ring.
  - cbn [balance_recurrence] in Hb. rewrite lookup_cons in Hb.
    apply IH in Hb. rewrite Hb.
    change (take (S (S i)) (f :: net)) with (f :: take (S i) net).
    rewrite Qsum_cons. ring.
Qed.

Lemma balance_recurrence_last (B0 : Q) (net : list Q) :
  default B0 (last (balance_recurrence B0 net)) == B0 + Qsum net.
Proof.
  revert B0. induction net as [|f net IH]; intros B0.
  - cbn. ring.
  - cbn [balance_recurrence]. rewrite Qsum_cons.
    destruct (balance_recurrence (B0 + f) net) as [|b l] eqn:E.
    + destruct net; [|discriminate]. cbn. ring.
    + rewrite last_cons_cons. rewrite <- E.
      specialize (IH (B0 + f)). rewrite E in IH |- *.
      destruct (last (b :: l)) as [x|] eqn:El.
      * cbn [default] in *. rewrite IH. ring.
      * rewrite last_None in El. discriminate.
Qed.

(** X5. The runway table and its balance column. The table has one row
    for each month of the six series, in chronological order; the balance
    of each month is the opening balance plus the net cash flows up to that
    month; and the closing balance is the opening balance plus all income
    and occasional income of the series minus all their material, labor,
    administrative and occasional costs: the outer join of the page drops
    no amount and counts none twice. *)
Theorem runway_closing_balance (B0 : Q) (s : series) :
  let p := project B0 s in
  (list_to_set (map month (table p)) : gset month_key)
  = dom (monthly_income s) ∪ dom (material_monthly s) ∪ dom (labor_monthly s)
    ∪ dom (admin_monthly s) ∪ dom (occasional_income_monthly s)
    ∪ dom (occasional_expense_monthly s)
  /\ StronglySorted month_lt (map month (table p))
  /\ length (balances p) = length (table p)
  /\ (forall i b, balances p !! i = Some b ->
        b == B0 + Qsum (take (S i) (map net_cash_flow (table p))))
  /\ default B0 (last (balances p))
     == B0 + series_total (monthly_income s)
           + series_total (occasional_income_monthly s)
        - (series_total (material_monthly s) + series_total (labor_monthly s)
           + series_total (admin_monthly s)
           + series_total (occasional_expense_monthly s)).
Proof.
  cbv zeta.
  assert (Hmonths : map month (table (project B0 s)) = months_list s).
  { cbn [project table]. unfold monthly_summary. rewrite map_map.
    cbn [month make_row]. apply map_id. }
  rewrite Hmonths.
  split.
  { unfold months_list.
    rewrite (merge_sort_Permutation month_le), list_to_set_elements_L.
    apply runway_all_months_union. }
  split.
  { apply StronglySorted_strict.
    - apply (StronglySorted_merge_sort month_le).
    - unfold months_list. rewrite (merge_sort_Permutation month_le).
      apply NoDup_elements. }
  cbn [project balances table]. rewrite cumulative_balance_recurrence.
  split; [rewrite length_balance_recurrence, length_map; reflexivity|].
  split; [intros i b; apply balance_recurrence_running|].
  rewrite balance_recurrence_last.
  assert (Hdom := runway_all_months_union s).
  assert (Hin : forall m : gmap month_key Q, dom m ⊆ dom (monthly_income s) ∪ dom (material_monthly s)
      ∪ dom (labor_monthly s) ∪ dom (admin_monthly s)
      ∪ dom (occasional_income_monthly s) ∪ dom (occasional_expense_monthly s)
      -> dom m ⊆ all_months s) by (intros m Hm; rewrite Hdom; exact Hm).
  rewrite <- (runway_column_total s income (monthly_income s));
    [|intros k; reflexivity
     |apply Hin; intros k Hk; rewrite !elem_of_union; tauto].
  rewrite <- (runway_column_total s occasional_income (occasional_income_monthly s));
    [|intros k; apply fillna_merge_or_zero
     |apply Hin; intros k Hk; rewrite !elem_of_union; tauto].
  rewrite <- (runway_column_total s material_cost (material_monthly s));
    [|intros k; apply fillna_merge_or_zero
     |apply Hin; intros k Hk; rewrite !elem_of_union; tauto].
  rewrite <- (runway_column_total s labor_cost (labor_monthly s));
    [|intros k; apply fillna_merge_or_zero
     |apply Hin; intros k Hk; rewrite !elem_of_union; tauto].
  rewrite <- (runway_column_total s admin_cost (admin_monthly s));
    [|intros k; apply fillna_merge_or_zero
     |apply Hin; intros k Hk; rewrite !elem_of_union; tauto].
  rewrite <- (runway_column_total s occasional_expense (occasional_expense_monthly s));
    [|intros k; apply fillna_merge_or_zero
     |apply Hin; intros k Hk; rewrite !elem_of_union; tauto].
  unfold monthly_summary. rewrite !map_map. cbn [make_row net_cash_flow income
    occasional_income material_cost labor_cost admin_cost occasional_expense].
  generalize (months_list s). intros l.
  induction l as [|k l IH]; cbn [map]; [rewrite !Qsum_nil; ring|].
  rewrite !Qsum_cons.
  Lqa.lra.
Qed.

End RunwayTotals.

Section RunwayBalance.
Import Runway.
Local Open Scope Q_scope.

Lemma runway_recurrence_monotone (net : list Q) :
  forall B0 B0', B0 <= B0' ->
    (runway_months (balance_recurrence B0 net)
     <= runway_months (balance_recurrence B0' net))%nat.
Proof.
  induction net as [|f net IH]; intros B0 B0' HB; [reflexivity|].
  cbn [balance_recurrence runway_months].
  destruct (Qle_bool (B0 + f) 0) eqn:E; [lia|].
  assert (E' : Qle_bool (B0' + f) 0 = false).
  { destruct (Qle_bool (B0' + f) 0) eqn:E'; [|reflexivity].
    apply Qle_bool_iff in E'.
    assert (H : B0 + f <= 0) by Lqa.lra.
    apply Qle_bool_iff in H. congruence. }
  rewrite E'. apply le_n_S, IH. Lqa.lra.
Qed.

(** X6. More cash never shortens the runway: over the same net cash flows
    a larger opening balance gives a runway at least as long. *)
Theorem runway_monotone_in_opening_balance (B0 B0' : Q) (net : list Q) :
  B0 <= B0' ->
  (runway_months (cumulative_balance B0 net)
   <= runway_months (cumulative_balance B0' net))%nat.
Proof.
  intros HB. rewrite !cumulative_balance_recurrence.
  apply runway_recurrence_monotone, HB.
Qed.

Lemma runway_recurrence_full (net : list Q) :
  forall B0, 0 < B0 -> Forall (fun f => 0 <= f) net ->
    runway_months (balance_recurrence B0 net) = length net.
Proof.
  induction net as [|f net IH]; intros B0 HB Hnet; [reflexivity|].
  apply Forall_cons in Hnet as [Hf Hnet].
  cbn [balance_recurrence runway_months length].
  destruct (Qle_bool (B0 + f) 0) eqn:E.
  - apply Qle_bool_iff in E. exfalso. Lqa.lra.
  - rewrite IH; [reflexivity| Lqa.lra | exact Hnet].
Qed.

(** X7. The runway is capped by the table. With a positive opening balance
    and no month of negative net cash flow the runway is the number of
    months of the table, however large the balance is; and whatever the
    flows are, the runway is 0 exactly when the table is empty or the
    balance after its first month is not positive. *)
Theorem runway_capped_by_table (B0 : Q) (net : list Q) :
  0 < B0 ->
  (Forall (fun f => 0 <= f) net ->
   runway_months (cumulative_balance B0 net) = length net)
  /\ (runway_months (cumulative_balance B0 net) = 0%nat
      <-> net = [] \/ exists f rest, net = f :: rest /\ B0 + f <= 0).
Proof.
  intros HB. rewrite cumulative_balance_recurrence. split.
  - apply runway_recurrence_full, HB.
  - destruct net as [|f rest]; cbn [balance_recurrence runway_months].
    + split; [left; reflexivity|reflexivity].
    + destruct (Qle_bool (B0 + f) 0) eqn:E.
      * split; [|reflexivity]. intros _. right. exists f, rest.
        split; [reflexivity|]. apply Qle_bool_iff, E.
      * split; [discriminate|]. intros [H|(f' & rest' & H & Hle)]; [discriminate|].
        injection H as <- <-. apply Qle_bool_iff in Hle. congruence.
Qed.

End RunwayBalance.

(** ** The pages against the stored records *)

Section PagesAndRecords.
Local Open Scope Q_scope.

(** X8. The budget page against the stored records. A session without
    projects gets a notice and no ledger, whatever costs it holds. With
    projects and well-formed cost dates the ledger is shown, and under it
    the total revenue is the corrected revenue of all stored projects plus
    all occasional income, the total expense is the sum of all generated
    material, labor and administrative amounts plus all occasional expense,
    and the gross profit is their difference: grouping by month and joining
    on the month lose nothing. *)
Theorem budget_page_totals_from_records (st : session_state) :
  Forall (fun r => valid_date (LaborCostManager.start_date r)
                   /\ valid_date (LaborCostManager.end_date r)) (labor st) ->
  Forall (fun r => valid_date (AdminCostManager.start_date r)
                   /\ valid_date (AdminCostManager.end_date r)) (admin st) ->
  let projects := IncomeManager.rows (IncomeManager.data (income st)) in
  (projects = [] -> exists text, budget_page st = Some (Notice text))
  /\ (projects <> [] ->
      exists ledger labor_df admin_df,
        budget_page st = Some (Shown ledger)
        /\ LaborCostManager.generate_cost_data (labor st) = Some labor_df
        /\ AdminCostManager.generate_cost_data (admin st) = Some admin_df
        /\ let stats := BudgetStatistics.summary_statistics ledger in
           BudgetStatistics.total_income stats
           == Qsum (map IncomeManager.corrected_revenue projects)
              + Qsum (map oe_amount (occasional_income st))
           /\ BudgetStatistics.total_expense stats
              == Qsum (map IncomeManager.mc_cost
                        (IncomeManager.generate_material_cost_data (income st)))
                 + Qsum (map LaborCostManager.lc_amount labor_df)
                 + Qsum (map AdminCostManager.ac_amount admin_df)
                 + Qsum (map oe_amount (occasional_expense st))
           /\ BudgetStatistics.total_profit stats
              == BudgetStatistics.total_income stats
                 - BudgetStatistics.total_expense stats).
Proof.
  intros Hl Ha projects. subst projects. unfold budget_page. split.
  - intros ->. eauto.
  - intros Hne.
    destruct (IncomeManager.rows (IncomeManager.data (income st))) as [|p ps] eqn:Hrows;
      [congruence|].
    unfold budget_series. rewrite Hrows.
    destruct (labor_generate_total _ Hl) as [ldf ->].
    destruct (admin_generate_total _ Ha) as [adf ->].
    eexists _, ldf, adf. split; [reflexivity|]. split; [reflexivity|].
    split; [reflexivity|].
    match goal with
    | |- context [Budget.budget_summary ?s] =>
        destruct (budget_columns_add_up s)
          as (C1 & C2 & C3 & C4 & C5 & C6 & T1 & T2 & T3)
    end.
    cbn [Budget.income_summary Budget.material_summary Budget.labor_summary
         Budget.admin_summary Budget.occasional_income_monthly
         Budget.occasional_expense_monthly] in C1, C2, C3, C4, C5, C6.
    rewrite groupby_sum_total in C1. rewrite groupby_sum_total in C2.
    rewrite groupby_sum_total in C3. rewrite groupby_sum_total in C4.
    rewrite groupby_sum_total in C5. rewrite groupby_sum_total in C6.
    cbv zeta. unfold BudgetStatistics.summary_statistics.
    cbn [BudgetStatistics.total_income BudgetStatistics.total_expense
         BudgetStatistics.total_profit].
    split; [rewrite T1, C1, C5; reflexivity|].
    split; [rewrite T2, C2, C3, C4, C6; reflexivity|].
    exact T3.
Qed.

End PagesAndRecords.

Section CashFlowTotal.
Import IncomeManager.
Local Open Scope Q_scope.

Lemma project_cash_flow_total (project : Project) :
  get (first_payment_ratio project) 50 + get (second_payment_ratio project) 40
    + get (final_payment_ratio project) 10 == 100 ->
  snd (project_cash_flow project) = []
  /\ length (fst (project_cash_flow project)) = 3%nat
  /\ Qabs (Qsum (map cf_amount (fst (project_cash_flow project)))
           - corrected_revenue project) <= 3 # 200.
Proof.
  intros H100.
  set (p1 := get (first_payment_ratio project) 50) in *.
  set (p2 := get (second_payment_ratio project) 40) in *.
  set (p3 := get (final_payment_ratio project) 10) in *.
  set (R := corrected_revenue project).
  unfold project_cash_flow, ui_bind. fold p1 p2 p3 R.
  assert (E : Qgtb (Qabs (p1 / 100 + p2 / 100 + p3 / 100 - 1)) (1 # 1000) = false).
  { destruct (Qgtb _ _) eqn:E; [|reflexivity].
    apply (proj1 (Qgtb_lt _ _)) in E.
    apply (proj1 (ratio_deviation p1 p2 p3)) in E.
    assert (H0 : p1 + p2 + p3 - 100 == 0) by (rewrite H100; ring).
    rewrite H0 in E. vm_compute in E. discriminate. }
  rewrite E. cbn [fst snd ui_ret st_warning app map cf_amount length].
  split; [reflexivity|]. split; [reflexivity|].
  rewrite !Qsum_cons, Qsum_nil.
  set (x1 := R * (p1 / 100)). set (x2 := R * (p2 / 100)). set (x3 := R * (p3 / 100)).
  pose proof (round2_error x1) as E1.
  pose proof (round2_error x2) as E2.
  pose proof (round2_error x3) as E3.
  apply Qabs_Qle_condition in E1, E2, E3.
  assert (HR : R == x1 + x2 + x3).
  { transitivity (R * (p1 + p2 + p3) / 100); [rewrite H100; field|].
    unfold x1, x2, x3; field. }
  clearbody x1 x2 x3 R. revert E1 E2 E3.
  generalize (round2 x1) (round2 x2) (round2 x3).
  intros a1 a2 a3 [L1 U1] [L2 U2] [L3 U3].
  apply Qabs_Qle_condition. split; Lqa.lra.
Qed.

(** X9. Total cash flow against total revenue, the two figures the
    cash-flow page puts side by side. When the payment ratios of every
    project sum to 100 (a project without ratio columns counts with 50, 40
    and 10), the generator raises no warning, yields three events for each
    project, and the total of all payments differs from the total corrected
    revenue by at most 0.015 for each project. *)
Theorem total_cash_flow_close_to_revenue (self : t) :
  Forall (fun p =>
    get (first_payment_ratio p) 50 + get (second_payment_ratio p) 40
      + get (final_payment_ratio p) 10 == 100) (rows (data self)) ->
  snd (generate_cash_flow_data self) = []
  /\ length (fst (generate_cash_flow_data self))
     = (3 * length (rows (data self)))%nat
  /\ Qabs (Qsum (map cf_amount (fst (generate_cash_flow_data self)))
           - Qsum (map corrected_revenue (rows (data self))))
     <= (3 # 200) * inject_Z (Z.of_nat (length (rows (data self)))).
Proof.
  unfold generate_cash_flow_data. generalize (rows (data self)). intros l Hl.
  destruct (cash_flow_rows_split l) as [-> ->].
  induction Hl as [|p l Hp _ (IHw & IHn & IHs)].
  - cbn [flat_map map length]. split; [reflexivity|]. split; [reflexivity|].
    rewrite Qsum_nil. vm_compute. discriminate.
  - destruct (project_cash_flow_total p Hp) as (Hw & Hn & Hs).
    cbn [flat_map]. rewrite Hw, IHw. split; [reflexivity|].
    rewrite length_app, Hn, IHn. split; [cbn [length]; lia|].
    rewrite map_app, Qsum_app. cbn [map length]. rewrite Qsum_cons.
    rewrite Nat2Z.inj_succ, <- Z.add_1_r, inject_Z_plus.
    apply Qabs_Qle_condition in Hs, IHs. apply Qabs_Qle_condition.
    revert Hs IHs.
    generalize (Qsum (map cf_amount (fst (project_cash_flow p)))).
    generalize (Qsum (map cf_amount (flat_map (fun p => fst (project_cash_flow p)) l))).
    generalize (Qsum (map corrected_revenue l)).
    generalize (inject_Z (Z.of_nat (length l))).
    generalize (corrected_revenue p).
    intros r n T F f [L1 U1] [L2 U2].
    change (inject_Z 1) with 1. split; Lqa.lra.
Qed.

End CashFlowTotal.

(** ** Bounds on what the cost generators charge *)

Section RoundingOrder.
Local Open Scope Q_scope.

Lemma round_half_even_mono (a b : Q) :
  a <= b -> (round_half_even a <= round_half_even b)%Z.
Proof.
  intros Hab.
  destruct (Z.le_gt_cases (round_half_even a) (round_half_even b)) as [H|H];
    [exact H|exfalso].
  assert (H1 : (round_half_even b + 1 <= round_half_even a)%Z) by lia.
  rewrite Zle_Qle in H1.
  rewrite inject_Z_plus in H1. change (inject_Z 1) with 1 in H1.
  pose proof (round_half_even_error a) as Ea.
  pose proof (round_half_even_error b) as Eb.
  apply Qabs_Qle_condition in Ea, Eb.
  assert (Heq : a == b).
  { revert H1 Ea Eb.
    generalize (inject_Z (round_half_even a)) (inject_Z (round_half_even b)).
    intros x y H1 [La Ua] [Lb Ub]. apply Qle_antisym; Lqa.lra. }
  rewrite (round_half_even_comp a b Heq) in H. lia.
Qed.

Lemma round2_mono (a b : Q) : a <= b -> round2 a <= round2 b.
Proof.
  intros Hab. unfold round2.
  assert (H : (round_half_even (a * 100) <= round_half_even (b * 100))%Z).
  { apply round_half_even_mono. Lqa.lra. }
  rewrite Zle_Qle in H. revert H.
  generalize (inject_Z (round_half_even (a * 100)))
             (inject_Z (round_half_even (b * 100))).
  intros x y H. unfold Qdiv. change (/ 100) with (1 # 100). Lqa.lra.
Qed.

Lemma round2_0 : round2 0 == 0.
Proof. vm_compute. reflexivity. Qed.

Lemma Qsum_upper (c : Q) (l : list Q) :
  Forall (fun x => x <= c) l -> Qsum l <= inject_Z (Z.of_nat (length l)) * c.
Proof.
  induction 1 as [|x l Hx _ IH].
  - rewrite Qsum_nil. cbn [length]. change (inject_Z (Z.of_nat 0)) with 0. Lqa.lra.
  - rewrite Qsum_cons. cbn [length].
    rewrite Nat2Z.inj_succ, <- Z.add_1_r, inject_Z_plus. change (inject_Z 1) with 1.
    revert IH. generalize (inject_Z (Z.of_nat (length l))) (Qsum l).
    intros n T IH. Lqa.lra.
Qed.

End RoundingOrder.

Section LaborBounds.
Import LaborCostManager.
Local Open Scope Q_scope.

Lemma month_fraction (r : row) (i : Z) :
  valid_date (end_date r) -> (i <= month_index (end_date r))%Z ->
  let dim := days_in_month (i / 12) (i mod 12 + 1) in
  let f := inject_Z (if (i <? month_index (end_date r))%Z
                     then dim else day (end_date r)) / inject_Z dim in
  0 <= f <= 1
  /\ ((i <? month_index (end_date r))%Z = true
      \/ day (end_date r)
         = days_in_month (year (end_date r)) (month (end_date r)) -> f == 1).
Proof.
  intros [Hm Hd] Hi dim f.
  pose proof (days_in_month_bounds (i / 12) (i mod 12 + 1)) as Hdim. fold dim in Hdim.
  assert (Hpos : 0 < inject_Z dim).
  { change 0 with (inject_Z 0). rewrite <- Zlt_Qlt. lia. }
  assert (Hone : inject_Z dim / inject_Z dim == 1).
  { field. intros H0. rewrite H0 in Hpos. exact (Qlt_irrefl 0 Hpos). }
  subst f. destruct (i <? month_index (end_date r))%Z eqn:E.
  - rewrite Hone. split; [split; Lqa.lra|]. intros _. reflexivity.
  - apply Z.ltb_ge in E.
    assert (Hi' : i = month_index (end_date r)) by lia.
    assert (Hdim' : dim = days_in_month (year (end_date r)) (month (end_date r))).
    { subst dim. rewrite Hi'.
      assert (Hq : (month_index (end_date r) / 12 = year (end_date r)
                    /\ month_index (end_date r) mod 12 + 1 = month (end_date r))%Z)
        by (unfold month_index; Z.div_mod_to_equations; lia).
      destruct Hq as [-> ->]. reflexivity. }
    split.
    + split.
      * apply Qle_shift_div_l; [exact Hpos|]. rewrite Qmult_0_l.
        change 0 with (inject_Z 0). rewrite <- Zle_Qle. lia.
      * apply Qle_shift_div_r; [exact Hpos|]. rewrite Qmult_1_l.
        rewrite <- Zle_Qle. rewrite Hdim'. lia.
    + intros [H|H]; [discriminate|]. rewrite H, <- Hdim'. exact Hone.
Qed.

(** X10. What a labor record can cost. For a record with well-formed dates
    and a non-negative monthly cost [M] the amortizer returns one entry for
    each calendar month from the month of the start to the month of the end
    (none when the end lies in an earlier month than the start), every entry
    is between 0 and [M] rounded to two decimals, so the record never costs
    more than that for each of its months, and when the end date is the last
    day of its month every entry is [M] rounded to two decimals. *)
Theorem labor_cost_bounded_by_monthly_cost (r : row) :
  valid_date (start_date r) -> valid_date (end_date r) ->
  0 <= monthly_cost r ->
  let n := Z.max 0 (month_index (end_date r) - month_index (start_date r) + 1) in
  exists entries,
    row_costs r = Some entries
    /\ Z.of_nat (length entries) = n
    /\ Forall (fun en => 0 <= lc_amount en <= round2 (monthly_cost r)) entries
    /\ Qsum (map lc_amount entries) <= inject_Z n * round2 (monthly_cost r)
    /\ (day (end_date r) = days_in_month (year (end_date r)) (month (end_date r)) ->
        Forall (fun en => lc_amount en == round2 (monthly_cost r)) entries).
Proof.
  intros Hs He HM n.
  destruct (labor_amortization_from_first_day r Hs He)
    as (entries & Hrun & _ & Hamounts).
  exists entries. split; [exact Hrun|].
  assert (Hlen : Z.of_nat (length entries) = n).
  { rewrite <- (length_map lc_amount), Hamounts, length_map, length_seqZ.
    subst n. lia. }
  split; [exact Hlen|].
  assert (Hbound : Forall (fun a => 0 <= a <= round2 (monthly_cost r))
                     (map lc_amount entries)
                   /\ (day (end_date r)
                       = days_in_month (year (end_date r)) (month (end_date r)) ->
                       Forall (fun a => a == round2 (monthly_cost r))
                         (map lc_amount entries))).
  { rewrite Hamounts. split; [|intros Hlast];
      apply Forall_forall; intros a Ha;
      apply list_elem_of_In, in_map_iff in Ha; destruct Ha as (i & <- & Hi);
      apply list_elem_of_In, elem_of_seqZ in Hi;
      assert (Hie : (i <= month_index (end_date r))%Z) by lia;
      destruct (month_fraction r i He Hie) as [[Hf0 Hf1] Hfull];
      cbv zeta in *; revert Hf0 Hf1 Hfull;
      generalize (inject_Z (if (i <? month_index (end_date r))%Z
                            then days_in_month (i / 12) (i mod 12 + 1)
                            else day (end_date r))
                  / inject_Z (days_in_month (i / 12) (i mod 12 + 1)));
      intros f Hf0 Hf1 Hfull.
    - split.
      + rewrite <- round2_0. apply round2_mono. generalize dependent (monthly_cost r). intros M HM. Lqa.nra.
      + apply round2_mono. generalize dependent (monthly_cost r). intros M HM. Lqa.nra.
    - apply round2_comp. rewrite Hfull by (right; exact Hlast). ring. }
  destruct Hbound as [Hb Hfull].
  split; [apply Forall_map in Hb; exact Hb|]. split.
  - rewrite <- Hlen, <- (length_map lc_amount). apply Qsum_upper.
    eapply Forall_impl; [exact Hb|]. intros a [_ H]. exact H.
  - intros Hlast. specialize (Hfull Hlast). apply Forall_map in Hfull. exact Hfull.
Qed.

End LaborBounds.

Section AdminTotals.
Import AdminCostManager.
Local Open Scope Q_scope.

Lemma Qsum_events (r : row) (amount : Q) (f : Z -> date) (l : list Z) :
  Qsum (map ac_amount (map (fun j => event r amount (f j)) l))
  == inject_Z (Z.of_nat (length l)) * amount.
Proof.
  rewrite map_map. apply Qsum_const. apply Forall_forall. intros j _. reflexivity.
Qed.

(** X11. Administrative costs are charged in whole periods. With
    well-formed dates a monthly record of [n] calendar months is charged
    [n] times its monthly cost rounded to two decimals; a quarterly record
    is charged a whole quarter for every third month from its start that is
    not after its end, which is as much as between [n] and [n + 2] months:
    up to two months beyond its end date; a record whose frequency is none
    of 月度, 季度 and 年度 is charged nothing. *)
Theorem admin_charged_in_whole_periods (r : row) :
  valid_date (start_date r) -> valid_date (end_date r) ->
  let d := (month_index (end_date r) - month_index (start_date r))%Z in
  let n := Z.max 0 (d + 1) in
  let q := Z.max 0 (d / 3 + 1) in
  (payment_frequency r = "月度" ->
   exists evs,
     row_events r = Some evs
     /\ Z.of_nat (length evs) = n
     /\ Qsum (map ac_amount evs) == inject_Z n * round2 (monthly_cost r))
  /\ (payment_frequency r = "季度" ->
      exists evs,
        row_events r = Some evs
        /\ Z.of_nat (length evs) = q
        /\ Qsum (map ac_amount evs) == inject_Z q * round2 (monthly_cost r * 3)
        /\ (n <= 3 * q <= n + 2)%Z)
  /\ (payment_frequency r <> "月度" -> payment_frequency r <> "季度" ->
      payment_frequency r <> "年度" -> row_events r = Some []).
Proof.
  intros [Hsm _] Hev d n q. split; [|split].
  - intros Hf. unfold row_events. rewrite Hf.
    change ("月度" =? "月度")%string with true. cbn iota.
    rewrite replace_day1_first by assumption.
    rewrite while_loop_first;
      [ | lia | assumption | apply loop_fuel_enough; lia ].
    fold d. rewrite Z.div_1_r.
    eexists. split; [reflexivity|].
    assert (Hlen : Z.of_nat (length (seqZ 0 (d + 1))) = n)
      by (rewrite length_seqZ; subst n; lia).
    split; [rewrite length_map; exact Hlen|].
    rewrite Qsum_events, Hlen. reflexivity.
  - intros Hf. unfold row_events. rewrite Hf.
    change ("季度" =? "月度")%string with false.
    change ("季度" =? "季度")%string with true. cbn iota.
    rewrite replace_day1_first by assumption.
    rewrite while_loop_first;
      [ | lia | assumption | apply loop_fuel_enough; lia ].
    fold d.
    eexists. split; [reflexivity|].
    assert (Hlen : Z.of_nat (length (seqZ 0 (d / 3 + 1))) = q)
      by (rewrite length_seqZ; subst q; lia).
    split; [rewrite length_map; exact Hlen|].
    split; [rewrite Qsum_events, Hlen; reflexivity|].
    subst n q. Z.div_mod_to_equations. lia.
  - intros H1 H2 H3. unfold row_events.
    apply String.eqb_neq in H1, H2, H3. rewrite H1, H2, H3. reflexivity.
Qed.

End AdminTotals.

(** ** The stored project frame *)

Section StoreFacts.
Import IncomeManager ProjectStore.
Local Open Scope Q_scope.

Lemma same_reading_trans (p q r : Project) :
  same_reading p q -> same_reading q r -> same_reading p r.
Proof.
  intros (A1 & A2 & A3 & A4 & A5 & A6 & A7 & A8) (B1 & B2 & B3 & B4 & B5 & B6 & B7 & B8).
  repeat split; congruence.
Qed.

Lemma same_reading_cash_flow (p p' : Project) :
  same_reading p p' -> project_cash_flow p = project_cash_flow p'.
Proof.
  intros (A1 & A2 & A3 & A4 & A5 & A6 & A7 & A8).
  unfold project_cash_flow. rewrite A1, A2, A3, A5, A6, A7, A8. reflexivity.
Qed.

Lemma same_reading_material (self : t) (p p' : Project) :
  same_reading p p' -> project_material_cost self p = project_material_cost self p'.
Proof.
  intros (A1 & A2 & A3 & A4 & A5 & _).
  unfold project_material_cost. rewrite A1, A2, A3, A5. reflexivity.
Qed.

Lemma has_column_false (col : Project -> option Q) (df : list entry) :
  has_column col df = false -> Forall (fun e => col (fields e) = None) df.
Proof.
  unfold has_column. induction df as [|e df IH]; cbn [existsb]; [constructor|].
  intros H. apply orb_false_iff in H as [He Hdf].
  constructor; [|apply IH, Hdf].
  apply bool_decide_eq_false in He. destruct (col (fields e)); [|reflexivity].
  exfalso. apply He. eauto.
Qed.

Lemma same_rows_refl (df : list entry) : same_rows df df.
Proof.
  apply Forall_Forall2_diag, Forall_forall. intros e _.
  repeat split.
Qed.

Lemma same_rows_trans (a b c : list entry) :
  same_rows a b -> same_rows b c -> same_rows a c.
Proof.
  unfold same_rows. intros H. revert c.
  induction H as [|x y a b (X1 & X2 & X3 & X4) _ IH]; intros c Hc.
  - inversion Hc. constructor.
  - inversion Hc as [|y' z b' c' (Y1 & Y2 & Y3 & Y4) Hbc]; subst.
    constructor; [|apply IH, Hbc].
    split; [congruence|]. split; [congruence|]. split; [congruence|].
    eapply same_reading_trans; eassumption.
Qed.

Lemma ensure_one_column (col : Project -> option Q) (set : entry -> entry)
    (df : list entry) :
  (forall e, col (fields e) = None ->
     ID e = ID (set e) /\ delivery_month e = delivery_month (set e)
     /\ month_count e = month_count (set e)
     /\ same_reading (fields e) (fields (set e))) ->
  same_rows df (if has_column col df then df else map set df).
Proof.
  intros Hset. destruct (has_column col df) eqn:E; [apply same_rows_refl|].
  apply has_column_false in E. unfold same_rows.
  induction E as [|e df He _ IH]; cbn [map]; constructor; [|exact IH].
  apply Hset, He.
Qed.

Lemma ensure_same_rows (df : list entry) :
  same_rows df (ensure_columns_compatibility df).
Proof.
  unfold ensure_columns_compatibility.
  eapply same_rows_trans; [|eapply same_rows_trans].
  - apply (ensure_one_column first_payment_ratio (set_first_payment_ratio 50)).
    intros e He. repeat split. cbn. rewrite He. reflexivity.
  - apply (ensure_one_column second_payment_ratio (set_second_payment_ratio 40)).
    intros e He. repeat split. cbn. rewrite He. reflexivity.
  - apply (ensure_one_column final_payment_ratio (set_final_payment_ratio 10)).
    intros e He. repeat split. cbn. rewrite He. reflexivity.
Qed.

Lemma same_rows_cash_flow (df df' : list entry) :
  same_rows df df' ->
  cash_flow_rows (map fields df) = cash_flow_rows (map fields df').
Proof.
  induction 1 as [|e e' df df' (_ & _ & _ & H) _ IH]; [reflexivity|].
  cbn [map cash_flow_rows]. rewrite IH, (same_reading_cash_flow _ _ H). reflexivity.
Qed.

Lemma same_rows_material (self : t) (df df' : list entry) :
  same_rows df df' ->
  map (project_material_cost self) (map fields df)
  = map (project_material_cost self) (map fields df').
Proof.
  induction 1 as [|e e' df df' (_ & _ & _ & H) _ IH]; [reflexivity|].
  cbn [map]. rewrite IH, (same_reading_material self _ _ H). reflexivity.
Qed.

Lemma same_rows_ID (df df' : list entry) :
  same_rows df df' -> map ID df = map ID df'.
Proof.
  induction 1 as [|e e' df df' (H & _) _ IH]; [reflexivity|].
  cbn [map]. rewrite IH, H. reflexivity.
Qed.

Lemma has_column_map_set (col : Project -> option Q) (set : entry -> entry)
    (df : list entry) :
  df <> [] -> (forall e, is_Some (col (fields (set e)))) ->
  has_column col (map set df) = true.
Proof.
  intros Hne Hset. destruct df as [|e df]; [congruence|].
  unfold has_column. cbn [map existsb].
  rewrite bool_decide_eq_true_2 by apply Hset. reflexivity.
Qed.

Lemma has_column_preserved (col : Project -> option Q) (set : entry -> entry)
    (df : list entry) :
  (forall e, col (fields (set e)) = col (fields e)) ->
  has_column col (map set df) = has_column col df.
Proof.
  intros Hset. unfold has_column. induction df as [|e df IH]; [reflexivity|].
  cbn [map existsb]. rewrite IH, Hset. reflexivity.
Qed.

Lemma ensure_has_columns (df : list entry) :
  df <> [] ->
  has_column first_payment_ratio (ensure_columns_compatibility df) = true
  /\ has_column second_payment_ratio (ensure_columns_compatibility df) = true
  /\ has_column final_payment_ratio (ensure_columns_compatibility df) = true.
Proof.
  intros Hne. unfold ensure_columns_compatibility.
  set (d1 := if has_column first_payment_ratio df then df
             else map (set_first_payment_ratio 50) df).
  assert (H1 : has_column first_payment_ratio d1 = true /\ d1 <> []).
  { subst d1. destruct (has_column first_payment_ratio df) eqn:E.
    - split; assumption.
    - split; [apply has_column_map_set; [assumption|intros e; cbn; eauto]|].
      destruct df; [congruence|discriminate]. }
  destruct H1 as [H1 Hne1]. clearbody d1.
  set (d2 := if has_column second_payment_ratio d1 then d1
             else map (set_second_payment_ratio 40) d1).
  assert (H2 : has_column first_payment_ratio d2 = true
               /\ has_column second_payment_ratio d2 = true /\ d2 <> []).
  { subst d2. destruct (has_column second_payment_ratio d1) eqn:E.
    - repeat split; assumption.
    - split; [rewrite has_column_preserved; [assumption|reflexivity]|].
      split; [apply has_column_map_set; [assumption|intros e; cbn; eauto]|].
      destruct d1; [congruence|discriminate]. }
  destruct H2 as (H21 & H22 & Hne2). clearbody d2.
  destruct (has_column final_payment_ratio d2) eqn:E.
  - repeat split; assumption.
  - split; [rewrite has_column_preserved; [assumption|reflexivity]|].
    split; [rewrite has_column_preserved; [assumption|reflexivity]|].
    apply has_column_map_set; [assumption|intros e; cbn; eauto].
Qed.

Lemma ensure_column_present (col : Project -> option Q) (set : entry -> entry)
    (df : list entry) :
  (forall e, is_Some (col (fields (set e)))) ->
  whole_column col df ->
  Forall (fun e => is_Some (col (fields e)))
         (if has_column col df then df else map set df).
Proof.
  intros Hset Hwhole. destruct (has_column col df) eqn:E.
  - destruct Hwhole as [H|H]; [exact H|].
    exfalso. clear Hset. unfold has_column in E.
    induction H as [|e df He _ IH]; [discriminate|].
    cbn [existsb] in E. apply orb_true_iff in E as [E|E]; [|exact (IH E)].
    apply bool_decide_eq_true in E. rewrite He in E. destruct E. discriminate.
  - apply Forall_map, Forall_forall. intros e _. apply Hset.
Qed.

Lemma ensure_column_other (col : Project -> option Q) (P : option Q -> Prop)
    (col' : Project -> option Q) (set : entry -> entry) (df : list entry) :
  (forall e, col (fields (set e)) = col (fields e)) ->
  Forall (fun e => P (col (fields e))) df ->
  Forall (fun e => P (col (fields e)))
         (if has_column col' df then df else map set df).
Proof.
  intros Hset H. destruct (has_column col' df); [exact H|].
  apply Forall_map. eapply Forall_impl; [exact H|].
  intros e He. cbn beta. rewrite Hset. exact He.
Qed.

Lemma whole_column_other (col col' : Project -> option Q) (set : entry -> entry)
    (df : list entry) :
  (forall e, col (fields (set e)) = col (fields e)) ->
  whole_column col df ->
  whole_column col (if has_column col' df then df else map set df).
Proof.
  intros Hset [H|H]; [left|right].
  - apply (ensure_column_other col is_Some col' set df Hset H).
  - apply (ensure_column_other col (fun c => c = None) col' set df Hset H).
Qed.

Lemma ensure_has_ratio_columns (df : list entry) :
  whole_columns df -> has_ratio_columns (ensure_columns_compatibility df).
Proof.
  intros (W1 & W2 & W3). unfold ensure_columns_compatibility.
  set (d1 := if has_column first_payment_ratio df then df
             else map (set_first_payment_ratio 50) df).
  assert (H11 : Forall (fun e => is_Some (first_payment_ratio (fields e))) d1).
  { apply ensure_column_present; [intros e; cbn; eauto|exact W1]. }
  assert (W12 : whole_column second_payment_ratio d1).
  { apply whole_column_other; [reflexivity|exact W2]. }
  assert (W13 : whole_column final_payment_ratio d1).
  { apply whole_column_other; [reflexivity|exact W3]. }
  clearbody d1.
  set (d2 := if has_column second_payment_ratio d1 then d1
             else map (set_second_payment_ratio 40) d1).
  assert (H21 : Forall (fun e => is_Some (first_payment_ratio (fields e))) d2).
  { apply (ensure_column_other first_payment_ratio is_Some); [reflexivity|exact H11]. }
  assert (H22 : Forall (fun e => is_Some (second_payment_ratio (fields e))) d2).
  { apply ensure_column_present; [intros e; cbn; eauto|exact W12]. }
  assert (W23 : whole_column final_payment_ratio d2).
  { apply whole_column_other; [reflexivity|exact W13]. }
  clearbody d2.
  set (d3 := if has_column final_payment_ratio d2 then d2
             else map (set_final_payment_ratio 10) d2).
  assert (H31 : Forall (fun e => is_Some (first_payment_ratio (fields e))) d3).
  { apply (ensure_column_other first_payment_ratio is_Some); [reflexivity|exact H21]. }
  assert (H32 : Forall (fun e => is_Some (second_payment_ratio (fields e))) d3).
  { apply (ensure_column_other second_payment_ratio is_Some); [reflexivity|exact H22]. }
  assert (H33 : Forall (fun e => is_Some (final_payment_ratio (fields e))) d3).
  { apply ensure_column_present; [intros e; cbn; eauto|exact W23]. }
  clearbody d3. unfold has_ratio_columns.
  rewrite Forall_forall in H31, H32, H33. apply Forall_forall. intros e He.
  split; [apply H31, He|]. split; [apply H32, He|apply H33, He].
Qed.

Lemma has_ratio_columns_whole (df : list entry) :
  has_ratio_columns df -> whole_columns df.
Proof.
  intros H. unfold has_ratio_columns in H. rewrite Forall_forall in H.
  split; [|split]; left; apply Forall_forall; intros e He;
    destruct (H e He) as (H1 & H2 & H3); assumption.
Qed.

(** X12. Adding the missing ratio columns changes no figure. The defaults
    that [ensure_columns_compatibility] writes are the defaults the
    cash-flow generator reads for a missing column, so the generator yields
    the same events and the same warnings on the frame with the columns
    added, and the material costs are the same; a frame that has each ratio
    column in all of its rows or in none has the three columns in every row
    afterwards, and ensuring twice is ensuring once. *)
Theorem ensure_columns_keeps_cash_flow (self : t) (df : list entry) :
  cash_flow_rows (map fields (ensure_columns_compatibility df))
  = cash_flow_rows (map fields df)
  /\ map (project_material_cost self) (map fields (ensure_columns_compatibility df))
     = map (project_material_cost self) (map fields df)
  /\ map ID (ensure_columns_compatibility df) = map ID df
  /\ (whole_columns df -> has_ratio_columns (ensure_columns_compatibility df))
  /\ ensure_columns_compatibility (ensure_columns_compatibility df)
     = ensure_columns_compatibility df.
Proof.
  pose proof (ensure_same_rows df) as H.
  split; [symmetry; apply same_rows_cash_flow, H|].
  split; [symmetry; apply same_rows_material, H|].
  split; [symmetry; apply same_rows_ID, H|].
  split; [apply ensure_has_ratio_columns|].
  destruct df as [|e df]; [reflexivity|].
  destruct (ensure_has_columns (e :: df)) as (H1 & H2 & H3); [discriminate|].
  generalize dependent (ensure_columns_compatibility (e :: df)). intros d _ H1 H2 H3.
  unfold ensure_columns_compatibility. rewrite H1, H2, H3. reflexivity.
Qed.

End StoreFacts.

Section StoreOperations.
Import IncomeManager ProjectStore.
Local Open Scope Q_scope.

Lemma two_decimals_round2 (q : Q) : two_decimals (round2 q).
Proof.
  apply two_decimals_cents. exists (round_half_even (q * 100)). reflexivity.
Qed.

(** X13. The form "新增销售项目". The button refuses an empty project name
    and any three ratios that do not sum to exactly 100, leaving the stored
    frame as it is; otherwise it appends one row, after the rows already
    stored. The row it appends has a corrected revenue of two decimals and
    ratios that sum to 100, so the cash-flow generator raises no warning for
    it and its three payments add up to its corrected revenue within
    0.015. *)
Theorem add_project_validates_ratios (new_id : string) (f : form) (data : list entry) :
  let total := (form_first_payment_ratio f + form_second_payment_ratio f
                + form_final_payment_ratio f)%Z in
  let e := new_project new_id f in
  (form_project_name f = ""%string ->
   exists msg, add_project new_id f data = Rejected msg)
  /\ (total <> 100%Z -> exists msg, add_project new_id f data = Rejected msg)
  /\ (form_project_name f <> ""%string -> total = 100%Z ->
      add_project new_id f data = Saved (data ++ [e])
      /\ ratios_sum_to_100 e
      /\ two_decimals (corrected_revenue (fields e))
      /\ snd (project_cash_flow (fields e)) = []
      /\ Qabs (Qsum (map cf_amount (fst (project_cash_flow (fields e))))
               - corrected_revenue (fields e)) <= 3 # 200).
Proof.
  intros total e. unfold add_project. fold total. split; [|split].
  - intros ->. cbn. eauto.
  - intros Hne. destruct (String.eqb _ _); [eauto|].
    apply Z.eqb_neq in Hne. rewrite Hne. cbn. eauto.
  - intros Hname Htotal. apply String.eqb_neq in Hname. rewrite Hname.
    rewrite Htotal. cbn [Z.eqb Pos.eqb negb].
    assert (Hsum : ratios_sum_to_100 e).
    { unfold ratios_sum_to_100. subst e.
      change (inject_Z (form_first_payment_ratio f)
              + inject_Z (form_second_payment_ratio f)
              + inject_Z (form_final_payment_ratio f) == 100).
      rewrite <- !inject_Z_plus. fold total. rewrite Htotal. reflexivity. }
    split; [destruct data; reflexivity|].
    split; [exact Hsum|].
    split; [apply two_decimals_round2|].
    destruct (project_cash_flow_total (fields e) Hsum) as (Hw & _ & Hs).
    split; assumption.
Qed.

Lemma assign_edited_ID (row : edited_row) (e : entry) : ID (assign_edited row e) = ID e.
Proof. reflexivity. Qed.

Lemma update_row_ID (data : list entry) (row : edited_row) :
  map ID (update_row data row) = map ID data.
Proof.
  unfold update_row.
  destruct (list_find _ data) as [[idx e]|] eqn:E; [|reflexivity].
  apply list_find_Some in E as (Hidx & _ & _).
  change (map ID (<[idx := assign_edited row e]> data))
    with (ID <$> <[idx := assign_edited row e]> data).
  rewrite list_fmap_insert. apply list_insert_id.
  rewrite list_lookup_fmap, Hidx. reflexivity.
Qed.

Lemma update_projects_ID (edited : list edited_row) (data : list entry) :
  map ID (update_projects data edited) = map ID data.
Proof.
  revert data. induction edited as [|row edited IH]; intros data; [reflexivity|].
  unfold update_projects in *. cbn [foldl]. rewrite IH. apply update_row_ID.
Qed.

Lemma lookup_ID (data : list entry) (i : nat) (e : entry) :
  data !! i = Some e -> map ID data !! i = Some (ID e).
Proof.
  intros H. change (map ID data) with (ID <$> data).
  rewrite list_lookup_fmap, H. reflexivity.
Qed.

(** One turn of the loop on a frame with unique IDs. *)
Lemma update_row_lookup (data : list entry) (row : edited_row) (i : nat) (e : entry) :
  NoDup (map ID data) -> data !! i = Some e ->
  update_row data row !! i
  = Some (if decide (ID e = ed_ID row) then assign_edited row e else e).
Proof.
  intros Hnd Hi. unfold update_row.
  destruct (list_find _ data) as [[idx x]|] eqn:E.
  - apply list_find_Some in E as (Hidx & Hx & _).
    destruct (decide (ID e = ed_ID row)) as [He|He].
    + assert (idx = i).
      { apply (NoDup_lookup (map ID data) idx i (ID e)); [exact Hnd| |].
        - rewrite (lookup_ID _ _ _ Hidx). congruence.
        - apply lookup_ID, Hi. }
      subst idx. assert (x = e) by congruence. subst x.
      apply list_lookup_insert_eq. apply lookup_lt_Some in Hi. exact Hi.
    + assert (idx <> i) by (intros ->; congruence).
      rewrite list_lookup_insert_ne by assumption. exact Hi.
  - apply list_find_None in E.
    destruct (decide (ID e = ed_ID row)) as [He|He]; [|exact Hi].
    exfalso. rewrite Forall_forall in E. apply (E e); [|exact He].
    apply list_elem_of_lookup. eauto.
Qed.

Lemma update_projects_untouched (edited : list edited_row) (data : list entry)
    (i : nat) (e : entry) :
  NoDup (map ID data) -> data !! i = Some e ->
  ID e ∉ map ed_ID edited ->
  update_projects data edited !! i = Some e.
Proof.
  revert data. induction edited as [|row edited IH]; intros data Hnd Hi Hnot;
    [exact Hi|].
  unfold update_projects in *. cbn [foldl].
  cbn [map] in Hnot. apply not_elem_of_cons in Hnot as [Hne Hnot].
  apply IH; [rewrite update_row_ID; exact Hnd| |exact Hnot].
  rewrite (update_row_lookup data row i e Hnd Hi).
  destruct (decide (ID e = ed_ID row)); [congruence|reflexivity].
Qed.

Lemma update_projects_edited (edited : list edited_row) (data : list entry)
    (i : nat) (e : entry) (row : edited_row) :
  NoDup (map ID data) -> NoDup (map ed_ID edited) ->
  data !! i = Some e -> row ∈ edited -> ed_ID row = ID e ->
  update_projects data edited !! i = Some (assign_edited row e).
Proof.
  revert data. induction edited as [|row0 edited IH]; intros data Hnd Hed Hi Hin Hid.
  - apply elem_of_nil in Hin. contradiction.
  - unfold update_projects in *. cbn [foldl]. cbn [map] in Hed.
    apply NoDup_cons in Hed as [Hfresh Hed].
    pose proof (update_row_lookup data row0 i e Hnd Hi) as Hstep.
    apply elem_of_cons in Hin as [->|Hin].
    + rewrite decide_True in Hstep by congruence.
      change (foldl update_row (update_row data row0) edited)
        with (update_projects (update_row data row0) edited).
      apply update_projects_untouched;
        [rewrite update_row_ID; exact Hnd|exact Hstep|].
      rewrite assign_edited_ID, <- Hid. exact Hfresh.
    + assert (Hne : ID e <> ed_ID row0).
      { intros Heq. apply Hfresh. rewrite <- Heq, <- Hid.
        change (map ed_ID edited) with (ed_ID <$> edited).
        apply list_elem_of_fmap. exists row. split; [reflexivity|exact Hin]. }
      rewrite decide_False in Hstep by exact Hne.
      apply IH; [rewrite update_row_ID; exact Hnd|exact Hed|exact Hstep
                |exact Hin|exact Hid].
Qed.

Lemma update_row_columns (data : list entry) (row : edited_row) :
  has_ratio_columns data -> has_ratio_columns (update_row data row).
Proof.
  intros H. unfold update_row.
  destruct (list_find _ data) as [[idx e]|]; [|exact H].
  apply Forall_insert; [exact H|]. cbn. eauto.
Qed.

Lemma update_projects_columns (edited : list edited_row) (data : list entry) :
  has_ratio_columns data -> has_ratio_columns (update_projects data edited).
Proof.
  revert data. induction edited as [|row edited IH]; intros data H; [exact H|].
  unfold update_projects in *. cbn [foldl]. apply IH, update_row_columns, H.
Qed.

Lemma delete_projects_columns (ids : list string) (data : list entry) :
  has_ratio_columns data -> has_ratio_columns (delete_projects ids data).
Proof.
  intros H. unfold delete_projects.
  pose proof (ensure_has_ratio_columns data (has_ratio_columns_whole data H)) as Hfull.
  unfold has_ratio_columns in *. apply Forall_forall. intros e He.
  apply list_elem_of_filter in He as [_ He].
  rewrite Forall_forall in Hfull. apply Hfull, He.
Qed.

Lemma add_project_columns (new_id : string) (f : form) (data data' : list entry) :
  has_ratio_columns data -> add_project new_id f data = Saved data' ->
  has_ratio_columns data'.
Proof.
  intros H. unfold add_project.
  destruct (String.eqb _ _); [discriminate|].
  destruct (negb _); [discriminate|].
  intros [= <-].
  assert (Hnew : has_ratio_columns [new_project new_id f])
    by (repeat constructor; cbn; eauto).
  destruct data as [|e0 rest]; [exact Hnew|].
  apply Forall_app. split; [exact H|exact Hnew].
Qed.

(** X14. The update by ID of the project editor. On a stored frame with
    unique IDs and the three ratio columns, and an edited table with unique
    IDs, the update keeps the rows, their IDs and the ratio columns in
    place; a stored row whose ID is in no edited row is left as it is; a
    stored row whose ID is that of an edited row takes the corrected revenue
    of that row rounded to two decimals and its three ratios as they are,
    whatever they sum to, and keeps its other columns. *)
Theorem update_projects_by_id (data : list entry) (edited : list edited_row) :
  NoDup (map ID data) -> has_ratio_columns data -> NoDup (map ed_ID edited) ->
  let data' := update_projects data edited in
  map ID data' = map ID data
  /\ has_ratio_columns data'
  /\ (forall i e, data !! i = Some e -> ID e ∉ map ed_ID edited ->
        data' !! i = Some e)
  /\ (forall i e row, data !! i = Some e -> row ∈ edited -> ed_ID row = ID e ->
        exists e',
          data' !! i = Some e'
          /\ corrected_revenue (fields e') = round2 (ed_corrected_revenue row)
          /\ first_payment_ratio (fields e') = Some (ed_first_payment_ratio row)
          /\ second_payment_ratio (fields e') = Some (ed_second_payment_ratio row)
          /\ final_payment_ratio (fields e') = Some (ed_final_payment_ratio row)
          /\ ID e' = ID e
          /\ project_name (fields e') = project_name (fields e)
          /\ delivery_date (fields e') = delivery_date (fields e)
          /\ business_line (fields e') = business_line (fields e)
          /\ contract_amount (fields e') = contract_amount (fields e)
          /\ delivery_month e' = delivery_month e
          /\ month_count e' = month_count e).
Proof.
  intros Hnd Hcols Hed data'. subst data'.
  split; [apply update_projects_ID|].
  split; [apply update_projects_columns, Hcols|]. split.
  - intros i e Hi Hnot. apply update_projects_untouched; assumption.
  - intros i e row Hi Hin Hid. exists (assign_edited row e).
    split; [apply update_projects_edited; assumption|].
    repeat split.
Qed.

Lemma same_rows_ratios (df df' : list entry) :
  same_rows df df' -> Forall ratios_sum_to_100 df -> Forall ratios_sum_to_100 df'.
Proof.
  induction 1 as [|e e' df df' (_ & _ & _ & H) _ IH]; intros Hall; [constructor|].
  apply Forall_cons in Hall as [He Hall]. constructor; [|apply IH, Hall].
  destruct H as (_ & _ & _ & _ & _ & H1 & H2 & H3).
  unfold ratios_sum_to_100 in *. rewrite <- H1, <- H2, <- H3. exact He.
Qed.

Lemma filter_ID_NoDup (P : entry -> Prop) `{!forall e, Decision (P e)}
    (l : list entry) :
  NoDup (map ID l) -> NoDup (map ID (filter P l)).
Proof.
  induction l as [|e l IH]; intros Hnd; [constructor|].
  cbn [map] in Hnd. apply NoDup_cons in Hnd as [Hfresh Hnd].
  destruct (decide (P e)) as [Hp|Hp].
  - rewrite filter_cons_True by exact Hp. cbn [map]. apply NoDup_cons.
    split; [|apply IH, Hnd].
    intros Hin. apply Hfresh.
    change (map ID (filter P l)) with (ID <$> filter P l) in Hin.
    apply list_elem_of_fmap in Hin as (x & Hx & Hin).
    apply list_elem_of_filter in Hin as [_ Hin].
    change (map ID l) with (ID <$> l). apply list_elem_of_fmap. eauto.
  - rewrite filter_cons_False by exact Hp. apply IH, Hnd.
Qed.

(** X15. What the buttons keep of the stored frame. On a frame with
    unique IDs and the three ratio columns: a project added under an ID that
    no stored row has leaves the IDs unique and the columns in place;
    deleting removes exactly the rows whose ID was selected, keeps the other
    rows in their order, and leaves the IDs unique and the columns in place;
    an update by ID changes no ID and leaves the columns in place. *)
Theorem store_ids_stay_unique (data : list entry) :
  NoDup (map ID data) -> has_ratio_columns data ->
  (forall new_id f data', new_id ∉ map ID data ->
     add_project new_id f data = Saved data' ->
     NoDup (map ID data') /\ has_ratio_columns data')
  /\ (forall ids,
        NoDup (map ID (delete_projects ids data))
        /\ has_ratio_columns (delete_projects ids data)
        /\ map ID (delete_projects ids data) = filter (fun i => i ∉ ids) (map ID data)
        /\ length (delete_projects ids data)
           = (length data - length (filter (fun i => i ∈ ids) (map ID data)))%nat)
  /\ (forall edited,
        NoDup (map ID (update_projects data edited))
        /\ has_ratio_columns (update_projects data edited)).
Proof.
  intros Hnd Hcols. split; [|split].
  - intros new_id f data' Hfresh Hadd.
    split; [|exact (add_project_columns new_id f data data' Hcols Hadd)].
    revert Hadd. unfold add_project.
    destruct (String.eqb _ _); [discriminate|].
    destruct (negb _); [discriminate|].
    intros [= <-].
    assert (Happ : NoDup (map ID (data ++ [new_project new_id f]))).
    { rewrite map_app. cbn [map new_project ID].
      apply NoDup_app. split; [exact Hnd|]. split; [|apply NoDup_singleton].
      intros x Hx Hin. apply list_elem_of_singleton in Hin. subst x.
      apply Hfresh, Hx. }
    destruct data; [apply NoDup_singleton|exact Happ].
  - intros ids.
    assert (Hdc := delete_projects_columns ids data Hcols).
    cut (NoDup (map ID (delete_projects ids data))
         /\ map ID (delete_projects ids data) = filter (fun i => i ∉ ids) (map ID data)
         /\ length (delete_projects ids data)
            = (length data - length (filter (fun i => i ∈ ids) (map ID data)))%nat);
      [intros (A & B & C); repeat split; assumption|].
    clear Hdc Hcols. unfold delete_projects.
    pose proof (same_rows_ID _ _ (ensure_same_rows data)) as HID.
    generalize dependent (ensure_columns_compatibility data). intros full_data HID.
    assert (Hlen : length full_data = length data).
    { rewrite <- (length_map ID full_data), <- HID, length_map. reflexivity. }
    rewrite HID in Hnd. rewrite HID, <- Hlen. clear HID Hlen data.
    split; [apply filter_ID_NoDup, Hnd|].
    clear Hnd. induction full_data as [|e l [IH1 IH2]]; [split; reflexivity|].
    cbn [map length]. destruct (decide (ID e ∈ ids)) as [Hin|Hin].
    + rewrite filter_cons_False by (intros H; apply H, Hin).
      rewrite (filter_cons_False (fun i => i ∉ ids)) by (intros H; apply H, Hin).
      rewrite (filter_cons_True (fun i => i ∈ ids)) by exact Hin.
      split; [exact IH1|]. rewrite IH2. cbn [length]. lia.
    + rewrite filter_cons_True by exact Hin.
      rewrite (filter_cons_True (fun i => i ∉ ids)) by exact Hin.
      rewrite (filter_cons_False (fun i => i ∈ ids)) by exact Hin.
      cbn [map length]. split; [rewrite IH1; reflexivity|]. rewrite IH2.
      pose proof (length_filter (fun i => i ∈ ids) (map ID l)) as Hle.
      rewrite length_map in Hle. lia.
  - intros edited. split; [rewrite update_projects_ID; exact Hnd|].
    apply update_projects_columns, Hcols.
Qed.

End StoreOperations.

Section RatioValidation.
Import IncomeManager ProjectStore.
Local Open Scope Q_scope.

Lemma no_warning_of_ratios (l : list entry) :
  Forall ratios_sum_to_100 l -> snd (cash_flow_rows (map fields l)) = [].
Proof.
  intros H. destruct (cash_flow_rows_split (map fields l)) as [_ ->].
  induction H as [|e l He _ IH]; [reflexivity|].
  cbn [map flat_map]. rewrite IH.
  destruct (project_cash_flow_total (fields e) He) as (-> & _). reflexivity.
Qed.

Lemma zero_ratios_warn (row : edited_row) (e : entry) :
  ed_first_payment_ratio row = 0 -> ed_second_payment_ratio row = 0 ->
  ed_final_payment_ratio row = 0 ->
  ~ ratios_sum_to_100 (assign_edited row e)
  /\ snd (project_cash_flow (fields (assign_edited row e))) <> [].
Proof.
  intros H1 H2 H3. split.
  - unfold ratios_sum_to_100. cbn [assign_edited with_fields fields first_payment_ratio
      second_payment_ratio final_payment_ratio]. rewrite H1, H2, H3.
    vm_compute. discriminate.
  - unfold project_cash_flow, ui_bind.
    cbn [assign_edited with_fields fields first_payment_ratio
      second_payment_ratio final_payment_ratio]. rewrite H1, H2, H3.
    change (Qgtb (Qabs (get (Some 0) 50 / 100 + get (Some 0) 40 / 100
                        + get (Some 0) 10 / 100 - 1)) (1 # 1000)) with true.
    cbn. discriminate.
Qed.

(** X16. Where the sum of the payment ratios is checked and where it is
    not. On a stored frame with the three ratio columns whose rows all have
    ratios summing to 100 the
    cash-flow generator raises no warning, and this stays so after a project
    is added through the form and after projects are deleted; but the update
    by ID of the project editor stores ratios as they are typed: on any
    frame with a row there is an edit after which a row has ratios that do
    not sum to 100 and the generator raises a warning. *)
Theorem ratio_sum_checked_on_add_not_on_edit (data : list entry) :
  has_ratio_columns data -> Forall ratios_sum_to_100 data ->
  snd (cash_flow_rows (map fields data)) = []
  /\ (forall new_id f data',
        add_project new_id f data = Saved data' ->
        Forall ratios_sum_to_100 data'
        /\ snd (cash_flow_rows (map fields data')) = [])
  /\ (forall ids,
        Forall ratios_sum_to_100 (delete_projects ids data)
        /\ snd (cash_flow_rows (map fields (delete_projects ids data))) = [])
  /\ (data <> [] ->
      exists edited,
        ~ Forall ratios_sum_to_100 (update_projects data edited)
        /\ snd (cash_flow_rows (map fields (update_projects data edited))) <> []).
Proof.
  intros _ Hall. split; [apply no_warning_of_ratios, Hall|]. split; [|split].
  - intros new_id f data' Hadd.
    assert (Hnew : Forall ratios_sum_to_100 data').
    { revert Hadd. unfold add_project.
      destruct (String.eqb _ _); [discriminate|].
      destruct (negb _) eqn:Esum; [discriminate|].
      apply negb_false_iff, Z.eqb_eq in Esum.
      assert (He : ratios_sum_to_100 (new_project new_id f)).
      { unfold ratios_sum_to_100.
        change (inject_Z (form_first_payment_ratio f)
                + inject_Z (form_second_payment_ratio f)
                + inject_Z (form_final_payment_ratio f) == 100).
        rewrite <- !inject_Z_plus, Esum. reflexivity. }
      intros [= <-]. destruct data as [|e0 rest]; [repeat constructor; exact He|].
      apply Forall_app. split; [exact Hall|repeat constructor; exact He]. }
    split; [exact Hnew|apply no_warning_of_ratios, Hnew].
  - intros ids.
    assert (Hdel : Forall ratios_sum_to_100 (delete_projects ids data)).
    { unfold delete_projects.
      pose proof (same_rows_ratios _ _ (ensure_same_rows data) Hall) as Hfull.
      apply Forall_forall. intros e He.
      apply list_elem_of_filter in He as [_ He].
      rewrite Forall_forall in Hfull. apply Hfull, He. }
    split; [exact Hdel|apply no_warning_of_ratios, Hdel].
  - intros Hne. destruct data as [|e0 rest]; [congruence|].
    set (row := {| ed_ID := ID e0;
                   ed_corrected_revenue := corrected_revenue (fields e0);
                   ed_first_payment_ratio := 0; ed_second_payment_ratio := 0;
                   ed_final_payment_ratio := 0 |}).
    exists [row].
    assert (Hupd : update_projects (e0 :: rest) [row] = assign_edited row e0 :: rest).
    { unfold update_projects. cbn [foldl]. unfold update_row.
      assert (Hfind : list_find (fun e => ID e = ed_ID row) (e0 :: rest) = Some (0%nat, e0)).
      { apply list_find_Some. split; [reflexivity|]. split; [reflexivity|].
        intros j y _ Hj. lia. }
      rewrite Hfind. reflexivity. }
    rewrite Hupd.
    destruct (zero_ratios_warn row e0 eq_refl eq_refl eq_refl) as [Hbad Hwarn].
    split.
    + intros H. apply Forall_cons in H as [H _]. exact (Hbad H).
    + destruct (cash_flow_rows_split (map fields (assign_edited row e0 :: rest)))
        as [_ ->].
      cbn [map flat_map]. intros H. apply app_eq_nil in H as [H _]. exact (Hwarn H).
Qed.

End RatioValidation.

(** ** The quarterly rows of the income summary *)

Section QuarterlySummary.
Import IncomeManager Summary.
Local Open Scope Q_scope.

Lemma cumsum_from_recurrence (acc : Q) (l : list Q) :
  cumsum_from acc l = Runway.balance_recurrence acc l.
Proof.
  revert acc. induction l as [|x l IH]; intros acc; [reflexivity|].
  cbn [cumsum_from Runway.balance_recurrence]. rewrite IH. reflexivity.
Qed.

Lemma Qsum_take_bounds (l : list Q) (n : nat) :
  Forall (fun x => 0 <= x) l -> 0 <= Qsum (take n l) <= Qsum l.
Proof.
  intros H. revert n. induction H as [|x l Hx Hl IH]; intros n.
  - rewrite take_nil, Qsum_nil. split; apply Qle_refl.
  - destruct n as [|n].
    + change (take 0 (x :: l)) with (@nil Q). rewrite Qsum_nil, Qsum_cons.
      pose proof (Qsum_nonneg l Hl). split; Lqa.lra.
    + change (take (S n) (x :: l)) with (x :: take n l). rewrite !Qsum_cons.
      destruct (IH n). split; Lqa.lra.
Qed.

Lemma round1_comp (q q' : Q) : q == q' -> round1 q == round1 q'.
Proof.
  intros H. unfold round1.
  rewrite (round_half_even_comp (q * 10) (q' * 10)); [reflexivity|].
  rewrite H. reflexivity.
Qed.

Lemma sum_list_indicator (k0 : month_key) (K : list month_key) :
  NoDup K -> k0 ∈ K ->
  sum_list (map (fun k => if decide (k0 = k) then 1%nat else 0%nat) K) = 1%nat.
Proof.
  induction 1 as [|k K Hk Hnd IH]; intros Hin.
  - apply elem_of_nil in Hin. contradiction.
  - cbn [map sum_list]. apply elem_of_cons in Hin as [->|Hin].
    + rewrite decide_True by reflexivity.
      assert (H0 : sum_list (map (fun k' => if decide (k = k') then 1%nat else 0%nat) K)
                   = 0%nat).
      { clear IH Hnd. induction K as [|k' K IH]; [reflexivity|].
        cbn [map sum_list]. apply not_elem_of_cons in Hk as [Hne Hk].
        rewrite decide_False by exact Hne. rewrite IH by exact Hk. reflexivity. }
      rewrite H0. reflexivity.
    + rewrite decide_False by (intros ->; contradiction).
      rewrite IH by exact Hin. reflexivity.
Qed.

Lemma count_cover {A} (key : A -> month_key) (data : list A) (K : list month_key) :
  NoDup K -> (forall a, a ∈ data -> key a ∈ K) ->
  sum_list (map (fun k => length (filter (fun a => key a = k) data)) K)
  = length data.
Proof.
  intros Hnd. induction data as [|a data IH]; intros Hcover.
  - clear Hnd Hcover. cbn [length]. induction K as [|k K IHK]; [reflexivity|].
    cbn [map sum_list]. rewrite filter_nil. cbn [length]. exact IHK.
  - assert (Hsplit : forall L : list month_key,
      sum_list (map (fun k => length (filter (fun a => key a = k) (a :: data))) L)
      = (sum_list (map (fun k => if decide (key a = k) then 1%nat else 0%nat) L)
         + sum_list (map (fun k => length (filter (fun a => key a = k) data)) L))%nat).
    { induction L as [|k L IHL]; [reflexivity|].
      cbn [map sum_list]. rewrite IHL.
      destruct (decide (key a = k)) as [E|E].
      - rewrite filter_cons_True by exact E. cbn [length]. cbv beta iota.
        unfold Datatypes.id. lia.
      - rewrite filter_cons_False by exact E. cbv beta iota.
        unfold Datatypes.id. lia. }
    rewrite Hsplit, IH, sum_list_indicator; [reflexivity|exact Hnd| |].
    + apply Hcover. left.
    + intros b Hb. apply Hcover. right. exact Hb.
Qed.

Lemma zip_fst_length {A B} (l : list A) (k : list B) :
  length l = length k -> map fst (zip l k) = l.
Proof.
  intros H. change (map fst (zip l k)) with ((zip l k).*1).
  apply fst_zip. lia.
Qed.

Lemma zip_snd_length {A B} (l : list A) (k : list B) :
  length l = length k -> map snd (zip l k) = k.
Proof.
  intros H. change (map snd (zip l k)) with ((zip l k).*2).
  apply snd_zip. lia.
Qed.

Lemma two_decimals_Qeq (a b : Q) : a == b -> two_decimals a -> two_decimals b.
Proof.
  unfold two_decimals. intros H Ha. rewrite <- (round2_comp a b H), Ha. exact H.
Qed.

Lemma two_decimals_Qsum (l : list Q) : Forall two_decimals l -> two_decimals (Qsum l).
Proof.
  induction 1 as [|x l Hx _ IH].
  - apply two_decimals_cents. exists 0%Z. rewrite Qsum_nil. reflexivity.
  - apply two_decimals_cents in Hx as [z Hz]. apply two_decimals_cents in IH as [w Hw].
    apply two_decimals_cents. exists (z + w)%Z.
    rewrite Qsum_cons, Hz, Hw, inject_Z_plus. field.
Qed.

Lemma quarterly_rows_map (data : list Project) :
  quarterly_rows data
  = map (fun r => {| item := quarter r;
                     summary_amount := round2 (amount r);
                     summary_count := project_count r;
                     summary_share := round1 (cumulative_share r);
                     summary_contract := round2 (contract_total r) |})
        (quarterly data).
Proof. destruct data; reflexivity. Qed.

(** X17. The quarterly rows of the income summary. The table has one row
    for each quarter in which a project is delivered, in chronological
    order; the amounts of its rows add up to the corrected revenue of all
    projects, also as they are written to the summary when the corrected
    revenues have two decimals, and their project counts add up to the
    number of projects; when the total is positive the cumulative share
    written for the last quarter is 100, and when it is not every share is
    0; when no corrected revenue is negative every cumulative share lies
    between 0 and 100. *)
Theorem quarterly_summary_shares (data : list Project) :
  let table := quarterly data in
  let total := Qsum (map corrected_revenue data) in
  map item (quarterly_rows data) = map quarter table
  /\ StronglySorted month_lt (map quarter table)
  /\ (forall k, k ∈ map quarter table
                <-> exists p, p ∈ data /\ quarter_label_of p = k)
  /\ Qsum (map amount table) == total
  /\ (Forall (fun p => two_decimals (corrected_revenue p)) data ->
      Qsum (map summary_amount (quarterly_rows data)) == total)
  /\ sum_list (map summary_count (quarterly_rows data)) = length data
  /\ (0 < total ->
      forall r, last (quarterly_rows data) = Some r -> summary_share r == 100)
  /\ (~ 0 < total -> Forall (fun r => cumulative_share r = 0) table)
  /\ (Forall (fun p => 0 <= corrected_revenue p) data ->
      Forall (fun r => 0 <= cumulative_share r <= 100) table).
Proof.
  intros table total. rewrite quarterly_rows_map. rewrite !map_map.
  cbn [item summary_amount summary_count summary_share].
  change (map (fun x => quarter x) (quarterly data)) with (map quarter (quarterly data)).
  change (map (fun x => project_count x) (quarterly data))
    with (map project_count (quarterly data)).
  split; [reflexivity|].
  assert (Hamount : forall k,
            default 0 (groupby_sum quarter_label_of corrected_revenue data !! k)
            == Qsum (map corrected_revenue
                       (filter (fun p => quarter_label_of p = k) data))).
  { intros k. unfold groupby_sum.
    rewrite groupby_sum_lookup_from, lookup_empty. cbn [default]. ring. }
  subst table. unfold quarterly.
  set (amounts := groupby_sum quarter_label_of corrected_revenue data).
  set (contracts := groupby_sum quarter_label_of contract_amount data).
  set (quarters := merge_sort month_le (elements (dom amounts))).
  set (A := map (fun k => default 0 (amounts !! k)) quarters).
  set (F := fun kc : month_key * Q => _).
  assert (Hperm : quarters ≡ₚ elements (dom amounts))
    by apply merge_sort_Permutation.
  assert (HndK : NoDup quarters) by (rewrite Hperm; apply NoDup_elements).
  assert (Hdom : dom amounts = list_to_set (map quarter_label_of data)).
  { unfold amounts, groupby_sum.
    rewrite groupby_sum_dom_from, dom_empty_L, union_empty_l_L. reflexivity. }
  assert (HK : forall k, k ∈ quarters
                         <-> exists p, p ∈ data /\ quarter_label_of p = k).
  { intros k. rewrite Hperm, elem_of_elements, Hdom, elem_of_list_to_set.
    change (map quarter_label_of data) with (quarter_label_of <$> data).
    rewrite list_elem_of_fmap. split; intros (p & H1 & H2); exists p; split;
      congruence || assumption. }
  assert (HA : Qsum A == total).
  { unfold A.
    rewrite (Qsum_perm _ (map (fun k => default 0 (amounts !! k))
                              (elements (dom amounts))))
      by (apply Permutation_map, Hperm).
    rewrite Qsum_lookup_cover;
      [apply groupby_sum_total|apply NoDup_elements|].
    intros k Hk. apply elem_of_elements, Hk. }
  assert (Hlen : length quarters = length (cumsum A)).
  { unfold cumsum. rewrite cumsum_from_recurrence, length_balance_recurrence.
    unfold A. rewrite length_map. reflexivity. }
  assert (Hq : map quarter (map F (zip quarters (cumsum A))) = quarters).
  { rewrite map_map. change (fun x => quarter (F x)) with (@fst month_key Q).
    apply zip_fst_length, Hlen. }
  assert (Hc : map cumulative_amount (map F (zip quarters (cumsum A))) = cumsum A).
  { rewrite map_map. change (fun x => cumulative_amount (F x)) with (@snd month_key Q).
    apply zip_snd_length, Hlen. }
  assert (Hcum : forall kc, kc ∈ zip quarters (cumsum A) ->
                   exists i, kc.2 == Qsum (take (S i) A)).
  { intros [k c] Hin. apply elem_of_zip_r in Hin.
    apply list_elem_of_lookup in Hin as [i Hi]. exists i.
    unfold cumsum in Hi. rewrite cumsum_from_recurrence in Hi.
    apply balance_recurrence_running in Hi. cbn [snd]. rewrite Hi. ring. }
  split; [|split; [|split; [|split; [|split; [|split; [|split]]]]]].
  - rewrite Hq. apply StronglySorted_strict; [|exact HndK].
    apply (StronglySorted_merge_sort month_le).
  - intros k. rewrite Hq. apply HK.
  - rewrite map_map.
    change (fun x => amount (F x))
      with (fun x : month_key * Q => default 0 (amounts !! x.1)).
    transitivity (Qsum (map (fun k => default 0 (amounts !! k))
                            (map fst (zip quarters (cumsum A)))));
      [rewrite map_map; reflexivity|].
    rewrite zip_fst_length by exact Hlen. exact HA.
  - intros Htwo. rewrite <- HA.
    transitivity (Qsum (map (fun k => round2 (default 0 (amounts !! k)))
                            (map fst (zip quarters (cumsum A)))));
      [rewrite !map_map; reflexivity|].
    rewrite zip_fst_length by exact Hlen. unfold A.
    generalize quarters. intros l. induction l as [|k l IH]; [reflexivity|].
    cbn [map]. rewrite !Qsum_cons, IH.
    assert (Hk : two_decimals (default 0 (amounts !! k))).
    { eapply two_decimals_Qeq; [symmetry; apply Hamount|].
      apply two_decimals_Qsum, Forall_map, Forall_forall. intros p Hp.
      apply list_elem_of_filter in Hp as [_ Hp].
      rewrite Forall_forall in Htwo. apply Htwo, Hp. }
    unfold two_decimals in Hk. rewrite Hk. reflexivity.
  - rewrite map_map.
    change (fun x => project_count (F x))
      with (fun x : month_key * Q =>
              length (filter (fun p => quarter_label_of p = x.1) data)).
    transitivity (sum_list (map (fun k => length (filter (fun p => quarter_label_of p = k) data))
                                (map fst (zip quarters (cumsum A)))));
      [rewrite map_map; reflexivity|].
    rewrite zip_fst_length by exact Hlen.
    apply count_cover; [exact HndK|].
    intros p Hp. apply HK. eauto.
  - intros Hpos r Hlast.
    change (map ?f ?l) with (f <$> l) in Hlast.
    rewrite !fmap_last in Hlast.
    destruct (last (zip quarters (cumsum A))) as [[k c]|] eqn:El; [|discriminate].
    injection Hlast as <-. cbn [summary_share].
    assert (Hcl : last (cumsum A) = Some c).
    { rewrite <- (zip_snd_length quarters (cumsum A) Hlen).
      change (map snd (zip quarters (cumsum A))) with (snd <$> zip quarters (cumsum A)).
      rewrite fmap_last, El. reflexivity. }
    pose proof (balance_recurrence_last 0 A) as Hl.
    unfold cumsum in Hcl. rewrite cumsum_from_recurrence in Hcl.
    rewrite Hcl in Hl. cbn [default] in Hl.
    assert (Hr : cumulative_share (F (k, c)) == 100).
    { unfold F. cbn [cumulative_share snd].
      rewrite <- HA in Hpos. rewrite (proj2 (Qgtb_lt _ _) Hpos).
      rewrite Hl. field. intros H0. rewrite H0 in Hpos. revert Hpos.
      apply Qlt_irrefl. }
    transitivity (round1 100); [apply round1_comp, Hr|vm_compute; reflexivity].
  - intros Hneg. apply Forall_map, Forall_forall. intros kc _.
    unfold F. cbn [cumulative_share].
    destruct (Qgtb (Qsum A) 0) eqn:E; [|reflexivity].
    apply (proj1 (Qgtb_lt _ _)) in E. rewrite HA in E. contradiction.
  - intros Hnn.
    assert (HAnn : Forall (fun x => 0 <= x) A).
    { unfold A. apply Forall_map, Forall_forall. intros k _.
      unfold amounts, groupby_sum.
      rewrite groupby_sum_lookup_from, lookup_empty. cbn [default].
      rewrite Qplus_0_l. apply Qsum_nonneg.
      apply Forall_map, Forall_forall. intros p Hp.
      apply list_elem_of_filter in Hp as [_ Hp].
      rewrite Forall_forall in Hnn. apply Hnn, Hp. }
    apply Forall_map, Forall_forall. intros kc Hin.
    destruct (Hcum kc Hin) as [i Hi].
    unfold F. cbn [cumulative_share].
    destruct (Qgtb (Qsum A) 0) eqn:E; [|split; [apply Qle_refl|discriminate]].
    apply (proj1 (Qgtb_lt _ _)) in E.
    destruct (Qsum_take_bounds A (S i) HAnn) as [L U].
    rewrite <- Hi in L, U. revert E L U.
    generalize (Qsum A) (kc.2). intros T c E L U.
    assert (H0 : 0 <= c / T) by (apply Qle_shift_div_l; [exact E|Lqa.lra]).
    assert (H1 : c / T <= 1) by (apply Qle_shift_div_r; [exact E|Lqa.lra]).
    revert H0 H1. generalize (c / T). intros q H0 H1. split; Lqa.lra.
Qed.

End QuarterlySummary.

(** ** The further properties on concrete records *)

Section Illustrations.
Local Open Scope Q_scope.

(** The charts and the page on grouped frames without occasional entries:
    the same rows. *)
Lemma charts_rollup_against_page_example :
  Budget.occasional_income_monthly Samples.plain_series = ∅
  /\ Budget.occasional_expense_monthly Samples.plain_series = ∅
  /\ Forall2 same_figures
       (Charts.budget_summary (Charts.of_budget Samples.plain_series))
       (Budget.budget_summary Samples.plain_series).
Proof.
  split; [reflexivity|]. split; [reflexivity|].
  exact (proj2 (proj2 (proj2 (charts_rollup_against_page
                                Samples.plain_series)) eq_refl eq_refl)).
Defined.

(** The margins of the same frames, whose costs are not negative. *)
Lemma gross_margin_at_most_100_example :
  BudgetStatistics.avg_margin
    (BudgetStatistics.summary_statistics (Budget.budget_summary Samples.plain_series))
  <= 100.
Proof.
  apply (gross_margin_at_most_100 Samples.plain_series).
  - apply map_Forall_singleton. vm_compute. discriminate.
  - apply map_Forall_singleton. vm_compute. discriminate.
  - apply map_Forall_empty.
  - apply map_Forall_empty.
Defined.

(** Net cash flows of 5, -20 and 3: an opening balance of 30 gives a runway
    at least as long as an opening balance of 10. *)
Lemma runway_monotone_example :
  Nat.le (Runway.runway_months (Runway.cumulative_balance 10 Samples.dipping_flows))
         (Runway.runway_months (Runway.cumulative_balance 30 Samples.dipping_flows)).
Proof.
  apply (runway_monotone_in_opening_balance 10 30 Samples.dipping_flows).
  vm_compute. discriminate.
Defined.

(** Net cash flows of 1, 0 and 2 from an opening balance of 10: a runway of
    three months, the length of the table. *)
Lemma runway_capped_example :
  Runway.runway_months (Runway.cumulative_balance 10 Samples.steady_flows) = 3%nat.
Proof.
  assert (H : 0 < 10) by reflexivity.
  apply (proj1 (runway_capped_by_table 10 Samples.steady_flows H)).
  repeat constructor; vm_compute; discriminate.
Defined.

(** The budget page of the example session: the ledger is shown and its
    total revenue is the corrected revenue of the one project, 10.01. *)
Lemma budget_page_totals_example :
  exists ledger,
    budget_page (Examples.session 0) = Some (Shown ledger)
    /\ BudgetStatistics.total_income (BudgetStatistics.summary_statistics ledger)
       == 10.01.
Proof.
  destruct (budget_page_totals_from_records (Examples.session 0)) as [_ H].
  - repeat constructor; unfold valid_date; vm_compute; repeat split; discriminate.
  - repeat constructor; unfold valid_date; vm_compute; repeat split; discriminate.
  - assert (Hne : IncomeManager.rows (IncomeManager.data (income (Examples.session 0)))
                  <> []) by discriminate.
    destruct (H Hne) as (ledger & ldf & adf & Hpage & _ & _ & Hincome & _).
    exists ledger. split; [exact Hpage|]. rewrite Hincome. vm_compute. reflexivity.
Defined.

(** The one project of the example manager, paid 33, 33 and 34 percent:
    no warning, three events, and payments within 0.015 of its revenue. *)
Lemma total_cash_flow_close_to_revenue_example :
  snd (IncomeManager.generate_cash_flow_data Examples.one_project_manager) = []
  /\ length (fst (IncomeManager.generate_cash_flow_data Examples.one_project_manager))
     = 3%nat.
Proof.
  destruct (total_cash_flow_close_to_revenue Examples.one_project_manager)
    as (Hw & Hn & _).
  - repeat constructor; vm_compute; reflexivity.
  - split; [exact Hw|exact Hn].
Defined.

(** The labor record of monthly cost 30 from 2025-01-15 to 2025-03-10:
    three entries, none above 30. *)
Lemma labor_cost_bounded_example :
  exists entries,
    LaborCostManager.row_costs Examples.partial_months_labor = Some entries
    /\ Z.of_nat (length entries) = 3%Z
    /\ Forall (fun en => LaborCostManager.lc_amount en <= 30) entries.
Proof.
  destruct (labor_cost_bounded_by_monthly_cost Examples.partial_months_labor)
    as (entries & Hrun & Hlen & Hbound & _).
  - unfold valid_date; vm_compute; repeat split; discriminate.
  - unfold valid_date; vm_compute; repeat split; discriminate.
  - vm_compute. discriminate.
  - exists entries. split; [exact Hrun|]. split; [rewrite Hlen; reflexivity|].
    eapply Forall_impl; [exact Hbound|]. intros en [_ H].
    eapply Qle_trans; [exact H|]. vm_compute. discriminate.
Defined.

(** The quarterly record of monthly cost 3 over 2025: four events, 36 in
    all. *)
Lemma admin_charged_in_whole_periods_example :
  exists evs,
    AdminCostManager.row_events Examples.quarterly_admin = Some evs
    /\ Z.of_nat (length evs) = 4%Z
    /\ Qsum (map AdminCostManager.ac_amount evs) == 36.
Proof.
  destruct (admin_charged_in_whole_periods Examples.quarterly_admin) as (_ & Hq & _).
  - unfold valid_date; vm_compute; repeat split; discriminate.
  - unfold valid_date; vm_compute; repeat split; discriminate.
  - destruct (Hq eq_refl) as (evs & Hrun & Hlen & Hsum & _).
    exists evs. split; [exact Hrun|]. split; [rewrite Hlen; reflexivity|].
    rewrite Hsum. vm_compute. reflexivity.
Defined.

(** The form filled in for a third project: saved after the two stored
    rows, with a corrected revenue of 37.66. *)
Lemma add_project_example :
  ProjectStore.add_project "p-3" Samples.filled_form Samples.stored_projects
  = ProjectStore.Saved
      (Samples.stored_projects
       ++ [ProjectStore.new_project "p-3" Samples.filled_form])
  /\ snd (IncomeManager.project_cash_flow
            (ProjectStore.fields (ProjectStore.new_project "p-3" Samples.filled_form)))
     = [].
Proof.
  destruct (add_project_validates_ratios "p-3" Samples.filled_form
              Samples.stored_projects) as (_ & _ & H).
  assert (Hname : ProjectStore.form_project_name Samples.filled_form <> ""%string)
    by discriminate.
  destruct (H Hname eq_refl) as (Hsaved & _ & _ & Hw & _).
  split; [exact Hsaved|exact Hw].
Defined.

(** The edited table on the stored frame: the first project is left as it
    is, the second takes 75.13 and the ratios 30, 30 and 30. *)
Lemma update_projects_by_id_example :
  exists e1 e2,
    ProjectStore.update_projects Samples.stored_projects Samples.edited_table
    = [e1; e2]
    /\ ProjectStore.fields e1 = Examples.odd_cents_project
    /\ IncomeManager.corrected_revenue (ProjectStore.fields e2) == 75.13
    /\ IncomeManager.first_payment_ratio (ProjectStore.fields e2) = Some 30.
Proof.
  destruct (update_projects_by_id Samples.stored_projects Samples.edited_table)
    as (_ & _ & _ & Hedit).
  - apply (bool_decide_unpack _). vm_compute. exact I.
  - repeat constructor; cbn; eauto.
  - apply (bool_decide_unpack _). vm_compute. exact I.
  - destruct (Hedit 1%nat _ _ eq_refl (list_elem_of_here _ _) eq_refl)
      as (e2 & _ & Hrev & Hfirst & _).
    do 2 eexists. split; [reflexivity|]. split; [reflexivity|].
    split; [vm_compute; reflexivity|reflexivity].
Defined.

(** Deleting the first project of the stored frame leaves the second. *)
Lemma store_ids_stay_unique_example :
  map ProjectStore.ID (ProjectStore.delete_projects ["p-1"%string] Samples.stored_projects)
  = ["p-2"%string].
Proof.
  destruct (store_ids_stay_unique Samples.stored_projects) as (_ & Hdel & _).
  - apply (bool_decide_unpack _). vm_compute. exact I.
  - repeat constructor; cbn; eauto.
  - destruct (Hdel ["p-1"%string]) as (_ & _ & Hids & _). rewrite Hids.
    vm_compute. reflexivity.
Defined.

(** The stored frame has ratios that sum to 100 and raises no warning. *)
Lemma ratio_sum_checked_example :
  snd (IncomeManager.cash_flow_rows (map ProjectStore.fields Samples.stored_projects))
  = [].
Proof.
  apply (ratio_sum_checked_on_add_not_on_edit Samples.stored_projects).
  - repeat constructor; cbn; eauto.
  - repeat constructor; vm_compute; reflexivity.
Defined.

End Illustrations.
